(** * pastekit: clipboard paste normalisation

    A shallow embedding of [pastekit.js] and the properties of its
    extraction pipeline.

    JavaScript strings are sequences of UTF-16 code units; they are
    modelled as lists of [N].  Regular expressions are modelled by a
    small backtracking matcher for the fragment of ECMAScript syntax
    that the source uses (literals, classes, [.], greedy and lazy
    stars over one-character atoms, the optional capturing group, [^]
    and [$], the [i] flag).  Exceptions are explicit: a computation
    that may throw returns a [completion], and [try] is [try_catch].
    The promise of an [async] function is an [outcome]: fulfilled,
    rejected, or pending for ever.  What the source takes from its
    environment (the HTML parser, the XML serializer, [atob], [Buffer],
    the clock) is a [host]; the decoders that the language defines
    ([decodeURIComponent], and [atob] as the standard defines it) are
    written out.

    The first part holds the definitions, the second the properties. *)

From Stdlib Require Import NArith ZArith String Ascii List Lia Bool.
From Stdlib Require Import DecimalString DecimalN DecimalPos.
From Stdlib Require Import Permutation.
From stdpp Require Import base list.
Import ListNotations.

Local Open Scope N_scope.
Set Warnings "-register-all".

(** ** Strings *)

Module Js.

Definition str := list N.

(** A source literal (all literals of the source are ASCII). *)
Definition lit (s : string) : str :=
  map N_of_ascii (list_ascii_of_string s).
Arguments lit : simpl never.

Fixpoint str_eqb (a b : str) : bool :=
  match a, b with
  | [], [] => true
  | x :: a', y :: b' => (x =? y) && str_eqb a' b'
  | _, _ => false
  end.

(** Truthiness of a string value: the empty string is falsy. *)
Definition truthy (s : str) : bool :=
  match s with [] => false | _ => true end.

(** [v || null] for a string-or-null [v]. *)
Definition or_null (v : option str) : option str :=
  match v with
  | Some s => if truthy s then Some s else None
  | None => None
  end.

(** Truthiness of a string-or-null value. *)
Definition truthy_opt (v : option str) : bool :=
  match v with Some s => truthy s | None => false end.

(** WhiteSpace and LineTerminator code units (ECMAScript 12.2, 12.3);
    the set stripped by [String.prototype.trim] and matched by [\s]. *)
Definition is_line_terminator (c : N) : bool :=
  (c =? 10) || (c =? 13) || (c =? 0x2028) || (c =? 0x2029).

Definition is_white_space (c : N) : bool :=
  (c =? 9) || (c =? 11) || (c =? 12) || (c =? 32) || (c =? 160)
  || (c =? 0xFEFF) || (c =? 0x1680)
  || ((0x2000 <=? c) && (c <=? 0x200A))
  || (c =? 0x202F) || (c =? 0x205F) || (c =? 0x3000).

Definition is_space (c : N) : bool :=
  is_white_space c || is_line_terminator c.

Fixpoint trim_start (s : str) : str :=
  match s with
  | c :: s' => if is_space c then trim_start s' else s
  | [] => []
  end.

Definition trim_end (s : str) : str := rev (trim_start (rev s)).

(** [String.prototype.trim] *)
Definition trim (s : str) : str := trim_end (trim_start s).

(** ASCII lower-casing of a code unit. *)
Definition ascii_lower (c : N) : N :=
  if (65 <=? c) && (c <=? 90) then c + 32 else c.

Fixpoint starts_with (p s : str) : bool :=
  match p, s with
  | [], _ => true
  | x :: p', y :: s' => (x =? y) && starts_with p' s'
  | _ :: _, [] => false
  end.

End Js.

(** ** Regular expressions (the fragment used by the source) *)

Module Re.

Import Js.

Inductive class_item :=
| CChar (c : N)        (* a literal member *)
| CSpace               (* \s *)
| CNonSpace.           (* \S *)

Inductive atom :=
| ALit (c : N)
| ADot
| ASet (negated : bool) (items : list class_item).

Inductive regex :=
| REmpty
| RAtom (a : atom)
| RSeq (r1 r2 : regex)
| RStar (greedy : bool) (a : atom)
| ROpt (r : regex)
| RGroup (n : nat) (r : regex)
| RBol
| REol.

(** Canonicalize (ECMAScript 22.2.5.6) without the [u] flag: a code unit
    is upper-cased, except that a code unit of 128 or more is never
    mapped below 128.  Every pattern character of the source is ASCII,
    so only the ASCII part of the upper-casing decides a comparison; a
    code unit of 128 or more keeps a canonical form of 128 or more and
    is left as it is here. *)
Definition canonicalize (ignore_case : bool) (c : N) : N :=
  if ignore_case then
    if (97 <=? c) && (c <=? 122) then c - 32 else c
  else c.

Definition item_matches (ic : bool) (it : class_item) (c : N) : bool :=
  match it with
  | CChar x => canonicalize ic x =? canonicalize ic c
  | CSpace => is_space c
  | CNonSpace => negb (is_space c)
  end.

Definition atom_matches (ic : bool) (a : atom) (c : N) : bool :=
  match a with
  | ALit x => canonicalize ic x =? canonicalize ic c
  | ADot => negb (is_line_terminator c)
  | ASet neg items => xorb neg (existsb (fun it => item_matches ic it c) items)
  end.

(** Captures: group number to captured substring, latest first. *)
Definition captures := list (nat * str).

Fixpoint capture (n : nat) (cs : captures) : option str :=
  match cs with
  | [] => None
  | (k, v) :: cs' => if Nat.eqb k n then Some v else capture n cs'
  end.

Section Matcher.

Context {R : Type}.
Variable ic : bool.

Definition cont := nat -> str -> captures -> option R.

(** Greedy star: as many iterations as possible first. *)
Fixpoint star_greedy (a : atom) (pos : nat) (s : str) (cs : captures)
    (k : cont) : option R :=
  match s with
  | c :: s' =>
      if atom_matches ic a c then
        match star_greedy a (S pos) s' cs k with
        | Some r => Some r
        | None => k pos s cs
        end
      else k pos s cs
  | [] => k pos s cs
  end.

(** Lazy star: the continuation first. *)
Fixpoint star_lazy (a : atom) (pos : nat) (s : str) (cs : captures)
    (k : cont) : option R :=
  match k pos s cs with
  | Some r => Some r
  | None =>
      match s with
      | c :: s' =>
          if atom_matches ic a c then star_lazy a (S pos) s' cs k else None
      | [] => None
      end
  end.

(** The backtracking matcher, in continuation-passing style. [pos] is
    the index of the first code unit of [s] in the whole input. *)
Fixpoint run (r : regex) (pos : nat) (s : str) (cs : captures)
    (k : cont) : option R :=
  match r with
  | REmpty => k pos s cs
  | RAtom a =>
      match s with
      | c :: s' => if atom_matches ic a c then k (S pos) s' cs else None
      | [] => None
      end
  | RSeq r1 r2 =>
      run r1 pos s cs (fun pos' s' cs' => run r2 pos' s' cs' k)
  | RStar true a => star_greedy a pos s cs k
  | RStar false a => star_lazy a pos s cs k
  | ROpt r1 =>
      match run r1 pos s cs k with
      | Some x => Some x
      | None => k pos s cs
      end
  | RGroup n r1 =>
      run r1 pos s cs
        (fun pos' s' cs' => k pos' s' ((n, take (pos' - pos) s) :: cs'))
  | RBol => if Nat.eqb pos 0 then k pos s cs else None
  | REol => match s with [] => k pos s cs | _ => None end
  end.

End Matcher.

(** A match: the matched substring and the captures. *)
Record match_result := { matched : str; groups : captures }.

Definition match_at (ic : bool) (r : regex) (pos : nat) (s : str)
    : option match_result :=
  run ic r pos s []
    (fun pos' _ cs => Some {| matched := take (pos' - pos) s; groups := cs |}).

(** [RegExp.prototype.exec] without the [g] and [y] flags: the first
    start index, from the left, at which the pattern matches. *)
Fixpoint exec_from (ic : bool) (r : regex) (pos : nat) (s : str)
    : option match_result :=
  match match_at ic r pos s with
  | Some m => Some m
  | None =>
      match s with
      | [] => None
      | _ :: s' => exec_from ic r (S pos) s'
      end
  end.

Definition exec (ic : bool) (r : regex) (s : str) : option match_result :=
  exec_from ic r 0 s.

(** [RegExp.prototype.test] *)
Definition test (ic : bool) (r : regex) (s : str) : bool :=
  match exec ic r s with Some _ => true | None => false end.

(** A run of literal characters. *)
Fixpoint lits (l : str) : regex :=
  match l with
  | [] => REmpty
  | c :: l' => RSeq (RAtom (ALit c)) (lits l')
  end.

End Re.

(** ** Exceptions *)

(** The completion of a synchronous computation: a value, or a thrown
    exception (its payload is never inspected by the source). *)
Inductive completion (A : Type) :=
| Normal (a : A)
| Throw.
Arguments Normal {A} a.
Arguments Throw {A}.

Definition cbind {A B} (c : completion A) (f : A -> completion B)
    : completion B :=
  match c with
  | Normal a => f a
  | Throw => Throw
  end.

(** [try { body } catch { handler }] *)
Definition try_catch {A} (body handler : completion A) : completion A :=
  match body with
  | Normal a => Normal a
  | Throw => handler
  end.

#[global] Instance completion_ret : MRet completion := fun _ a => Normal a.
#[global] Instance completion_bind : MBind completion :=
  fun _ _ f c => cbind c f.

(** ** Built-in decoders and encoders *)

Module Uri.

Import Js.

Definition hex_val (c : N) : option N :=
  if (48 <=? c) && (c <=? 57) then Some (c - 48)
  else if (65 <=? c) && (c <=? 70) then Some (c - 55)
  else if (97 <=? c) && (c <=? 102) then Some (c - 87)
  else None.

(** The two hexadecimal digits after a [%]. *)
Definition escape_byte (s : str) : option (N * str) :=
  match s with
  | 37 :: h :: l :: s' =>
      match hex_val h, hex_val l with
      | Some a, Some b => Some (16 * a + b, s')
      | _, _ => None
      end
  | _ => None
  end.

(** [n - 1] further escapes, each a continuation octet's source. *)
Fixpoint escape_bytes (n : nat) (s : str) : option (list N * str) :=
  match n with
  | O => Some ([], s)
  | S n' =>
      match escape_byte s with
      | Some (b, s') =>
          match escape_bytes n' s' with
          | Some (bs, s'') => Some (b :: bs, s'')
          | None => None
          end
      | None => None
      end
  end.

Definition is_continuation (b : N) : bool := (0x80 <=? b) && (b <=? 0xBF).

(** The code point of a well-formed UTF-8 sequence (Unicode table 3-7):
    continuation octets in range, no overlong form, no surrogate, at
    most U+10FFFF. *)
Definition utf8_code_point (lead : N) (conts : list N) : option N :=
  if forallb is_continuation conts then
    match conts with
    | [c1] =>
        let v := (lead - 0xC0) * 64 + (c1 - 0x80) in
        if 0x80 <=? v then Some v else None
    | [c1; c2] =>
        let v := (lead - 0xE0) * 4096 + (c1 - 0x80) * 64 + (c2 - 0x80) in
        if (0x800 <=? v) && negb ((0xD800 <=? v) && (v <=? 0xDFFF))
        then Some v else None
    | [c1; c2; c3] =>
        let v := (lead - 0xF0) * 262144 + (c1 - 0x80) * 4096
                 + (c2 - 0x80) * 64 + (c3 - 0x80) in
        if (0x10000 <=? v) && (v <=? 0x10FFFF) then Some v else None
    | _ => None
    end
  else None.

(** UTF16EncodeCodePoint *)
Definition utf16_encode (v : N) : str :=
  if v <? 0x10000 then [v]
  else [0xD800 + (v - 0x10000) / 1024; 0xDC00 + (v - 0x10000) mod 1024].

(** The number of leading 1 bits of an octet, as the number of octets
    of the sequence it starts; [None] where Decode throws. *)
Definition sequence_length (b : N) : option nat :=
  if b <? 0x80 then Some 0%nat
  else if b <? 0xC0 then None
  else if b <? 0xE0 then Some 2%nat
  else if b <? 0xF0 then Some 3%nat
  else if b <? 0xF8 then Some 4%nat
  else None.

(** One escape sequence at the head of [s] (which starts with [%]): the
    decoded code units and the number of code units consumed. *)
Definition decode_escape (s : str) : option (str * nat) :=
  match escape_byte s with
  | None => None
  | Some (b, s1) =>
      match sequence_length b with
      | None => None
      | Some O => Some ([b], 3%nat)
      | Some (S m) =>
          match escape_bytes m s1 with
          | None => None
          | Some (conts, _) =>
              match utf8_code_point b conts with
              | Some v => Some (utf16_encode v, (3 * S m)%nat)
              | None => None
              end
          end
      end
  end.

(** Decode (ECMAScript 19.2.6.6) with an empty reserved set. [skip] is
    the number of code units of an escape sequence, already decoded,
    that the index still has to pass. *)
Fixpoint decode_from (skip : nat) (s : str) : completion str :=
  match s with
  | [] => Normal []
  | c :: s' =>
      match skip with
      | S k => decode_from k s'
      | O =>
          if c =? 37 then
            match decode_escape s with
            | Some (chars, n) =>
                cbind (decode_from (n - 1) s') (fun r => Normal (chars ++ r))
            | None => Throw
            end
          else cbind (decode_from 0 s') (fun r => Normal (c :: r))
      end
  end.

(** [decodeURIComponent] *)
Definition decodeURIComponent (s : str) : completion str := decode_from 0 s.

(** *** Encoding, as the tests build their data URLs *)

Definition hex_digit (n : N) : N := if n <? 10 then 48 + n else 55 + n.

Definition percent (b : N) : str := [37; hex_digit (b / 16); hex_digit (b mod 16)].

Definition utf8_encode (v : N) : list N :=
  if v <? 0x80 then [v]
  else if v <? 0x800 then [0xC0 + v / 64; 0x80 + v mod 64]
  else if v <? 0x10000 then
    [0xE0 + v / 4096; 0x80 + (v / 64) mod 64; 0x80 + v mod 64]
  else [0xF0 + v / 262144; 0x80 + (v / 4096) mod 64;
        0x80 + (v / 64) mod 64; 0x80 + v mod 64].

(** The code points of a string (CodePointAt); [None] on a lone
    surrogate. *)
Fixpoint code_points (s : str) : option (list N) :=
  match s with
  | [] => Some []
  | c :: s' =>
      if (0xD800 <=? c) && (c <=? 0xDBFF) then
        match s' with
        | d :: s'' =>
            if (0xDC00 <=? d) && (d <=? 0xDFFF) then
              match code_points s'' with
              | Some r => Some (0x10000 + (c - 0xD800) * 1024 + (d - 0xDC00) :: r)
              | None => None
              end
            else None
        | [] => None
        end
      else if (0xDC00 <=? c) && (c <=? 0xDFFF) then None
      else
        match code_points s' with
        | Some r => Some (c :: r)
        | None => None
        end
  end.

(** The unreserved set of [encodeURIComponent]: ASCII letters, digits
    and [-_.!~*'()]. *)
Definition is_unreserved (c : N) : bool :=
  ((48 <=? c) && (c <=? 57)) || ((65 <=? c) && (c <=? 90))
  || ((97 <=? c) && (c <=? 122))
  || existsb (N.eqb c) (lit "-_.!~*'()").

Definition encode_code_point (v : N) : str :=
  if is_unreserved v then [v] else concat (map percent (utf8_encode v)).

(** [encodeURIComponent] *)
Definition encodeURIComponent (s : str) : completion str :=
  match code_points s with
  | Some cps => Normal (concat (map encode_code_point cps))
  | None => Throw
  end.

(** The UTF-8 octets of a string ([Buffer.from(s, 'utf8')] on a string
    without lone surrogates). *)
Definition utf8_bytes (s : str) : option (list N) :=
  match code_points s with
  | Some cps => Some (concat (map utf8_encode cps))
  | None => None
  end.

End Uri.

Module Base64.

Import Js.

Definition sextet (c : N) : option N :=
  if (65 <=? c) && (c <=? 90) then Some (c - 65)
  else if (97 <=? c) && (c <=? 122) then Some (c - 71)
  else if (48 <=? c) && (c <=? 57) then Some (c + 4)
  else if c =? 43 then Some 62
  else if c =? 47 then Some 63
  else None.

Fixpoint sextets (s : str) : option (list N) :=
  match s with
  | [] => Some []
  | c :: s' =>
      match sextet c, sextets s' with
      | Some v, Some vs => Some (v :: vs)
      | _, _ => None
      end
  end.

(** Groups of four sextets to three octets; a final group of two or
    three sextets gives one or two octets, its spare bits dropped. *)
Fixpoint octets (vs : list N) : list N :=
  match vs with
  | a :: b :: c :: d :: rest =>
      (a * 4 + b / 16) :: ((b mod 16) * 16 + c / 4) :: ((c mod 4) * 64 + d)
      :: octets rest
  | [a; b; c] => [a * 4 + b / 16; (b mod 16) * 16 + c / 4]
  | [a; b] => [a * 4 + b / 16]
  | _ => []
  end.

Definition is_ascii_whitespace (c : N) : bool :=
  (c =? 9) || (c =? 10) || (c =? 12) || (c =? 13) || (c =? 32).

(** At most two trailing [=] removed. *)
Definition strip_padding (s : str) : str :=
  match rev s with
  | c1 :: r1 =>
      if c1 =? 61 then
        match r1 with
        | c2 :: r2 => if c2 =? 61 then rev r2 else rev r1
        | [] => rev r1
        end
      else s
  | [] => s
  end.

(** [atob]: the forgiving-base64 decode of the WHATWG Infra standard;
    the result has one code unit per octet. *)
Definition atob (data : str) : completion str :=
  let d := List.filter (fun c => negb (is_ascii_whitespace c)) data in
  let d := if (length d mod 4 =? 0)%nat then strip_padding d else d in
  if (length d mod 4 =? 1)%nat then Throw
  else
    match sextets d with
    | Some vs => Normal (octets vs)
    | None => Throw
    end.

(** *** Encoding (RFC 4648), as the tests build their data URLs *)

Definition alphabet (v : N) : N :=
  if v <? 26 then 65 + v
  else if v <? 52 then 71 + v
  else if v <? 62 then v - 4
  else if v =? 62 then 43 else 47.

Fixpoint encode (bs : list N) : str :=
  match bs with
  | a :: b :: c :: rest =>
      alphabet (a / 4) :: alphabet ((a mod 4) * 16 + b / 16)
      :: alphabet ((b mod 16) * 4 + c / 64) :: alphabet (c mod 64)
      :: encode rest
  | [a; b] =>
      [alphabet (a / 4); alphabet ((a mod 4) * 16 + b / 16);
       alphabet ((b mod 16) * 4); 61]
  | [a] => [alphabet (a / 4); alphabet ((a mod 4) * 16); 61; 61]
  | [] => []
  end.

End Base64.

(** ** The document tree *)

Module Dom.

Import Js.

Inductive node :=
| Element (name : str) (attrs : list (str * str)) (children : list node)
| Text (data : str).

(** A document: the children of the document node. *)
Definition document := list node.

(** The simple selectors of the source: a type selector with attribute
    tests, [[a="v"]] and [[a^="v"]]. *)
Inductive attr_test :=
| AttrEquals (ascii_case_insensitive : bool) (name value : str)
| AttrPrefix (name value : str).

Record selector := { sel_type : str; sel_attrs : list attr_test }.

Fixpoint getAttribute (attrs : list (str * str)) (name : str) : option str :=
  match attrs with
  | [] => None
  | (k, v) :: attrs' => if str_eqb k name then Some v else getAttribute attrs' name
  end.

Definition attr_holds (attrs : list (str * str)) (t : attr_test) : bool :=
  match t with
  | AttrEquals ci name value =>
      match getAttribute attrs name with
      | Some v =>
          if ci then str_eqb (map ascii_lower v) (map ascii_lower value)
          else str_eqb v value
      | None => false
      end
  | AttrPrefix name value =>
      match getAttribute attrs name with
      | Some v => truthy value && starts_with value v
      | None => false
      end
  end.

Definition matches (sel : selector) (n : node) : bool :=
  match n with
  | Element name attrs _ =>
      str_eqb name (sel_type sel) && forallb (attr_holds attrs) (sel_attrs sel)
  | Text _ => false
  end.

(** The first node of a subtree, in tree order, that satisfies [p]. *)
Fixpoint first_in (p : node -> bool) (n : node) : option node :=
  if p n then Some n
  else
    match n with
    | Element _ _ kids =>
        (fix among (l : list node) : option node :=
           match l with
           | [] => None
           | k :: l' =>
               match first_in p k with
               | Some e => Some e
               | None => among l'
               end
           end) kids
    | Text _ => None
    end.

Fixpoint first_among (p : node -> bool) (l : list node) : option node :=
  match l with
  | [] => None
  | k :: l' =>
      match first_in p k with
      | Some e => Some e
      | None => first_among p l'
      end
  end.

(** [document.querySelector] *)
Definition querySelector (doc : document) (sel : selector) : option node :=
  first_among (matches sel) doc.

(** The nodes of a subtree in tree (document) order. *)
Fixpoint tree_order (n : node) : list node :=
  n ::
  match n with
  | Element _ _ kids =>
      (fix among (l : list node) : list node :=
         match l with
         | [] => []
         | k :: l' => tree_order k ++ among l'
         end) kids
  | Text _ => []
  end.

Definition document_order (doc : document) : list node :=
  concat (map tree_order doc).

Definition element_attribute (n : node) (name : str) : option str :=
  match n with
  | Element _ attrs _ => getAttribute attrs name
  | Text _ => None
  end.

End Dom.

(** ** The host environment *)

(** What the source takes from its environment: the HTML parser and the
    XML serializer of the DOM, the base64 decoders ([atob] where it is
    defined, Node's [Buffer] otherwise) and the clock. *)
Record host := {
  parseFromString : Js.str -> completion Dom.document;
  serializeToString : Dom.node -> completion Js.str;
  has_atob : bool;
  atob : Js.str -> completion Js.str;
  buffer_base64_utf8 : Js.str -> completion Js.str;
  now : nat -> N;
}.

(** ** Values, for the expressions that test them *)

Module Value.

Import Js.

Inductive value :=
| VUndefined
| VBoolean (b : bool)
| VNumber (n : N)
| VString (s : str)
| VFunction.

Definition typeof (v : value) : str :=
  match v with
  | VUndefined => lit "undefined"
  | VBoolean _ => lit "boolean"
  | VNumber _ => lit "number"
  | VString _ => lit "string"
  | VFunction => lit "function"
  end.

Definition to_boolean (v : value) : bool :=
  match v with
  | VUndefined => false
  | VBoolean b => b
  | VNumber n => negb (n =? 0)
  | VString s => truthy s
  | VFunction => true
  end.

(** [a === b]; two function values are compared by identity, which the
    source never does. *)
Definition strict_equal (a b : value) : bool :=
  match a, b with
  | VUndefined, VUndefined => true
  | VBoolean x, VBoolean y => Bool.eqb x y
  | VNumber x, VNumber y => x =? y
  | VString x, VString y => str_eqb x y
  | _, _ => false
  end.

Definition log_and (a b : value) : value := if to_boolean a then b else a.
Definition log_or (a b : value) : value := if to_boolean a then a else b.

End Value.

(** ** pastekit.js *)

Import Js.

(** A [File]: its name, its MIME type and its content. *)
Record File := { file_name : str; file_type : str; file_text : str }.

(** A clipboard item. [getAsFile] and [getAsString] are absent ([None])
    or present.  A present [getAsFile] returns a file or [null]; a
    present [getAsString] calls its callback with a string at some later
    time, or never. *)
Record Item := {
  kind : str;
  type : str;
  getAsFile : option (option File);
  getAsString : option (option str);
}.

Record DataTransfer := {
  items : option (list Item);
  getData : option (str -> completion str);
}.

(** A paste event: [clipboardData], and [originalEvent] (absent, or an
    object with its own [clipboardData]). *)
Record Event := {
  clipboardData : option DataTransfer;
  originalEvent : option (option DataTransfer);
}.

Record Result := {
  files : list File;
  text : option str;
  html : option str;
}.

(** The settlement of the promise that an [async] function returns. *)
Inductive outcome (A : Type) :=
| Fulfilled (a : A)
| Rejected
| Pending.
Arguments Fulfilled {A} a.
Arguments Rejected {A}.
Arguments Pending {A}.

#[global] Instance outcome_ret : MRet outcome := fun _ a => Fulfilled a.
#[global] Instance outcome_bind : MBind outcome := fun _ _ f o =>
  match o with
  | Fulfilled a => f a
  | Rejected => Rejected
  | Pending => Pending
  end.

(** A synchronous step inside an [async] function: a throw rejects. *)
Definition sync {A} (c : completion A) : outcome A :=
  match c with
  | Normal a => Fulfilled a
  | Throw => Rejected
  end.

(** *** The regular expressions of the source *)

Definition svg_mime : str := lit "data:image/svg+xml".

(** The pattern of [matchInlineSvg], flag [i]: the literal [<svg], a
    lazy star of [[\s\S]], the literal [</svg>]. *)
Definition re_inline_svg : Re.regex :=
  Re.RSeq (Re.lits (lit "<svg"))
    (Re.RSeq (Re.RStar false (Re.ASet false [Re.CSpace; Re.CNonSpace]))
       (Re.lits (lit "</svg>"))).

(** [/^data:image\/svg\+xml[,;]/i] *)
Definition re_svg_data_url : Re.regex :=
  Re.RSeq Re.RBol
    (Re.RSeq (Re.lits svg_mime)
       (Re.RAtom (Re.ASet false [Re.CChar 44; Re.CChar 59]))).

(** The pattern of [decodeSvgDataUrl], flag [i]: [^], the literal
    [data:image/svg+xml], an optional group 1 made of [;] and a greedy
    star of [[^,]], the literal [,], group 2 made of a greedy star of
    [.], and [$]. *)
Definition re_data_url : Re.regex :=
  Re.RSeq Re.RBol
    (Re.RSeq (Re.lits svg_mime)
       (Re.RSeq
          (Re.ROpt
             (Re.RGroup 1
                (Re.RSeq (Re.RAtom (Re.ALit 59))
                   (Re.RStar true (Re.ASet true [Re.CChar 44])))))
          (Re.RSeq (Re.RAtom (Re.ALit 44))
             (Re.RSeq (Re.RGroup 2 (Re.RStar true Re.ADot)) Re.REol)))).

(** [/;base64/i] *)
Definition re_base64 : Re.regex := Re.lits (lit ";base64").

(** *** Internals *)

Definition decimal (n : N) : str :=
  lit (NilZero.string_of_uint (N.to_uint n)).

(** [fileFromSvgText(text, name = `pasted-${Date.now()}.svg`)]; [time] is
    what [Date.now()] returns where the default name is evaluated. *)
Definition fileFromSvgText (time : N) (text : str) (name : option str) : File :=
  {| file_name :=
       match name with
       | Some n => n
       | None => lit "pasted-" ++ decimal time ++ lit ".svg"
       end;
     file_type := lit "image/svg+xml";
     file_text := text |}.

Definition matchInlineSvg (s : str) : option str :=
  match Re.exec true re_inline_svg s with
  | Some m => Some (Re.matched m)
  | None => None
  end.

Definition isSvgDataUrl (s : str) : bool := Re.test true re_svg_data_url s.

(** [match[i] || ''] *)
Definition group_or_empty (i : nat) (m : Re.match_result) : str :=
  match Re.capture i (Re.groups m) with
  | Some s => s
  | None => []
  end.

Definition decodeSvgDataUrl (h : host) (dataUrl : str)
    : completion (option str) :=
  try_catch
    (match Re.exec true re_data_url dataUrl with
     | None => Normal None
     | Some m =>
         let meta := group_or_empty 1 m in
         let payload := group_or_empty 2 m in
         if Re.test true re_base64 meta then
           s ← (if has_atob h then atob h payload
                else buffer_base64_utf8 h payload);
           Normal (Some s)
         else
           s ← Uri.decodeURIComponent payload;
           Normal (Some s)
     end)
    (Normal None).

(** ['svg'] *)
Definition sel_svg : Dom.selector :=
  {| Dom.sel_type := lit "svg"; Dom.sel_attrs := [] |}.

(** ['img[src^="data:image/svg+xml"]']; the value of [src] is compared as
    it is written, as the Selectors standard has it for an attribute
    that HTML does not list as case-insensitive. *)
Definition sel_img : Dom.selector :=
  {| Dom.sel_type := lit "img";
     Dom.sel_attrs := [Dom.AttrPrefix (lit "src") svg_mime] |}.

(** ['object[type="image/svg+xml"][data^="data:image/svg+xml"]']; HTML
    compares the value of [type] without regard to ASCII case. *)
Definition sel_object : Dom.selector :=
  {| Dom.sel_type := lit "object";
     Dom.sel_attrs := [Dom.AttrEquals true (lit "type") (lit "image/svg+xml");
                       Dom.AttrPrefix (lit "data") svg_mime] |}.

(** [decodeSvgDataUrl(el.getAttribute(a))], kept when truthy.  A [null]
    attribute makes [dataUrl.match] throw inside the callee's [try]. *)
Definition decoded_attribute (h : host) (el : Dom.node) (a : str)
    : completion (option str) :=
  decoded ← match Dom.element_attribute el a with
            | Some u => decodeSvgDataUrl h u
            | None => Normal None
            end;
  Normal (if truthy_opt decoded then decoded else None).

Definition extractFirstSvgFromHtml (h : host) (html : str)
    : completion (option str) :=
  try_catch
    (doc ← parseFromString h html;
     match Dom.querySelector doc sel_svg with
     | Some svgEl =>
         s ← serializeToString h svgEl; Normal (Some s)
     | None =>
         from_img ← match Dom.querySelector doc sel_img with
                    | Some img => decoded_attribute h img (lit "src")
                    | None => Normal None
                    end;
         match from_img with
         | Some decoded => Normal (Some decoded)
         | None =>
             match Dom.querySelector doc sel_object with
             | Some obj => decoded_attribute h obj (lit "data")
             | None => Normal None
             end
         end
     end)
    (Normal None).

Definition getDataSafe (dt : DataTransfer) (type : str) : completion str :=
  try_catch
    (match getData dt with
     | Some f => v ← f type; Normal (if truthy v then v else [])
     | None => Normal []
     end)
    (Normal []).

(** [files.push(fileFromSvgText(svg))]. The state is the file list and
    the number of evaluations of [Date.now()] so far. *)
Definition push_svg (h : host) (st : list File * nat) (svg : str)
    : list File * nat :=
  (st.1 ++ [fileFromSvgText (now h st.2) svg None], S st.2).

Definition value_of (v : option str) : str :=
  match v with Some s => s | None => [] end.

(** The statements on a plain-text payload (they occur twice, in
    [extractFromItems] and in [getPastedData]): an inline [<svg>], or
    else a data URL. *)
Definition push_from_plain (h : host) (st : list File * nat) (plain : str)
    : completion (list File * nat) :=
  let svgInline := matchInlineSvg plain in
  if truthy_opt svgInline then Normal (push_svg h st (value_of svgInline))
  else if isSvgDataUrl (trim plain) then
    decoded ← decodeSvgDataUrl h (trim plain);
    Normal (if truthy_opt decoded then push_svg h st (value_of decoded) else st)
  else Normal st.

(** An element of [texts]: [{ type, str }]. *)
Record TextEntry := { entry_type : str; entry_str : str }.

(** The promise pushed for a text item, as the value it is fulfilled
    with, if it ever is: [getAsString?.(resolve)] calls [resolve] only
    where the method exists and calls its callback. *)
Definition string_promise (item : Item) : option TextEntry :=
  match getAsString item with
  | Some (Some s) => Some {| entry_type := type item; entry_str := s |}
  | _ => None
  end.

(** [Promise.all]: the result array has one slot per promise, filled by
    index when the promise is fulfilled.  [sched] lists, in the order in
    which they happen, the completions of the retrievals (by index in
    the array of promises). *)
Section PromiseAll.

Context {A : Type}.

Fixpoint settle (promises : list (option A)) (sched : list nat)
    (slots : list (option A)) : list (option A) :=
  match sched with
  | [] => slots
  | i :: sched' =>
      settle promises sched'
        (match promises !! i with
         | Some (Some v) => <[i := Some v]> slots
         | _ => slots
         end)
  end.

Fixpoint all_values (slots : list (option A)) : option (list A) :=
  match slots with
  | [] => Some []
  | Some v :: slots' =>
      match all_values slots' with
      | Some vs => Some (v :: vs)
      | None => None
      end
  | None :: _ => None
  end.

Definition promise_all (promises : list (option A)) (sched : list nat)
    : outcome (list A) :=
  match all_values (settle promises sched (replicate (length promises) None)) with
  | Some vs => Fulfilled vs
  | None => Pending
  end.

End PromiseAll.

(** One iteration of the loop over [items]. *)
Definition scan_item (acc : list File * list (option TextEntry)) (item : Item)
    : list File * list (option TextEntry) :=
  if str_eqb (kind item) (lit "file") && starts_with (lit "image/") (type item)
  then
    match getAsFile item with
    | Some (Some f) => (acc.1 ++ [f], acc.2)
    | _ => acc
    end
  else if str_eqb (type item) (lit "text/html")
          || str_eqb (type item) (lit "text/plain")
  then (acc.1, acc.2 ++ [string_promise item])
  else acc.

Definition find_entry (ty : str) (texts : list TextEntry) : option TextEntry :=
  find (fun t => str_eqb (entry_type t) ty && truthy (entry_str t)) texts.

(** The statements of [extractFromItems] after the [await]: the two
    entries are selected, then the SVG is extracted. *)
Definition select_and_extract (h : host) (files0 : list File)
    (texts : list TextEntry) : completion Result :=
  let htmlEntry := find_entry (lit "text/html") texts in
  let plainEntry := find_entry (lit "text/plain") texts in
  let html := or_null (option_map entry_str htmlEntry) in
  let text := or_null (option_map entry_str plainEntry) in
  st1 ← match html with
        | Some html' =>
            svg ← extractFirstSvgFromHtml h html';
            Normal (if truthy_opt svg
                    then push_svg h (files0, 0%nat) (value_of svg)
                    else (files0, 0%nat))
        | None => Normal (files0, 0%nat)
        end;
  st2 ← match text with
        | Some text' => push_from_plain h st1 text'
        | None => Normal st1
        end;
  Normal {| files := st2.1; text := text; html := html |}.

Definition extractFromItems (h : host) (items : list Item) (sched : list nat)
    : outcome Result :=
  let scanned := fold_left scan_item items ([], []) in
  texts ← promise_all scanned.2 sched;
  sync (select_and_extract h scanned.1 texts).

(** [items[0]?.m] for a method [m]: a function, or [undefined]. *)
Definition method_of {A} (first : option Item) (m : Item -> option A)
    : Value.value :=
  match first with
  | Some item =>
      match m item with
      | Some _ => Value.VFunction
      | None => Value.VUndefined
      end
  | None => Value.VUndefined
  end.

(** [items.length && typeof (items[0]?.getAsString === 'function' ||
    typeof items[0]?.getAsFile === 'function')] *)
Definition canUseItems (items : list Item) : Value.value :=
  Value.log_and (Value.VNumber (N.of_nat (length items)))
    (Value.VString
       (Value.typeof
          (Value.log_or
             (Value.VBoolean
                (Value.strict_equal (method_of (items !! 0%nat) getAsString)
                   (Value.VString (lit "function"))))
             (Value.VBoolean
                (Value.strict_equal
                   (Value.VString
                      (Value.typeof (method_of (items !! 0%nat) getAsFile)))
                   (Value.VString (lit "function"))))))).

(** The statements of [getPastedData] after the items path:
    [getData], then the extraction. *)
Definition getDataPath (h : host) (dt : DataTransfer) : completion Result :=
  html ← getDataSafe dt (lit "text/html");
  plain ← (p ← getDataSafe dt (lit "text/plain");
           if truthy p then Normal p else getDataSafe dt (lit "text"));
  svgFromHtml ← (if truthy html then extractFirstSvgFromHtml h html
                  else Normal None);
  let st1 := if truthy_opt svgFromHtml
             then push_svg h ([], 0%nat) (value_of svgFromHtml)
             else ([], 0%nat) in
  st2 ← (if truthy plain && negb (truthy_opt svgFromHtml)
          then push_from_plain h st1 plain
          else Normal st1);
  Normal {| files := st2.1;
            text := or_null (Some plain);
            html := or_null (Some html) |}.

(** [files.length || text || html] *)
Definition usable (r : Result) : bool :=
  negb (Nat.eqb (length (files r)) 0) || truthy_opt (text r)
  || truthy_opt (html r).

(** [evt.clipboardData || evt.originalEvent?.clipboardData || null] *)
Definition source_of (evt : Event) : option DataTransfer :=
  match clipboardData evt with
  | Some dt => Some dt
  | None =>
      match originalEvent evt with
      | Some (Some dt) => Some dt
      | _ => None
      end
  end.

Definition getPastedData (h : host) (evt : Event) (sched : list nat)
    : outcome Result :=
  match source_of evt with
  | None => Fulfilled {| files := []; text := None; html := None |}
  | Some dt =>
      let items := match items dt with Some l => l | None => [] end in
      from_items ←
        (if Value.to_boolean (canUseItems items) then
           r ← extractFromItems h items sched;
           Fulfilled (if usable r then Some r else None)
         else Fulfilled None);
      match from_items with
      | Some r => Fulfilled r
      | None => sync (getDataPath h dt)
      end
  end.

(** ** A host for closed examples *)

(** The closed examples below need a host.  Its parser is a table of
    pages, each an HTML text with the document that an HTML parser
    builds from it (a text that is not in the table is taken to hold no
    markup); its serializer writes a tree whose elements carry their
    namespace declarations as attributes; its [atob] is the standard
    one; its clock starts at [start] and advances by one per reading. *)
Module Fixture.

Import Dom.

Definition escape_text (s : str) : str :=
  flat_map (fun c =>
    if c =? 38 then lit "&amp;"
    else if c =? 60 then lit "&lt;"
    else if c =? 62 then lit "&gt;"
    else [c]) s.

Definition escape_attr (s : str) : str :=
  flat_map (fun c =>
    if c =? 38 then lit "&amp;"
    else if c =? 34 then lit "&quot;"
    else if c =? 60 then lit "&lt;"
    else if c =? 62 then lit "&gt;"
    else [c]) s.

Definition attr_markup (a : str * str) : str :=
  [32] ++ a.1 ++ lit "=" ++ [34] ++ escape_attr a.2 ++ [34].

Fixpoint serialize (n : node) : str :=
  match n with
  | Text data => escape_text data
  | Element name attrs kids =>
      let inner :=
        (fix among (l : list node) : str :=
           match l with
           | [] => []
           | k :: l' => serialize k ++ among l'
           end) kids in
      match kids with
      | [] => lit "<" ++ name ++ flat_map attr_markup attrs ++ lit "/>"
      | _ :: _ =>
          lit "<" ++ name ++ flat_map attr_markup attrs ++ lit ">"
          ++ inner ++ lit "</" ++ name ++ lit ">"
      end
  end.

(** The document of a page whose body holds [body]. *)
Definition page (body : list node) : document :=
  [Element (lit "html") []
     [Element (lit "head") [] []; Element (lit "body") [] body]].

Fixpoint lookup (s : str) (pages : list (str * document)) : option document :=
  match pages with
  | [] => None
  | (k, d) :: pages' => if str_eqb k s then Some d else lookup s pages'
  end.

Definition browser (pages : list (str * document)) (start : N) : host :=
  {| parseFromString := fun s =>
       Normal (match lookup s pages with
               | Some d => d
               | None => page [Text s]
               end);
     serializeToString := fun n => Normal (serialize n);
     has_atob := true;
     atob := Base64.atob;
     buffer_base64_utf8 := fun _ => Throw;
     now := fun n => start + N.of_nat n |}.

Definition svg_ns : str * str := (lit "xmlns", lit "http://www.w3.org/2000/svg").

(** [<svg xmlns="http://www.w3.org/2000/svg"><rect/></svg>] *)
Definition rect_svg : node :=
  Element (lit "svg") [svg_ns] [Element (lit "rect") [] []].

Definition rect_svg_text : str := Eval vm_compute in serialize rect_svg.

(** [<svg xmlns="http://www.w3.org/2000/svg"><circle/></svg>] *)
Definition circle_svg : node :=
  Element (lit "svg") [svg_ns] [Element (lit "circle") [] []].

Definition circle_svg_text : str := Eval vm_compute in serialize circle_svg.

(** [<div>], the two pictures, [</div>] *)
Definition two_svgs_text : str :=
  lit "<div>" ++ rect_svg_text ++ circle_svg_text ++ lit "</div>".

Definition pages : list (str * document) :=
  [ (rect_svg_text, page [rect_svg]);
    (circle_svg_text, page [circle_svg]);
    (two_svgs_text, page [Element (lit "div") [] [rect_svg; circle_svg]]) ].

Definition chromium : host := browser pages 1700000000000.

Definition text_item (mime s : str) : Item :=
  {| kind := lit "string"; type := mime;
     getAsFile := Some None; getAsString := Some (Some s) |}.

Definition file_item (mime : str) (f : File) : Item :=
  {| kind := lit "file"; type := mime;
     getAsFile := Some (Some f); getAsString := Some None |}.

(** [buildPasteEvent] of the tests. *)
Definition data_transfer (its : option (list Item)) (html plain : str)
    : DataTransfer :=
  {| items := its;
     getData := Some (fun ty =>
       if str_eqb ty (lit "text/html") then Normal html
       else if str_eqb ty (lit "text/plain") || str_eqb ty (lit "text")
       then Normal plain
       else Normal []) |}.

Definition paste_event (its : option (list Item)) (html plain : str) : Event :=
  {| clipboardData := Some (data_transfer its html plain);
     originalEvent := None |}.

End Fixture.

(** ** Statements of the specification *)

(** What is left of [s] after a run of literals [l], if [s] starts with
    it (under the matcher's comparison). *)
Fixpoint lits_rest (ic : bool) (l s : str) : option str :=
  match l, s with
  | [], _ => Some s
  | x :: l', c :: s' =>
      if Re.atom_matches ic (Re.ALit x) c then lits_rest ic l' s' else None
  | _ :: _, [] => None
  end.

(** [s] begins with [data:image/svg+xml], in any ASCII case, followed at
    once by the code unit [c]. *)
Definition svg_mime_then (c : N) (s : str) : Prop :=
  exists mime rest, s = mime ++ c :: rest /\ map ascii_lower mime = svg_mime.

(** The specification of [isSvgDataUrl]: the MIME type, then [,] or [;]. *)
Definition svg_data_url_shape (s : str) : Prop :=
  svg_mime_then 44 s \/ svg_mime_then 59 s.

(** The least number of code units that a match of [r] consumes. *)
Fixpoint min_len (r : Re.regex) : nat :=
  match r with
  | Re.RAtom _ => 1
  | Re.RSeq r1 r2 => min_len r1 + min_len r2
  | Re.RGroup _ r1 => min_len r1
  | _ => 0
  end.

(** A data URL with a parameter and no comma. *)
Definition no_comma_url : str := lit "data:image/svg+xml;base64".

(** A data URL whose payload holds a line feed. *)
Definition line_feed_url : str :=
  lit "data:image/svg+xml,<svg>" ++ [10] ++ lit "</svg>".

(** A data URL with an empty payload. *)
Definition empty_payload_url : str := lit "data:image/svg+xml,".

(** The statement that a string returned by one of the three extractors
    is never empty. *)
Definition present_svg_never_empty : Prop :=
  forall (h : host) (s r : str),
    decodeSvgDataUrl h s = Normal (Some r)
    \/ extractFirstSvgFromHtml h s = Normal (Some r)
    \/ matchInlineSvg s = Some r ->
    r <> [].

(** The continuation [k] gave [x] after the matcher had moved at least
    [n] code units forward from [pos]. *)
Definition advances {R : Type} (n : nat) (pos : nat) (s : str)
    (k : @Re.cont R) (x : R) : Prop :=
  exists pos' s' cs', k pos' s' cs' = Some x
    /\ (pos' + length s' = pos + length s)%nat /\ (pos + n <= pos')%nat.


(** *** Items, as the loop of [extractFromItems] sorts them *)

(** An item that the loop treats as a real file. *)
Definition is_image_file (it : Item) : bool :=
  str_eqb (kind it) (lit "file") && starts_with (lit "image/") (type it).

(** An item whose string the loop asks for. *)
Definition is_text_item (it : Item) : bool :=
  negb (is_image_file it)
  && (str_eqb (type it) (lit "text/html")
      || str_eqb (type it) (lit "text/plain")).

(** The files that the loop passes through, in entry order. *)
Definition passed_files (its : list Item) : list File :=
  flat_map (fun it =>
    if is_image_file it then
      match getAsFile it with
      | Some (Some f) => [f]
      | _ => []
      end
    else []) its.

(** The promises that the loop pushes, in entry order. *)
Definition text_promises (its : list Item) : list (option TextEntry) :=
  map string_promise (List.filter is_text_item its).

(** The string that the retrieval of an item gives (empty if none). *)
Definition resolved (it : Item) : str :=
  match getAsString it with
  | Some (Some s) => s
  | _ => []
  end.

Definition text_entries (its : list Item) : list TextEntry :=
  map (fun it => {| entry_type := type it; entry_str := resolved it |})
    (List.filter is_text_item its).

(** Every string retrieval of the list completes. *)
Definition retrievals_complete (its : list Item) : Prop :=
  Forall (fun it => is_text_item it = true ->
                    exists s, getAsString it = Some (Some s)) its.

(** The resolved string of the first entry, in entry order, that has
    type [ty] and a non-empty resolved string. *)
Definition first_string (ty : str) (its : list Item) : option str :=
  option_map resolved
    (find (fun it => str_eqb (type it) ty && truthy (resolved it)) its).

(** A schedule in which each of [n] retrievals completes. *)
Definition covers (n : nat) (sched : list nat) : Prop :=
  forall i, (i < n)%nat -> i ∈ sched.

(** *** Inputs of the closed statements *)

(** A [text/html] entry and a [text/plain] entry, each holding a
    picture of its own. *)
Definition two_sources : list Item :=
  [Fixture.text_item (lit "text/html") Fixture.rect_svg_text;
   Fixture.text_item (lit "text/plain") Fixture.circle_svg_text].

(** An entry of type [text/plain] that offers neither [getAsFile] nor
    [getAsString]. *)
Definition bare_item : Item :=
  {| kind := lit "string"; type := lit "text/plain";
     getAsFile := None; getAsString := None |}.

Definition png_file : File :=
  {| file_name := lit "x.png"; file_type := lit "image/png";
     file_text := lit "PNG" |}.

(** A real image file and a [text/html] entry with an inline picture. *)
Definition file_and_html : list Item :=
  [Fixture.file_item (lit "image/png") png_file;
   Fixture.text_item (lit "text/html") Fixture.rect_svg_text].

(** [<svg><text>], e with an acute accent (U+00E9), [</text></svg>] *)
Definition accented_svg : str :=
  lit "<svg><text>" ++ [233] ++ lit "</text></svg>".

(** The same with the two octets of the UTF-8 form of U+00E9 read as
    two code units. *)
Definition accented_svg_octets : str :=
  lit "<svg><text>" ++ [195; 169] ++ lit "</text></svg>".

(** A data URL built as the tests build theirs: the base64 form of the
    UTF-8 octets of the text, after the MIME type and [params]. *)
Definition base64_data_url (params svg : str) : option str :=
  match Uri.utf8_bytes svg with
  | Some bs => Some (svg_mime ++ params ++ lit ";base64," ++ Base64.encode bs)
  | None => None
  end.

(** The same with [encodeURIComponent]. *)
Definition percent_data_url (params svg : str) : completion str :=
  enc ← Uri.encodeURIComponent svg;
  Normal (svg_mime ++ params ++ lit "," ++ enc).

(** The statement that a real image file with an HTML entry holding a
    picture gives both files and leaves [text] and [html] absent. *)
Definition file_and_html_leave_fields_absent : Prop :=
  forall (h : host) (evt : Event) (dt : DataTransfer) (its : list Item)
         (sched : list nat) (item : Item) (f : File) (s svg : str)
         (r : Result),
    source_of evt = Some dt -> items dt = Some its ->
    In item its -> is_image_file item = true ->
    getAsFile item = Some (Some f) ->
    first_string (lit "text/html") its = Some s ->
    extractFirstSvgFromHtml h s = Normal (Some svg) -> svg <> [] ->
    getPastedData h evt sched = Fulfilled r ->
    In f (files r) /\ In (fileFromSvgText (now h 0) svg None) (files r)
    /\ text r = None /\ html r = None.

(** *** Well-formed strings *)

(** A UTF-16 code unit. *)
Definition code_unit (c : N) : Prop := c < 65536.

(** A Unicode scalar value: a code point that is not a surrogate. *)
Definition scalar_value (v : N) : Prop :=
  v < 0x110000 /\ ~ (0xD800 <= v <= 0xDFFF).

(** The percent-escapes of the UTF-8 form of a code point. *)
Definition escaped (v : N) : str := concat (map Uri.percent (Uri.utf8_encode v)).

(** Parameters of a data URL as [decodeSvgDataUrl] reads them: nothing,
    or [;] and then no comma. *)
Definition url_params (params : str) : Prop :=
  params = [] \/ exists q, params = 59 :: q /\ Forall (fun c => c <> 44) q.

(** The continuation that [Re.match_at] gives the matcher. *)
Definition report (pos0 : nat) (s0 : str) : @Re.cont Re.match_result :=
  fun pos' _ cs =>
    Some {| Re.matched := take (pos' - pos0) s0; Re.groups := cs |}.

(** After the parameters: the comma and the payload, to the end. *)
Definition re_payload : Re.regex :=
  Re.RSeq (Re.RAtom (Re.ALit 44))
    (Re.RSeq (Re.RGroup 2 (Re.RStar true Re.ADot)) Re.REol).

(** *** Base64, split into its sextets and its padding *)

Fixpoint sextets_of (bs : list N) : list N :=
  match bs with
  | a :: b :: c :: rest =>
      a / 4 :: (a mod 4) * 16 + b / 16 :: (b mod 16) * 4 + c / 64 :: c mod 64
      :: sextets_of rest
  | [a; b] => [a / 4; (a mod 4) * 16 + b / 16; (b mod 16) * 4]
  | [a] => [a / 4; (a mod 4) * 16]
  | [] => []
  end.

Fixpoint padding (bs : list N) : str :=
  match bs with
  | _ :: _ :: _ :: rest => padding rest
  | [_; _] => [61]
  | [_] => [61; 61]
  | [] => []
  end.

(** An octet. *)
Definition octet (b : N) : Prop := b < 256.

(** The picture of one of the tests, and the parameters of another. *)
Definition path_svg : str :=
  lit "<svg xmlns=" ++ [34] ++ lit "http://www.w3.org/2000/svg" ++ [34]
  ++ lit "><path d=" ++ [34] ++ lit "M0 0" ++ [34] ++ lit "/></svg>".

Definition extra_params : str := lit ";charset=utf-8;param=x".

(** *** The decoder that [decodeSvgDataUrl] applies to a payload *)

(** Base64 where the parameters name it, URL-component decoding
    otherwise. *)
Definition payload_decoder (h : host) (params payload : str) : completion str :=
  if Re.test true re_base64 params then
    if has_atob h then atob h payload else buffer_base64_utf8 h payload
  else Uri.decodeURIComponent payload.

(** The text is a data URL as the pattern of [decodeSvgDataUrl] reads
    it: the MIME type in any ASCII case, parameters, a comma, and a
    payload without line terminators. *)
Definition data_url_parts (s mime params payload : str) : Prop :=
  s = mime ++ params ++ 44 :: payload
  /\ map ascii_lower mime = svg_mime
  /\ url_params params
  /\ Forall (fun c => is_line_terminator c = false) payload.

(** What follows a [%] is not two hexadecimal digits. *)
Definition broken_escape (b : str) : Prop :=
  match b with
  | x :: y :: _ => Uri.hex_val x = None \/ Uri.hex_val y = None
  | _ => True
  end.

(** *** Inline fragments in plain text *)

(** [<svg] and [</svg>], in any ASCII case. *)
Definition opening_tag (a : str) : Prop := map ascii_lower a = lit "<svg".
Definition closing_tag (c : str) : Prop := map ascii_lower c = lit "</svg>".

(** A closing tag starts at the head of [t]. *)
Definition closes_here (t : str) : Prop :=
  exists c rest, t = c ++ rest /\ closing_tag c.

(** A fragment, from an opening tag to a closing tag, starts at the head
    of [t]. *)
Definition fragment_here (t : str) : Prop :=
  exists a body c post,
    t = a ++ body ++ c ++ post /\ opening_tag a /\ closing_tag c.

(** *** Pages with pictures in attributes *)

Definition quoted (s : str) : str := [34] ++ s ++ [34].

(** [<img src="data:image/svg+xml,%3Csvg%3E">] *)
Definition img_node : Dom.node :=
  Dom.Element (lit "img") [(lit "src", lit "data:image/svg+xml,%3Csvg%3E")] [].

Definition img_page_text : str :=
  lit "<img src=" ++ quoted (lit "data:image/svg+xml,%3Csvg%3E") ++ lit ">".

(** An image whose data URL has a broken escape, a second image whose
    data URL is sound, and an object with a base64 data URL. *)
Definition broken_img_node : Dom.node :=
  Dom.Element (lit "img") [(lit "src", lit "data:image/svg+xml,%")] [].

Definition object_node : Dom.node :=
  Dom.Element (lit "object")
    [(lit "type", lit "image/svg+xml");
     (lit "data", lit "data:image/svg+xml;base64,PHN2Zz4=")] [].

Definition object_page_text : str :=
  lit "<img src=" ++ quoted (lit "data:image/svg+xml,%") ++ lit ">"
  ++ img_page_text
  ++ lit "<object type=" ++ quoted (lit "image/svg+xml")
  ++ lit " data=" ++ quoted (lit "data:image/svg+xml;base64,PHN2Zz4=")
  ++ lit "></object>".

Definition attribute_pages : list (str * Dom.document) :=
  [ (img_page_text, Fixture.page [img_node]);
    (object_page_text, Fixture.page [broken_img_node; img_node; object_node]) ].

Definition attribute_browser : host := Fixture.browser attribute_pages 0.

(** *** Synthesized files *)

(** A file that [fileFromSvgText] made of a non-empty text. *)
Definition synthesized (f : File) : Prop :=
  file_type f = lit "image/svg+xml" /\ file_text f <> [].

(** The items of the clipboard, as [Array.from(dt.items || [])]. *)
Definition items_of (dt : DataTransfer) : list Item :=
  match items dt with Some l => l | None => [] end.

(** *** The first picture and the later ones *)

(** An element without the [<svg>] elements below it. *)
Fixpoint apart_from_svgs (n : Dom.node) : Dom.node :=
  match n with
  | Dom.Text data => Dom.Text data
  | Dom.Element name attrs kids =>
      Dom.Element name attrs
        ((fix among (l : list Dom.node) : list Dom.node :=
            match l with
            | [] => []
            | k :: l' =>
                if Dom.matches sel_svg k then among l'
                else apart_from_svgs k :: among l'
            end) kids)
  end.

(** The statement that, of a text with several [<svg>] elements, the
    result is the serialization of the first one and owes nothing to a
    later one: a second such text, whose first [<svg>] element differs
    from that of the first text only in [<svg>] elements below it,
    gives the same result. *)
Definition later_svgs_leave_no_trace : Prop :=
  forall (h : host) (html html' : str) (doc doc' : Dom.document)
         (first first' : Dom.node) (later later' : list Dom.node)
         (out : str),
    parseFromString h html = Normal doc ->
    List.filter (Dom.matches sel_svg) (Dom.document_order doc)
    = first :: later ->
    later <> [] ->
    serializeToString h first = Normal out ->
    parseFromString h html' = Normal doc' ->
    List.filter (Dom.matches sel_svg) (Dom.document_order doc')
    = first' :: later' ->
    later' <> [] ->
    apart_from_svgs first' = apart_from_svgs first ->
    extractFirstSvgFromHtml h html = Normal (Some out)
    /\ extractFirstSvgFromHtml h html' = Normal (Some out).

(** [<svg id=...><rect/></svg>] *)
Definition inner_svg (id : str) : Dom.node :=
  Dom.Element (lit "svg") [(lit "id", id)] [Dom.Element (lit "rect") [] []].

(** A picture with a second one, of the given [id], inside it:
    [<svg xmlns="http://www.w3.org/2000/svg" id="a">], the inner
    picture, [</svg>]. *)
Definition nested_svg (id : str) : Dom.node :=
  Dom.Element (lit "svg") [Fixture.svg_ns; (lit "id", lit "a")]
    [inner_svg id].

Definition nested_text (id : str) : str := Fixture.serialize (nested_svg id).

Definition nested_pages : list (str * Dom.document) :=
  [ (nested_text (lit "b"), Fixture.page [nested_svg (lit "b")]);
    (nested_text (lit "c"), Fixture.page [nested_svg (lit "c")]) ].

Definition nested_browser : host := Fixture.browser nested_pages 0.

(** *** Escape sequences *)

(** A run of escapes: [%] and two hexadecimal digits, repeated. *)
Fixpoint escape_run (e : str) : Prop :=
  match e with
  | [] => True
  | c :: x :: y :: e' =>
      c = 37 /\ Uri.hex_val x <> None /\ Uri.hex_val y <> None
      /\ escape_run e'
  | _ => False
  end.

(** * Properties *)

(** ** Strings and the matcher *)

Lemma str_eqb_eq (a b : str) : str_eqb a b = true <-> a = b.
Proof.
  revert b; induction a as [|x a IH]; intros [|y b]; simpl; split;
    try congruence; try discriminate.
  - intros H. apply andb_true_iff in H as [Hx Hr].
    apply N.eqb_eq in Hx. apply IH in Hr. congruence.
  - intros H. injection H as -> ->. rewrite N.eqb_refl. simpl. now apply IH.
Qed.

Lemma str_eqb_refl (a : str) : str_eqb a a = true.
Proof. now apply str_eqb_eq. Qed.

Lemma canonicalize_lower (x c : N) :
  x < 65 \/ 90 < x ->
  (Re.canonicalize true x =? Re.canonicalize true c) = (ascii_lower c =? x).
Proof.
  intros Hx. unfold Re.canonicalize, ascii_lower.
  destruct (N.leb_spec 97 x), (N.leb_spec x 122), (N.leb_spec 97 c),
    (N.leb_spec c 122), (N.leb_spec 65 c), (N.leb_spec c 90); simpl;
    apply eq_true_iff_eq; rewrite !N.eqb_eq; lia.
Qed.

Section MatcherFacts.

Context {R : Type}.
Variable ic : bool.

Lemma run_lits (l : str) (pos : nat) (s : str) (cs : Re.captures)
    (k : @Re.cont R) :
  Re.run ic (Re.lits l) pos s cs k =
  match lits_rest ic l s with
  | Some s' => k (pos + length l)%nat s' cs
  | None => None
  end.
Proof.
  revert pos s; induction l as [|x l IH]; intros pos s.
  - simpl. now rewrite Nat.add_0_r.
  - destruct s as [|c s]; [reflexivity|].
    cbn [Re.lits Re.run lits_rest].
    destruct (Re.atom_matches ic (Re.ALit x) c); [|reflexivity].
    rewrite IH. cbn [length]. now rewrite Nat.add_succ_r.
Qed.

End MatcherFacts.

Lemma exec_from_bol (ic : bool) (r : Re.regex) (s : str) (pos : nat) :
  pos <> 0%nat -> Re.exec_from ic (Re.RSeq Re.RBol r) pos s = None.
Proof.
  revert pos; induction s as [|c s IH]; intros pos Hpos;
    cbn [Re.exec_from]; unfold Re.match_at; cbn [Re.run];
    destruct (Nat.eqb_spec pos 0); try contradiction; auto.
Qed.

(** An anchored pattern matches at index 0 or not at all. *)
Lemma exec_bol (ic : bool) (r : Re.regex) (s : str) :
  Re.exec ic (Re.RSeq Re.RBol r) s = Re.match_at ic (Re.RSeq Re.RBol r) 0 s.
Proof.
  unfold Re.exec. destruct s as [|c s]; cbn [Re.exec_from];
    destruct (Re.match_at ic (Re.RSeq Re.RBol r) 0 _); auto.
  now apply exec_from_bol.
Qed.

Lemma lits_rest_lower (l s s' : str) :
  Forall (fun x => x < 65 \/ 90 < x) l ->
  lits_rest true l s = Some s' <->
  exists p, s = p ++ s' /\ map ascii_lower p = l.
Proof.
  intros Hl; revert s; induction Hl as [|x l Hx Hl IH]; intros s.
  - simpl. split.
    + intros [= ->]. now exists [].
    + intros ([|? ?] & -> & Hp); [reflexivity|discriminate].
  - destruct s as [|c s]; cbn [lits_rest Re.atom_matches].
    + split; [discriminate|].
      intros ([|? ?] & Hs & Hp); discriminate.
    + rewrite (canonicalize_lower x c Hx).
      destruct (N.eqb_spec (ascii_lower c) x) as [Hc|Hc].
      * rewrite IH. split.
        -- intros (p & -> & Hp). exists (c :: p). simpl. split; congruence.
        -- intros ([|c' p] & Hs & Hp); [discriminate|].
           simpl in Hs, Hp. injection Hs as -> ->. injection Hp as _ Hp.
           now exists p.
      * split; [discriminate|].
        intros ([|c' p] & Hs & Hp); [discriminate|].
        simpl in Hs, Hp. injection Hs as -> ->. injection Hp as Hp _.
        contradiction.
Qed.

Lemma svg_mime_lower : Forall (fun x => x < 65 \/ 90 < x) svg_mime.
Proof.
  apply List.Forall_forall. intros x Hx.
  assert (H : forallb (fun x => (x <? 65) || (90 <? x)) svg_mime = true)
    by (vm_compute; reflexivity).
  rewrite forallb_forall in H. specialize (H x Hx).
  apply orb_true_iff in H as [H|H]; apply N.ltb_lt in H; lia.
Qed.

(** ** The data-URL codec *)

Lemma comma_or_semicolon (c : N) :
  Re.atom_matches true (Re.ASet false [Re.CChar 44; Re.CChar 59]) c
  = (c =? 44) || (c =? 59).
Proof.
  cbn [Re.atom_matches existsb Re.item_matches xorb].
  rewrite !canonicalize_lower by lia. unfold ascii_lower.
  destruct (N.leb_spec 65 c), (N.leb_spec c 90); simpl;
    rewrite ?orb_false_r; apply eq_true_iff_eq;
    rewrite !orb_true_iff, !N.eqb_eq; lia.
Qed.

Lemma isSvgDataUrl_unfold (s : str) :
  isSvgDataUrl s =
  match lits_rest true svg_mime s with
  | Some (c :: _) => (c =? 44) || (c =? 59)
  | _ => false
  end.
Proof.
  unfold isSvgDataUrl, Re.test, re_svg_data_url. rewrite exec_bol.
  unfold Re.match_at. cbn [Re.run Nat.eqb]. rewrite run_lits.
  destruct (lits_rest true svg_mime s) as [[|c rest]|]; try reflexivity.
  rewrite comma_or_semicolon. now destruct ((c =? 44) || (c =? 59)).
Qed.

(** C8. [isSvgDataUrl s] is true exactly when [s] begins with
    [data:image/svg+xml], compared without regard to ASCII case, and the
    next code unit is [,] or [;]. *)
Theorem isSvgDataUrl_iff_shape (s : str) :
  isSvgDataUrl s = true <-> svg_data_url_shape s.
Proof.
  rewrite isSvgDataUrl_unfold. unfold svg_data_url_shape, svg_mime_then.
  split.
  - destruct (lits_rest true svg_mime s) as [[|c rest]|] eqn:E;
      try discriminate.
    apply (lits_rest_lower _ _ _ svg_mime_lower) in E as (p & -> & Hp).
    intros H. apply orb_true_iff in H as [H|H]; apply N.eqb_eq in H; subst c;
      [left|right]; exists p, rest; auto.
  - intros [(p & rest & -> & Hp)|(p & rest & -> & Hp)].
    + assert (E : lits_rest true svg_mime (p ++ 44 :: rest) = Some (44 :: rest))
        by (apply (lits_rest_lower _ _ _ svg_mime_lower); eauto).
      now rewrite E.
    + assert (E : lits_rest true svg_mime (p ++ 59 :: rest) = Some (59 :: rest))
        by (apply (lits_rest_lower _ _ _ svg_mime_lower); eauto).
      now rewrite E.
Qed.

(** C10. [isSvgDataUrl] accepts strings that [decodeSvgDataUrl] cannot
    decode: a data URL without any comma, and a data URL whose payload
    holds a line feed, are both recognised and both decode to [null],
    whatever the host. *)
Theorem recognised_yet_undecodable :
  (isSvgDataUrl no_comma_url = true
   /\ forall h : host, decodeSvgDataUrl h no_comma_url = Normal None)
  /\ (isSvgDataUrl line_feed_url = true
      /\ forall h : host, decodeSvgDataUrl h line_feed_url = Normal None).
Proof.
  repeat split; try (vm_compute; reflexivity); intros h; vm_compute; reflexivity.
Qed.

(** *** Matches consume at least [min_len] code units *)

Section MatchLength.

Context {R : Type}.
Variable ic : bool.

Lemma star_greedy_inv (a : Re.atom) (s : str) (pos : nat) cs
    (k : @Re.cont R) x :
  Re.star_greedy ic a pos s cs k = Some x -> advances 0 pos s k x.
Proof.
  revert pos; induction s as [|c s IH]; intros pos; cbn [Re.star_greedy].
  - intros H. exists pos, [], cs. repeat split; auto; lia.
  - destruct (Re.atom_matches ic a c).
    + destruct (Re.star_greedy ic a (S pos) s cs k) eqn:E.
      * intros [= ->]. apply IH in E as (pos' & s' & cs' & Hk & Hl & Hp).
        exists pos', s', cs'. cbn [length]. repeat split; auto; lia.
      * intros H. exists pos, (c :: s), cs. repeat split; auto; lia.
    + intros H. exists pos, (c :: s), cs. repeat split; auto; lia.
Qed.

Lemma star_lazy_inv (a : Re.atom) (s : str) (pos : nat) cs
    (k : @Re.cont R) x :
  Re.star_lazy ic a pos s cs k = Some x -> advances 0 pos s k x.
Proof.
  revert pos; induction s as [|c s IH]; intros pos; cbn [Re.star_lazy].
  - destruct (k pos [] cs) eqn:E; [|discriminate].
    intros [= ->]. exists pos, [], cs. repeat split; auto; lia.
  - destruct (k pos (c :: s) cs) eqn:E.
    + intros [= ->]. exists pos, (c :: s), cs. repeat split; auto; lia.
    + destruct (Re.atom_matches ic a c); [|discriminate].
      intros H. apply IH in H as (pos' & s' & cs' & Hk & Hl & Hp).
      exists pos', s', cs'. cbn [length]. repeat split; auto; lia.
Qed.

End MatchLength.

Lemma run_inv {R : Type} (ic : bool) (r : Re.regex) :
  forall pos s cs (k : @Re.cont R) x,
    Re.run ic r pos s cs k = Some x -> advances (min_len r) pos s k x.
Proof.
  induction r as [|a|r1 IH1 r2 IH2|g a|r1 IH1|n r1 IH1| |];
    intros pos s cs k x; cbn [Re.run min_len].
  - intros H. exists pos, s, cs. repeat split; auto; lia.
  - destruct s as [|c s]; [discriminate|].
    destruct (Re.atom_matches ic a c); [|discriminate].
    intros H. exists (S pos), s, cs. cbn [length]. repeat split; auto; lia.
  - intros H. apply IH1 in H as (p1 & s1 & c1 & H & Hl1 & Hp1).
    apply IH2 in H as (p2 & s2 & c2 & H & Hl2 & Hp2).
    exists p2, s2, c2. repeat split; auto; lia.
  - destruct g; [apply star_greedy_inv|apply star_lazy_inv].
  - destruct (Re.run ic r1 pos s cs k) eqn:E.
    + intros [= ->]. apply IH1 in E as (p1 & s1 & c1 & H & Hl1 & Hp1).
      exists p1, s1, c1. repeat split; auto; lia.
    + intros H. exists pos, s, cs. repeat split; auto; lia.
  - intros H. apply IH1 in H as (p1 & s1 & c1 & H & Hl1 & Hp1).
    eexists p1, s1, _. repeat split; eauto.
  - destruct (Nat.eqb pos 0); [|discriminate].
    intros H. exists pos, s, cs. repeat split; auto; lia.
  - destruct s; [|discriminate].
    intros H. exists pos, [], cs. repeat split; auto; lia.
Qed.

Lemma match_at_length (ic : bool) (r : Re.regex) (pos : nat) (s : str) m :
  Re.match_at ic r pos s = Some m -> (min_len r <= length (Re.matched m))%nat.
Proof.
  unfold Re.match_at. intros H.
  apply run_inv in H as (pos' & s' & cs' & [= <-] & Hl & Hp).
  cbn [Re.matched]. rewrite length_take. lia.
Qed.

Lemma exec_length (ic : bool) (r : Re.regex) (s : str) m :
  Re.exec ic r s = Some m -> (min_len r <= length (Re.matched m))%nat.
Proof.
  unfold Re.exec. generalize 0%nat as pos.
  induction s as [|c s IH]; intros pos; cbn [Re.exec_from].
  - destruct (Re.match_at ic r pos []) eqn:E; [|discriminate].
    intros [= ->]. eapply match_at_length; eauto.
  - destruct (Re.match_at ic r pos (c :: s)) eqn:E.
    + intros [= ->]. eapply match_at_length; eauto.
    + apply IH.
Qed.

Lemma matchInlineSvg_nonempty (s r : str) :
  matchInlineSvg s = Some r -> r <> [].
Proof.
  unfold matchInlineSvg.
  destruct (Re.exec true re_inline_svg s) as [m|] eqn:E; [|discriminate].
  intros [= <-]. apply exec_length in E.
  change (min_len re_inline_svg) with 10%nat in E.
  destruct (Re.matched m); [cbn in E; lia|discriminate].
Qed.

(** ** The document tree *)

Lemma node_induction (P : Dom.node -> Prop) :
  (forall d, P (Dom.Text d)) ->
  (forall name attrs kids, Forall P kids -> P (Dom.Element name attrs kids)) ->
  forall n, P n.
Proof.
  intros HT HE. fix IH 1. intros [name attrs kids|d]; [apply HE|apply HT].
  induction kids as [|k kids IHk]; constructor; [apply IH|exact IHk].
Qed.

Lemma first_in_element (p : Dom.node -> bool) name attrs kids :
  Dom.first_in p (Dom.Element name attrs kids) =
  if p (Dom.Element name attrs kids) then Some (Dom.Element name attrs kids)
  else Dom.first_among p kids.
Proof.
  cbn [Dom.first_in]. destruct (p _); [reflexivity|].
  induction kids as [|k kids IH]; cbn [Dom.first_among]; [reflexivity|].
  destruct (Dom.first_in p k); [reflexivity|apply IH].
Qed.

Lemma tree_order_element name attrs kids :
  Dom.tree_order (Dom.Element name attrs kids) =
  Dom.Element name attrs kids :: Dom.document_order kids.
Proof.
  cbn [Dom.tree_order]. f_equal. unfold Dom.document_order.
  induction kids as [|k kids IH]; cbn [map concat]; [reflexivity|].
  now rewrite IH.
Qed.

(** The tree search returns the first node, in tree order, that
    satisfies the test. *)
Lemma first_in_tree_order (p : Dom.node -> bool) (n : Dom.node) :
  Dom.first_in p n = head (List.filter p (Dom.tree_order n)).
Proof.
  induction n as [d|name attrs kids IH] using node_induction.
  - cbn. now destruct (p (Dom.Text d)).
  - rewrite first_in_element, tree_order_element. cbn [List.filter].
    destruct (p (Dom.Element name attrs kids)); [reflexivity|].
    unfold Dom.document_order.
    induction IH as [|k kids Hk _ IHk]; cbn [Dom.first_among map concat];
      [reflexivity|].
    rewrite List.filter_app, Hk, IHk.
    now destruct (List.filter p (Dom.tree_order k)).
Qed.

Lemma first_among_document_order (p : Dom.node -> bool) (doc : Dom.document) :
  Dom.first_among p doc = head (List.filter p (Dom.document_order doc)).
Proof.
  unfold Dom.document_order.
  induction doc as [|k doc IH]; cbn [Dom.first_among map concat];
    [reflexivity|].
  rewrite List.filter_app, first_in_tree_order, IH.
  now destruct (List.filter p (Dom.tree_order k)).
Qed.

(** [querySelector] returns the first match in document order. *)
Lemma querySelector_first (doc : Dom.document) (sel : Dom.selector) :
  Dom.querySelector doc sel
  = head (List.filter (Dom.matches sel) (Dom.document_order doc)).
Proof. apply first_among_document_order. Qed.

Lemma querySelector_matches doc sel e :
  Dom.querySelector doc sel = Some e -> Dom.matches sel e = true.
Proof.
  rewrite querySelector_first.
  destruct (List.filter (Dom.matches sel) (Dom.document_order doc)) as [|x l] eqn:E;
    [discriminate|].
  intros [= ->].
  assert (H : List.In e (List.filter (Dom.matches sel) (Dom.document_order doc)))
    by (rewrite E; now left).
  now apply List.filter_In in H.
Qed.

Lemma querySelector_element doc sel e :
  Dom.querySelector doc sel = Some e ->
  exists name attrs kids, e = Dom.Element name attrs kids.
Proof.
  intros H. apply querySelector_matches in H.
  destruct e as [name attrs kids|d]; [eauto|discriminate].
Qed.

(** ** No exception leaves a [try] *)

Ltac unfold_bind := unfold mbind, completion_bind, cbind.

Lemma Normal_inj {A} (a b : A) : Normal a = Normal b -> a = b.
Proof. now intros [= ->]. Qed.

Lemma try_catch_total {A} (body : completion A) (v : A) :
  exists r, try_catch body (Normal v) = Normal r.
Proof. destruct body; simpl; eauto. Qed.

Lemma decodeSvgDataUrl_total (h : host) (s : str) :
  exists r, decodeSvgDataUrl h s = Normal r.
Proof. apply try_catch_total. Qed.

Lemma extractFirstSvgFromHtml_total (h : host) (s : str) :
  exists r, extractFirstSvgFromHtml h s = Normal r.
Proof. apply try_catch_total. Qed.

Lemma getDataSafe_total (dt : DataTransfer) (ty : str) :
  exists r, getDataSafe dt ty = Normal r.
Proof. apply try_catch_total. Qed.

Lemma push_from_plain_total (h : host) st (plain : str) :
  exists st', push_from_plain h st plain = Normal st'.
Proof.
  unfold push_from_plain.
  destruct (truthy_opt (matchInlineSvg plain)); [eauto|].
  destruct (isSvgDataUrl (trim plain)); [|eauto].
  destruct (decodeSvgDataUrl_total h (trim plain)) as [d ->].
  unfold_bind. eauto.
Qed.

Lemma getDataPath_total (h : host) (dt : DataTransfer) :
  exists r, getDataPath h dt = Normal r.
Proof.
  unfold getDataPath.
  destruct (getDataSafe_total dt (lit "text/html")) as [html ->].
  destruct (getDataSafe_total dt (lit "text/plain")) as [p ->].
  unfold_bind.
  assert (Hplain : exists plain,
    (if truthy p then Normal p else getDataSafe dt (lit "text")) = Normal plain).
  { destruct (truthy p); [eauto|apply getDataSafe_total]. }
  destruct Hplain as [plain ->].
  assert (Hsvg : exists svg,
    (if truthy html then extractFirstSvgFromHtml h html else Normal None)
    = Normal svg).
  { destruct (truthy html); [apply extractFirstSvgFromHtml_total|eauto]. }
  destruct Hsvg as [svg ->].
  match goal with
  | |- context [if ?c then push_from_plain h ?st plain else Normal ?st] =>
      assert (Hst : exists st2,
        (if c then push_from_plain h st plain else Normal st) = Normal st2)
        by (destruct c; [apply push_from_plain_total|eauto]);
      destruct Hst as [st2 ->]
  end.
  eauto.
Qed.

Ltac plain_total h :=
  match goal with
  | |- context [push_from_plain h ?st ?t] =>
      let st2 := fresh "st" in
      destruct (push_from_plain_total h st t) as [st2 ->]
  end.

Lemma select_and_extract_total (h : host) files0 texts :
  exists r, select_and_extract h files0 texts = Normal r.
Proof.
  unfold select_and_extract. unfold_bind.
  destruct (or_null (option_map entry_str (find_entry (lit "text/html") texts)))
    as [html'|];
    [destruct (extractFirstSvgFromHtml_total h html') as [svg ->]|];
    (destruct (or_null (option_map entry_str (find_entry (lit "text/plain") texts)))
       as [text'|]; [plain_total h|]; eauto).
Qed.




(** ** Extracted strings *)

Lemma decoded_attribute_nonempty (h : host) el a r :
  decoded_attribute h el a = Normal (Some r) -> r <> [].
Proof.
  unfold decoded_attribute.
  destruct (Dom.element_attribute el a) as [u|];
    [destruct (decodeSvgDataUrl_total h u) as [d ->]|]; unfold_bind;
    [|discriminate].
  destruct d as [[|c d]|]; cbn; intros [= <-]; discriminate.
Qed.

Lemma extractFirstSvgFromHtml_nonempty (h : host) (s r : str) :
  (forall name attrs kids,
     serializeToString h (Dom.Element name attrs kids) <> Normal []) ->
  extractFirstSvgFromHtml h s = Normal (Some r) -> r <> [].
Proof.
  intros Hser. unfold extractFirstSvgFromHtml.
  destruct (parseFromString h s) as [doc|]; unfold_bind; [|discriminate].
  destruct (Dom.querySelector doc sel_svg) as [svgEl|] eqn:Esvg.
  - apply querySelector_element in Esvg as (name & attrs & kids & ->).
    specialize (Hser name attrs kids).
    destruct (serializeToString h _) as [out|]; cbn; [|discriminate].
    intros [= <-] ->. now apply Hser.
  - destruct (Dom.querySelector doc sel_img) as [img|].
    + destruct (decoded_attribute h img (lit "src")) as [[d|]|] eqn:Ed; cbn.
      * intros [= <-]. eapply decoded_attribute_nonempty; eauto.
      * destruct (Dom.querySelector doc sel_object) as [obj|]; [|discriminate].
        destruct (decoded_attribute h obj (lit "data")) as [[d|]|] eqn:Eo; cbn;
          try discriminate.
        intros [= <-]. eapply decoded_attribute_nonempty; eauto.
      * discriminate.
    + cbn. destruct (Dom.querySelector doc sel_object) as [obj|]; [|discriminate].
      destruct (decoded_attribute h obj (lit "data")) as [[d|]|] eqn:Eo; cbn;
        try discriminate.
      intros [= <-]. eapply decoded_attribute_nonempty; eauto.
Qed.

Lemma push_svg_grows (h : host) st svg : push_svg h st svg <> st.
Proof.
  unfold push_svg. destruct st as [fs n]. cbn. intros [= _ H]. lia.
Qed.

Lemma push_svg_text (h : host) st a b :
  push_svg h st a = push_svg h st b -> a = b.
Proof.
  unfold push_svg. intros [= H]. apply app_inv_head in H. now injection H.
Qed.

(** What [push_from_plain] adds to the file list is never empty. *)
Lemma push_from_plain_nonempty (h : host) st (plain r : str) :
  push_from_plain h st plain = Normal (push_svg h st r) -> r <> [].
Proof.
  unfold push_from_plain.
  destruct (matchInlineSvg plain) as [m|] eqn:Em; cbn [truthy_opt].
  - pose proof (matchInlineSvg_nonempty _ _ Em) as Hm.
    destruct m as [|c m]; [contradiction|]. cbn [truthy value_of].
    intros H. apply Normal_inj, push_svg_text in H. subst r. discriminate.
  - destruct (isSvgDataUrl (trim plain)).
    + destruct (decodeSvgDataUrl_total h (trim plain)) as [d ->]. unfold_bind.
      destruct d as [[|c d]|]; cbn [truthy_opt truthy value_of]; intros H;
        apply Normal_inj in H.
      * symmetry in H. now apply push_svg_grows in H.
      * apply push_svg_text in H. subst r. discriminate.
      * symmetry in H. now apply push_svg_grows in H.
    + intros H. apply Normal_inj in H. symmetry in H.
      now apply push_svg_grows in H.
Qed.

(** C9, the claim as stated fails: [decodeSvgDataUrl] returns the empty
    string, not [null], for a data URL with an empty payload. *)
Lemma decodeSvgDataUrl_empty_payload : ~ present_svg_never_empty.
Proof.
  intros H.
  apply (H Fixture.chromium empty_payload_url []); [|reflexivity].
  left. vm_compute. reflexivity.
Qed.

(** C9, amended. A string returned by [matchInlineSvg], a string
    returned by [extractFirstSvgFromHtml] (under a serializer that gives
    no element the empty string), and a string that the plain-text
    statements make a file of (from an inline match or from
    [decodeSvgDataUrl]) is never empty. *)
Theorem kept_svg_nonempty (h : host) (s r : str) (st : list File * nat) :
  (forall name attrs kids,
     serializeToString h (Dom.Element name attrs kids) <> Normal []) ->
  matchInlineSvg s = Some r
  \/ extractFirstSvgFromHtml h s = Normal (Some r)
  \/ push_from_plain h st s = Normal (push_svg h st r) ->
  r <> [].
Proof.
  intros Hser [H|[H|H]].
  - eapply matchInlineSvg_nonempty; eauto.
  - eapply extractFirstSvgFromHtml_nonempty; eauto.
  - eapply push_from_plain_nonempty; eauto.
Qed.

Lemma kept_svg_nonempty_witness :
  (forall name attrs kids,
     serializeToString Fixture.chromium (Dom.Element name attrs kids)
     <> Normal [])
  /\ matchInlineSvg Fixture.rect_svg_text = Some Fixture.rect_svg_text
  /\ Fixture.rect_svg_text <> [].
Proof.
  assert (Hser : forall name attrs kids,
     serializeToString Fixture.chromium (Dom.Element name attrs kids)
     <> Normal []) by (intros name attrs [|k kids]; cbn; discriminate).
  assert (Hm : matchInlineSvg Fixture.rect_svg_text = Some Fixture.rect_svg_text)
    by (vm_compute; reflexivity).
  split; [exact Hser|]. split; [exact Hm|].
  exact (kept_svg_nonempty Fixture.chromium Fixture.rect_svg_text
           Fixture.rect_svg_text ([], 0%nat) Hser (or_introl Hm)).
Defined.

(** ** The first [<svg>] of a document *)

(** C5, the claim as stated fails: a later [<svg>] element that lies
    inside the first one is serialized with it.  The two texts differ
    only in the [id] of the inner picture, and the results differ. *)
Lemma later_svg_inside_first : ~ later_svgs_leave_no_trace.
Proof.
  intros H.
  assert (H2 : extractFirstSvgFromHtml nested_browser (nested_text (lit "c"))
               = Normal (Some (nested_text (lit "b")))).
  { refine (proj2 (H nested_browser
                     (nested_text (lit "b")) (nested_text (lit "c"))
                     (Fixture.page [nested_svg (lit "b")])
                     (Fixture.page [nested_svg (lit "c")])
                     (nested_svg (lit "b")) (nested_svg (lit "c"))
                     [inner_svg (lit "b")] [inner_svg (lit "c")]
                     (nested_text (lit "b")) _ _ _ _ _ _ _ _));
      first [discriminate | vm_compute; reflexivity]. }
  vm_compute in H2. discriminate.
Qed.

(** C5, amended. Where the parsed document holds [<svg>] elements,
    [first] being the first of them in document order and [later] the
    others, [extractFirstSvgFromHtml] returns what the serializer gives
    for [first]; it returns the same for any other text whose document
    has the same first [<svg>] element, whatever lies outside it; and
    where the serializer is that of the model, the result begins with
    [<svg] and then every attribute of [first], namespace declarations
    included, in order, each written as a name, [=] and the quoted
    value. *)
Theorem first_svg_serialized (h : host) (html : str) (doc : Dom.document)
    (first : Dom.node) (later : list Dom.node) (out : str) :
  parseFromString h html = Normal doc ->
  List.filter (Dom.matches sel_svg) (Dom.document_order doc) = first :: later ->
  serializeToString h first = Normal out ->
  extractFirstSvgFromHtml h html = Normal (Some out)
  /\ (forall html' doc' later',
        parseFromString h html' = Normal doc' ->
        List.filter (Dom.matches sel_svg) (Dom.document_order doc')
        = first :: later' ->
        extractFirstSvgFromHtml h html' = Normal (Some out))
  /\ ((forall n, serializeToString h n = Normal (Fixture.serialize n)) ->
      exists attrs kids rest,
        first = Dom.Element (lit "svg") attrs kids
        /\ out = lit "<svg" ++ flat_map Fixture.attr_markup attrs ++ rest).
Proof.
  intros Hdoc Hsvgs Hout.
  assert (Hany : forall html' doc' later',
    parseFromString h html' = Normal doc' ->
    List.filter (Dom.matches sel_svg) (Dom.document_order doc')
    = first :: later' ->
    extractFirstSvgFromHtml h html' = Normal (Some out)).
  { intros html' doc' later' Hdoc' Hsvgs'. unfold extractFirstSvgFromHtml.
    rewrite Hdoc'. unfold_bind.
    rewrite querySelector_first, Hsvgs'. cbn [head]. now rewrite Hout. }
  split; [eapply Hany; eauto|]. split; [exact Hany|].
  intros Hser.
  assert (Hm : Dom.matches sel_svg first = true).
  { assert (Hin : In first (List.filter (Dom.matches sel_svg)
                              (Dom.document_order doc)))
      by (rewrite Hsvgs; now left).
    now apply List.filter_In in Hin. }
  destruct first as [name attrs kids|data]; [|discriminate].
  cbn [Dom.matches sel_svg Dom.sel_type Dom.sel_attrs forallb] in Hm.
  rewrite andb_true_r in Hm. apply str_eqb_eq in Hm. subst name.
  rewrite Hser in Hout. apply Normal_inj in Hout. subst out.
  exists attrs, kids. cbn [Fixture.serialize].
  destruct kids as [|k kids]; eexists; (split; [reflexivity|]);
    rewrite (app_assoc (lit "<") (lit "svg")); reflexivity.
Qed.

Lemma first_svg_serialized_witness :
  parseFromString Fixture.chromium Fixture.two_svgs_text
  = Normal (Fixture.page
              [Dom.Element (lit "div") [] [Fixture.rect_svg; Fixture.circle_svg]])
  /\ extractFirstSvgFromHtml Fixture.chromium Fixture.two_svgs_text
     = Normal (Some Fixture.rect_svg_text)
  /\ exists attrs kids rest,
       Fixture.rect_svg = Dom.Element (lit "svg") attrs kids
       /\ Fixture.rect_svg_text
          = lit "<svg" ++ flat_map Fixture.attr_markup attrs ++ rest.
Proof.
  assert (Hdoc : parseFromString Fixture.chromium Fixture.two_svgs_text
    = Normal (Fixture.page
                [Dom.Element (lit "div") [] [Fixture.rect_svg; Fixture.circle_svg]]))
    by (vm_compute; reflexivity).
  assert (Hsvgs : List.filter (Dom.matches sel_svg)
                    (Dom.document_order
                       (Fixture.page
                          [Dom.Element (lit "div") []
                             [Fixture.rect_svg; Fixture.circle_svg]]))
                  = [Fixture.rect_svg; Fixture.circle_svg])
    by (vm_compute; reflexivity).
  assert (Hout : serializeToString Fixture.chromium Fixture.rect_svg
                 = Normal Fixture.rect_svg_text)
    by (vm_compute; reflexivity).
  pose proof (first_svg_serialized Fixture.chromium Fixture.two_svgs_text _
                Fixture.rect_svg [Fixture.circle_svg] Fixture.rect_svg_text
                Hdoc Hsvgs Hout) as H.
  split; [exact Hdoc|]. split; [exact (proj1 H)|].
  apply (proj2 (proj2 H)). intros n. reflexivity.
Defined.

(** ** The loop over the items and the join *)

Lemma scan_items (its : list Item) fs ps :
  fold_left scan_item its (fs, ps)
  = (fs ++ passed_files its, ps ++ text_promises its).
Proof.
  revert fs ps; induction its as [|it its IH]; intros fs ps.
  - cbn. now rewrite !app_nil_r.
  - cbn [fold_left]. unfold scan_item at 2.
    unfold passed_files, text_promises, is_text_item.
    cbn [flat_map List.filter]. fold (is_image_file it).
    destruct (is_image_file it) eqn:Ef; cbn [negb andb fst snd].
    + destruct (getAsFile it) as [[f|]|]; cbn [fst snd]; rewrite IH;
        unfold passed_files, text_promises, is_text_item;
        now rewrite <- ?app_assoc.
    + destruct (str_eqb (type it) (lit "text/html")
                || str_eqb (type it) (lit "text/plain"));
        cbn [fst snd map]; rewrite IH;
        unfold passed_files, text_promises, is_text_item;
        now rewrite <- ?app_assoc.
Qed.

Section Join.

Context {A : Type}.
Implicit Types (promises slots : list (option A)) (sched : list nat).

Lemma settle_length promises sched slots :
  length (settle promises sched slots) = length slots.
Proof.
  revert slots; induction sched as [|j sched IH]; intros slots; cbn [settle];
    [reflexivity|].
  rewrite IH. destruct (promises !! j) as [[v|]|]; [apply length_insert|..];
    reflexivity.
Qed.

(** A slot whose retrieval completes in the schedule holds its value. *)
Lemma settle_filled promises sched slots i v :
  length slots = length promises ->
  i ∈ sched -> promises !! i = Some (Some v) ->
  settle promises sched slots !! i = Some (Some v).
Proof.
  intros Hlen Hin Hp. revert slots Hlen.
  induction sched as [|j sched IH]; intros slots Hlen;
    [now apply elem_of_nil in Hin|].
  cbn [settle].
  destruct (decide (i ∈ sched)) as [Hi|Hi].
  - apply IH; auto.
    destruct (promises !! j) as [[w|]|]; rewrite ?length_insert; auto.
  - apply elem_of_cons in Hin as [->|Hin]; [|contradiction].
    rewrite Hp. clear IH.
    assert (Hkeep : forall sl, sl !! j = Some (Some v) ->
              settle promises sched sl !! j = Some (Some v)).
    { clear Hlen slots. induction sched as [|k sched IH]; intros sl Hsl;
        [exact Hsl|].
      cbn [settle]. apply IH.
      - intros Hj. apply Hi. now right.
      - destruct (decide (k = j)) as [->|Hk].
        + rewrite Hp. rewrite list_lookup_insert_eq; auto.
          now apply lookup_lt_Some in Hsl.
        + destruct (promises !! k) as [[w|]|]; auto.
          now rewrite list_lookup_insert_ne. }
    apply Hkeep. apply list_lookup_insert_eq.
    rewrite Hlen. now apply lookup_lt_Some in Hp.
Qed.

(** A slot whose retrieval does not complete keeps its content. *)
Lemma settle_kept promises sched slots i :
  i ∉ sched \/ (forall v, promises !! i <> Some (Some v)) ->
  settle promises sched slots !! i = slots !! i.
Proof.
  intros Hi. revert slots.
  induction sched as [|j sched IH]; intros slots; [reflexivity|].
  cbn [settle]. rewrite IH.
  - destruct (promises !! j) as [[w|]|] eqn:Ej; auto.
    destruct (decide (j = i)) as [->|Hj].
    + destruct Hi as [Hi|Hi]; [|now apply Hi in Ej].
      exfalso. apply Hi. now left.
    + now rewrite list_lookup_insert_ne.
  - destruct Hi as [Hi|Hi]; [left|now right].
    intros H. apply Hi. now right.
Qed.

(** The order of the completions does not matter to the slots. *)
Lemma settle_permutation promises s1 s2 slots :
  length slots = length promises ->
  Permutation s1 s2 -> settle promises s1 slots = settle promises s2 slots.
Proof.
  intros Hlen Hperm. apply list_eq. intros i.
  destruct (promises !! i) as [[v|]|] eqn:Ep.
  - destruct (decide (i ∈ s1)) as [Hi|Hi].
    + rewrite !(settle_filled _ _ _ i v); auto. now rewrite <- Hperm.
    + rewrite !settle_kept; auto. left. now rewrite <- Hperm.
  - rewrite !settle_kept; auto; right; congruence.
  - rewrite !settle_kept; auto; right; congruence.
Qed.

Lemma promise_all_permutation promises s1 s2 :
  Permutation s1 s2 -> promise_all promises s1 = promise_all promises s2.
Proof.
  intros Hperm. unfold promise_all.
  rewrite (settle_permutation promises s1 s2); auto.
  apply length_replicate.
Qed.

Lemma all_values_some (vs : list A) : all_values (map Some vs) = Some vs.
Proof. induction vs as [|v vs IH]; cbn; [|rewrite IH]; reflexivity. Qed.

(** When every retrieval completes, the join gives the values in the
    order of the promises. *)
Lemma promise_all_complete (vs : list A) sched :
  covers (length vs) sched -> promise_all (map Some vs) sched = Fulfilled vs.
Proof.
  intros Hcov. unfold promise_all.
  assert (E : settle (map Some vs) sched
                (replicate (length (map Some vs)) None) = map Some vs).
  { apply list_eq. intros i.
    destruct (map Some vs !! i) as [o|] eqn:Ei.
    - pose proof (lookup_lt_Some _ _ _ Ei) as Hlt.
      rewrite length_map in Hlt.
      rewrite list_lookup_fmap in Ei.
      destruct (vs !! i) as [v|] eqn:Ev; [|discriminate].
      injection Ei as <-.
      apply settle_filled; [apply length_replicate|now apply Hcov|].
      now rewrite list_lookup_fmap, Ev.
    - rewrite settle_kept; [|right; congruence].
      apply lookup_ge_None. rewrite length_replicate.
      now apply lookup_ge_None in Ei. }
  now rewrite E, all_values_some.
Qed.

(** A retrieval that never completes leaves the join pending. *)
Lemma promise_all_pending promises sched i :
  promises !! i = Some None -> promise_all promises sched = Pending.
Proof.
  intros Hi. unfold promise_all.
  assert (E : settle promises sched (replicate (length promises) None) !! i
              = Some None).
  { rewrite settle_kept; [|right; congruence].
    apply lookup_replicate_2. now apply lookup_lt_Some in Hi. }
  revert E. generalize (settle promises sched (replicate (length promises) None)).
  clear Hi. intros l. revert i.
  induction l as [|[v|] l IH]; intros i E; cbn [all_values].
  - discriminate.
  - destruct i as [|i]; [discriminate|]. cbn in E.
    specialize (IH i E). destruct (all_values l); [discriminate|reflexivity].
  - reflexivity.
Qed.

End Join.

Lemma text_promises_complete (its : list Item) :
  retrievals_complete its -> text_promises its = map Some (text_entries its).
Proof.
  unfold retrievals_complete, text_promises, text_entries.
  induction 1 as [|it its Hit _ IH]; [reflexivity|].
  cbn [List.filter]. destruct (is_text_item it); [|exact IH].
  destruct (Hit eq_refl) as [s Hs]. cbn [map]. rewrite IH.
  unfold string_promise, resolved. now rewrite Hs.
Qed.

Lemma html_item_is_text (it : Item) :
  str_eqb (type it) (lit "text/html") = true -> is_text_item it = true.
Proof.
  intros H. unfold is_text_item, is_image_file. rewrite H.
  apply str_eqb_eq in H. rewrite H.
  replace (starts_with (lit "image/") (lit "text/html")) with false
    by (vm_compute; reflexivity).
  now rewrite andb_false_r.
Qed.

Lemma plain_item_is_text (it : Item) :
  str_eqb (type it) (lit "text/plain") = true -> is_text_item it = true.
Proof.
  intros H. unfold is_text_item, is_image_file. rewrite H.
  apply str_eqb_eq in H. rewrite H.
  replace (starts_with (lit "image/") (lit "text/plain")) with false
    by (vm_compute; reflexivity).
  now rewrite andb_false_r, orb_true_r.
Qed.

(** Selection among the joined entries is selection among the items. *)
Lemma find_entry_first_string (ty : str) (its : list Item) :
  (forall it, str_eqb (type it) ty = true -> is_text_item it = true) ->
  or_null (option_map entry_str (find_entry ty (text_entries its)))
  = first_string ty its.
Proof.
  intros Hty. unfold find_entry, first_string, text_entries.
  induction its as [|it its IH]; [reflexivity|].
  cbn [List.filter find].
  destruct (str_eqb (type it) ty) eqn:Et.
  - rewrite (Hty it Et). cbn [map find entry_type entry_str].
    rewrite Et. cbn [andb].
    destruct (truthy (resolved it)) eqn:Er; [|exact IH].
    cbn [option_map or_null entry_str]. now rewrite Er.
  - cbn [andb]. destruct (is_text_item it); [|exact IH].
    cbn [map find entry_type entry_str]. rewrite Et. cbn [andb]. exact IH.
Qed.

Lemma first_string_truthy (ty : str) (its : list Item) (s : str) :
  first_string ty its = Some s -> truthy s = true.
Proof.
  unfold first_string.
  destruct (find _ its) as [it|] eqn:E; [|discriminate].
  apply find_some in E as [_ E]. apply andb_true_iff in E as [_ E].
  now intros [= <-].
Qed.

Lemma canUseItems_nonempty (its : list Item) :
  Value.to_boolean (canUseItems its) = negb (Nat.eqb (length its) 0).
Proof.
  unfold canUseItems, Value.log_and.
  destruct its as [|it its]; [reflexivity|].
  replace (Value.to_boolean (Value.VNumber (N.of_nat (length (it :: its)))))
    with true by (cbn [length Value.to_boolean]; now destruct (N.eqb_spec (N.of_nat (S (length its))) 0); [lia|]).
  cbn [length Nat.eqb negb]. unfold Value.log_or.
  cbn [Value.to_boolean].
  now destruct (Value.strict_equal _ _).
Qed.

Lemma push_from_plain_appends (h : host) st (plain : str) st' :
  push_from_plain h st plain = Normal st' ->
  st' = st \/ exists svg, st' = push_svg h st svg.
Proof.
  unfold push_from_plain.
  destruct (truthy_opt (matchInlineSvg plain)).
  - intros H. apply Normal_inj in H. eauto.
  - destruct (isSvgDataUrl (trim plain)).
    + destruct (decodeSvgDataUrl_total h (trim plain)) as [d ->]. unfold_bind.
      destruct (truthy_opt d); intros H; apply Normal_inj in H; eauto.
    + intros H. apply Normal_inj in H. eauto.
Qed.

(** What the statements after the [await] return. *)
Lemma select_and_extract_fields (h : host) files0 texts r :
  select_and_extract h files0 texts = Normal r ->
  html r = or_null (option_map entry_str (find_entry (lit "text/html") texts))
  /\ text r = or_null (option_map entry_str (find_entry (lit "text/plain") texts))
  /\ exists extra, files r = files0 ++ extra.
Proof.
  unfold select_and_extract. unfold_bind.
  set (html0 := or_null (option_map entry_str (find_entry (lit "text/html") texts))).
  set (text0 := or_null (option_map entry_str (find_entry (lit "text/plain") texts))).
  assert (H1 : exists st1 extra,
    match html0 with
    | Some html' =>
        match extractFirstSvgFromHtml h html' with
        | Normal svg =>
            Normal (if truthy_opt svg
                    then push_svg h (files0, 0%nat) (value_of svg)
                    else (files0, 0%nat))
        | Throw => Throw
        end
    | None => Normal (files0, 0%nat)
    end = Normal st1 /\ st1.1 = files0 ++ extra).
  { destruct html0 as [html'|]; [|exists (files0, 0%nat), []; now rewrite app_nil_r].
    destruct (extractFirstSvgFromHtml_total h html') as [svg ->].
    destruct (truthy_opt svg); [eexists _, _; split; [reflexivity|reflexivity]|].
    exists (files0, 0%nat), []. now rewrite app_nil_r. }
  destruct H1 as (st1 & extra1 & -> & Hst1).
  destruct text0 as [text'|].
  - destruct (push_from_plain h st1 text') as [st2|] eqn:E; [|discriminate].
    intros H. apply Normal_inj in H. subst r. cbn [html text files].
    repeat split; auto.
    apply push_from_plain_appends in E as [->|[svg ->]].
    + eauto.
    + unfold push_svg. cbn [fst]. rewrite Hst1, <- app_assoc. eauto.
  - intros H. apply Normal_inj in H. subst r. cbn [html text files].
    repeat split; eauto.
Qed.

(** The items path, when every retrieval completes. *)
Lemma getPastedData_items (h : host) (evt : Event) dt its sched :
  source_of evt = Some dt -> items dt = Some its ->
  retrievals_complete its -> covers (length (text_entries its)) sched ->
  exists r0,
    select_and_extract h (passed_files its) (text_entries its) = Normal r0
    /\ getPastedData h evt sched
       = if negb (Nat.eqb (length its) 0) && usable r0 then Fulfilled r0
         else sync (getDataPath h dt).
Proof.
  intros Hsrc Hits Hcomplete Hcov.
  destruct (select_and_extract_total h (passed_files its) (text_entries its))
    as [r0 Hr0].
  exists r0. split; [exact Hr0|].
  unfold getPastedData. rewrite Hsrc, Hits, canUseItems_nonempty.
  destruct (Nat.eqb (length its) 0); cbn [negb andb].
  - reflexivity.
  - unfold extractFromItems. rewrite scan_items. cbn [fst snd app].
    rewrite (text_promises_complete its Hcomplete).
    rewrite (promise_all_complete _ sched Hcov).
    unfold mbind, outcome_bind. rewrite Hr0. cbn [sync].
    now destruct (usable r0).
Qed.

(** ** The items path *)

Lemma covers_permutation (n : nat) (sched : list nat) :
  Permutation sched (seq 0 n) -> covers n sched.
Proof.
  intros Hperm i Hi. rewrite Hperm. apply list_elem_of_In, in_seq. lia.
Qed.

(** Two runs whose retrievals complete in different orders settle alike,
    whether or not every retrieval completes. *)
Lemma getPastedData_permutation (h : host) (evt : Event) (s1 s2 : list nat) :
  Permutation s1 s2 -> getPastedData h evt s1 = getPastedData h evt s2.
Proof.
  intros Hperm. unfold getPastedData, extractFromItems.
  destruct (source_of evt) as [dt|]; [|reflexivity].
  now rewrite (promise_all_permutation _ s1 s2 Hperm).
Qed.

(** C6. For a list of entries whose string retrievals all complete, two
    runs in which they complete in different orders give the same
    result; its [html] is the resolved string of the first [text/html]
    entry with a non-empty string, and its [text] that of the first such
    [text/plain] entry. *)
Theorem completion_order_irrelevant (h : host) (evt : Event)
    (dt : DataTransfer) (its : list Item) (s1 s2 : list nat) :
  source_of evt = Some dt -> items dt = Some its ->
  retrievals_complete its ->
  Permutation s1 (seq 0 (length (text_entries its))) ->
  Permutation s2 (seq 0 (length (text_entries its))) ->
  exists r,
    getPastedData h evt s1 = Fulfilled r
    /\ getPastedData h evt s2 = Fulfilled r
    /\ (forall s, first_string (lit "text/html") its = Some s ->
        html r = Some s)
    /\ (forall s, first_string (lit "text/plain") its = Some s ->
        text r = Some s).
Proof.
  intros Hsrc Hits Hcomplete Hs1 Hs2.
  destruct (getPastedData_items h evt dt its s1 Hsrc Hits Hcomplete
              (covers_permutation _ _ Hs1)) as (r0 & Hr0 & H1).
  rewrite (getPastedData_permutation h evt s2 s1)
    by (now rewrite Hs1, Hs2).
  rewrite H1.
  destruct (select_and_extract_fields _ _ _ _ Hr0) as (Hhtml & Htext & _).
  rewrite (find_entry_first_string _ _ html_item_is_text) in Hhtml.
  rewrite (find_entry_first_string _ _ plain_item_is_text) in Htext.
  destruct (negb (Nat.eqb (length its) 0) && usable r0) eqn:Hc.
  - exists r0. repeat split; auto; congruence.
  - destruct (getDataPath_total h dt) as [r Hr]. rewrite Hr. cbn [sync].
    exists r. split; [reflexivity|]. split; [reflexivity|].
    assert (Hnone : forall ty s, first_string ty its = Some s ->
              (ty = lit "text/html" \/ ty = lit "text/plain") -> False).
    { intros ty s Hs Hty.
      pose proof (first_string_truthy _ _ _ Hs) as Ht.
      apply andb_false_iff in Hc as [Hc|Hc].
      - destruct its; [discriminate Hs|discriminate Hc].
      - unfold usable in Hc. apply orb_false_iff in Hc as [Hc Hh].
        apply orb_false_iff in Hc as [_ Hx].
        destruct Hty as [-> | ->].
        + rewrite Hhtml, Hs in Hh. cbn in Hh. congruence.
        + rewrite Htext, Hs in Hx. cbn in Hx. congruence. }
    split; intros s Hs; exfalso; eapply Hnone; eauto.
Qed.

Lemma completion_order_irrelevant_witness :
  exists r,
    getPastedData Fixture.chromium
      (Fixture.paste_event (Some two_sources) [] []) [0; 1]%nat = Fulfilled r
    /\ getPastedData Fixture.chromium
         (Fixture.paste_event (Some two_sources) [] []) [1; 0]%nat = Fulfilled r
    /\ (forall s, first_string (lit "text/html") two_sources = Some s ->
        html r = Some s)
    /\ (forall s, first_string (lit "text/plain") two_sources = Some s ->
        text r = Some s).
Proof.
  eapply (completion_order_irrelevant Fixture.chromium
            (Fixture.paste_event (Some two_sources) [] []) _ two_sources).
  - reflexivity.
  - reflexivity.
  - repeat constructor; intros _; eexists; reflexivity.
  - vm_compute. reflexivity.
  - vm_compute. apply perm_swap.
Defined.

Lemma passed_files_in (its : list Item) (item : Item) (f : File) :
  In item its -> is_image_file item = true ->
  getAsFile item = Some (Some f) -> In f (passed_files its).
Proof.
  intros Hin Hfile Hf. unfold passed_files. apply in_flat_map.
  exists item. split; [exact Hin|]. rewrite Hfile, Hf. now left.
Qed.

(** C3, the claim as stated fails: with a real image file and a
    [text/html] entry holding a picture, [html] is the string of that
    entry, not absent. *)
Lemma html_field_kept_with_file : ~ file_and_html_leave_fields_absent.
Proof.
  intros H.
  destruct (H Fixture.chromium
              (Fixture.paste_event (Some file_and_html) [] [])
              (Fixture.data_transfer (Some file_and_html) [] [])
              file_and_html [0%nat]
              (Fixture.file_item (lit "image/png") png_file) png_file
              Fixture.rect_svg_text Fixture.rect_svg_text
              {| files := [png_file;
                           fileFromSvgText 1700000000000
                             Fixture.rect_svg_text None];
                 text := None;
                 html := Some Fixture.rect_svg_text |})
    as (_ & _ & _ & Hhtml);
    try (vm_compute; reflexivity); try discriminate.
  now left.
Qed.

(** C3, amended. Where every string retrieval completes, a list with a
    file entry of an [image/] type whose [getAsFile] gives a file, and
    whose first [text/html] entry with a non-empty string holds a
    picture, gives a result whose files hold both the file and the
    synthesized picture, whose [html] is the string of that entry, and
    whose [text] is the string of the first [text/plain] entry with a
    non-empty string, if there is one. *)
Theorem file_and_html_both_kept (h : host) (evt : Event) (dt : DataTransfer)
    (its : list Item) (sched : list nat) (item : Item) (f : File)
    (s svg : str) :
  source_of evt = Some dt -> items dt = Some its ->
  retrievals_complete its -> covers (length (text_entries its)) sched ->
  In item its -> is_image_file item = true ->
  getAsFile item = Some (Some f) ->
  first_string (lit "text/html") its = Some s ->
  extractFirstSvgFromHtml h s = Normal (Some svg) -> svg <> [] ->
  exists r,
    getPastedData h evt sched = Fulfilled r
    /\ In f (files r)
    /\ In (fileFromSvgText (now h 0) svg None) (files r)
    /\ html r = Some s
    /\ text r = first_string (lit "text/plain") its.
Proof.
  intros Hsrc Hits Hcomplete Hcov Hin Hfile Hf Hfirst Hsvg Hne.
  destruct (getPastedData_items h evt dt its sched Hsrc Hits Hcomplete Hcov)
    as (r & Hr & Hrun).
  destruct (select_and_extract_fields _ _ _ _ Hr) as (Hhtml & Htext & extra & Hfiles).
  rewrite (find_entry_first_string _ _ html_item_is_text) in Hhtml.
  rewrite (find_entry_first_string _ _ plain_item_is_text) in Htext.
  assert (Husable : negb (Nat.eqb (length its) 0) && usable r = true).
  { apply andb_true_iff. split.
    - destruct its; [destruct Hin|reflexivity].
    - unfold usable. rewrite Hhtml, Hfirst. cbn [truthy_opt].
      rewrite (first_string_truthy _ _ _ Hfirst). now rewrite orb_true_r. }
  rewrite Husable in Hrun.
  exists r. split; [exact Hrun|].
  split; [rewrite Hfiles; apply in_or_app; left;
          eapply passed_files_in; eauto|].
  split; [|split; [congruence|exact Htext]].
  revert Hr. unfold select_and_extract.
  rewrite (find_entry_first_string _ _ html_item_is_text), Hfirst.
  unfold_bind. rewrite Hsvg.
  assert (Ht : truthy_opt (Some svg) = true)
    by (destruct svg; [contradiction|reflexivity]).
  rewrite Ht. cbn [value_of].
  set (st1 := push_svg h (passed_files its, 0%nat) svg).
  assert (Hst1 : In (fileFromSvgText (now h 0) svg None) st1.1)
    by (unfold st1, push_svg; cbn [fst snd]; apply in_or_app; right; now left).
  destruct (or_null _) as [text'|].
  - destruct (push_from_plain h st1 text') as [st2|] eqn:E; [|discriminate].
    intros Hr. apply Normal_inj in Hr. subst r. cbn [files].
    apply push_from_plain_appends in E as [->|[svg' ->]]; [exact Hst1|].
    unfold push_svg at 1. cbn [fst]. apply in_or_app. now left.
  - intros Hr. apply Normal_inj in Hr. subst r. exact Hst1.
Qed.

Lemma file_and_html_both_kept_witness :
  exists r,
    getPastedData Fixture.chromium
      (Fixture.paste_event (Some file_and_html) [] []) [0%nat] = Fulfilled r
    /\ In png_file (files r)
    /\ In (fileFromSvgText (now Fixture.chromium 0) Fixture.rect_svg_text None)
         (files r)
    /\ html r = Some Fixture.rect_svg_text
    /\ text r = first_string (lit "text/plain") file_and_html.
Proof.
  eapply (file_and_html_both_kept Fixture.chromium
            (Fixture.paste_event (Some file_and_html) [] []) _ file_and_html
            [0%nat] (Fixture.file_item (lit "image/png") png_file) png_file
            Fixture.rect_svg_text Fixture.rect_svg_text).
  - reflexivity.
  - reflexivity.
  - repeat constructor; try (intros _; eexists; reflexivity).
    vm_compute. discriminate.
  - intros i Hi. vm_compute in Hi.
    assert (i = 0%nat) as -> by lia. now left.
  - now left.
  - vm_compute. reflexivity.
  - reflexivity.
  - vm_compute. reflexivity.
  - vm_compute. reflexivity.
  - discriminate.
Defined.

(** ** Where the source departs from its specification *)

(** The [getData] path synthesizes at most one file. *)
Lemma getDataPath_at_most_one (h : host) (dt : DataTransfer) (r : Result) :
  getDataPath h dt = Normal r -> (length (files r) <= 1)%nat.
Proof.
  unfold getDataPath.
  destruct (getDataSafe_total dt (lit "text/html")) as [html0 ->].
  destruct (getDataSafe_total dt (lit "text/plain")) as [p ->].
  unfold_bind.
  destruct (if truthy p then Normal p else getDataSafe dt (lit "text"))
    as [plain|]; [|discriminate].
  destruct (if truthy html0 then extractFirstSvgFromHtml h html0 else Normal None)
    as [svg|]; [|discriminate].
  destruct (truthy_opt svg); cbn [negb].
  - rewrite andb_false_r. intros H. apply Normal_inj in H. subst r.
    cbn. lia.
  - rewrite andb_true_r. destruct (truthy plain).
    + destruct (push_from_plain h ([], 0%nat) plain) as [st2|] eqn:E;
        [|discriminate].
      intros H. apply Normal_inj in H. subst r. cbn [files].
      apply push_from_plain_appends in E as [->|[svg' ->]]; cbn; lia.
    + intros H. apply Normal_inj in H. subst r. cbn. lia.
Qed.

(** On the items path, an HTML entry and a plain-text entry that each
    hold a picture give two synthesized files, on every host. *)
Lemma items_path_two_files (h : host) (evt : Event) (dt : DataTransfer)
    (its : list Item) (sched : list nat) (s t svg inline : str) :
  source_of evt = Some dt -> items dt = Some its ->
  retrievals_complete its -> covers (length (text_entries its)) sched ->
  passed_files its = [] ->
  first_string (lit "text/html") its = Some s ->
  first_string (lit "text/plain") its = Some t ->
  extractFirstSvgFromHtml h s = Normal (Some svg) -> svg <> [] ->
  matchInlineSvg t = Some inline ->
  exists r,
    getPastedData h evt sched = Fulfilled r
    /\ files r = [fileFromSvgText (now h 0) svg None;
                  fileFromSvgText (now h 1) inline None].
Proof.
  intros Hsrc Hits Hcomplete Hcov Hnone Hs Ht Hsvg Hne Hinline.
  destruct (getPastedData_items h evt dt its sched Hsrc Hits Hcomplete Hcov)
    as (r & Hr & Hrun).
  assert (Hfiles : files r = [fileFromSvgText (now h 0) svg None;
                              fileFromSvgText (now h 1) inline None]).
  { revert Hr. unfold select_and_extract.
    rewrite (find_entry_first_string _ _ html_item_is_text), Hs.
    rewrite (find_entry_first_string _ _ plain_item_is_text), Ht.
    unfold_bind. rewrite Hsvg, Hnone.
    assert (Hsvg_t : truthy_opt (Some svg) = true)
      by (destruct svg; [contradiction|reflexivity]).
    rewrite Hsvg_t. unfold push_from_plain. rewrite Hinline.
    pose proof (matchInlineSvg_nonempty _ _ Hinline) as Hi.
    assert (Hin_t : truthy_opt (Some inline) = true)
      by (destruct inline; [contradiction|reflexivity]).
    rewrite Hin_t. intros H. apply Normal_inj in H. now subst r. }
  exists r. split; [|exact Hfiles].
  rewrite Hrun.
  replace (negb (Nat.eqb (length its) 0) && usable r) with true; [reflexivity|].
  symmetry. apply andb_true_iff. split.
  - destruct its; [discriminate Hs|reflexivity].
  - unfold usable. now rewrite Hfiles.
Qed.

(** C1, at the failing input. From a [text/html] entry and a
    [text/plain] entry that each hold a picture, the items path makes
    two files, one per entry; from the same two strings the [getData]
    path makes one, from the HTML. *)
Theorem items_path_synthesizes_twice :
  (exists r,
     getPastedData Fixture.chromium
       (Fixture.paste_event (Some two_sources) [] []) [0; 1]%nat = Fulfilled r
     /\ map file_text (files r)
        = [Fixture.rect_svg_text; Fixture.circle_svg_text])
  /\ (exists r,
        getPastedData Fixture.chromium
          (Fixture.paste_event None Fixture.rect_svg_text
             Fixture.circle_svg_text) [] = Fulfilled r
        /\ map file_text (files r) = [Fixture.rect_svg_text]).
Proof.
  split; eexists; split; vm_compute; reflexivity.
Qed.

(** The test on the items is true of every non-empty list. *)
Lemma canUseItems_ignores_capabilities (its : list Item) :
  Value.to_boolean (canUseItems its) = true <-> its <> [].
Proof.
  rewrite canUseItems_nonempty. destruct its; cbn; split; congruence.
Qed.

(** C2, at the failing input. A list whose only entry offers neither
    [getAsFile] nor [getAsString] passes the test on the items; the
    items path runs, and the promise of [getPastedData] never settles,
    whatever [getData] holds. *)
Theorem items_path_without_capability :
  Value.to_boolean (canUseItems [bare_item]) = true
  /\ forall (h : host) (html plain : str) (sched : list nat),
       getPastedData h (Fixture.paste_event (Some [bare_item]) html plain) sched
       = Pending.
Proof.
  split; [vm_compute; reflexivity|].
  intros h html plain sched. unfold getPastedData.
  cbn [source_of Fixture.paste_event clipboardData Fixture.data_transfer items].
  rewrite canUseItems_nonempty. cbn [length Nat.eqb negb].
  unfold extractFromItems. rewrite scan_items.
  rewrite (promise_all_pending _ sched 0%nat); [reflexivity|].
  vm_compute. reflexivity.
Qed.

(** C4, at the failing input. The base64 data URL of a picture with a
    non-ASCII character decodes, where [atob] is defined, to the octets
    of its UTF-8 form, one code unit each, and not to the picture. *)
Theorem base64_octets_not_text :
  exists url,
    base64_data_url [] accented_svg = Some url
    /\ decodeSvgDataUrl Fixture.chromium url = Normal (Some accented_svg_octets)
    /\ accented_svg_octets <> accented_svg.
Proof.
  eexists. split; [vm_compute; reflexivity|].
  split; [vm_compute; reflexivity|].
  vm_compute. discriminate.
Qed.

(** ** Percent-encoding round trip *)

Ltac Zify.zify_post_hook ::= Z.to_euclidean_division_equations.

(** Decide the comparisons of the goal and leave the arithmetic to
    [lia]. *)
Ltac compare_all :=
  repeat match goal with
         | |- context [?a <=? ?b] => destruct (N.leb_spec a b); try lia
         | |- context [?a <? ?b] => destruct (N.ltb_spec a b); try lia
         | |- context [?a =? ?b] => destruct (N.eqb_spec a b); try lia
         end.

Lemma hex_digit_val (n : N) : n < 16 -> Uri.hex_val (Uri.hex_digit n) = Some n.
Proof.
  intros H. unfold Uri.hex_digit, Uri.hex_val.
  compare_all; cbn [andb]; f_equal; lia.
Qed.

Lemma escape_byte_percent (b : N) (t : str) :
  b < 256 -> Uri.escape_byte (Uri.percent b ++ t) = Some (b, t).
Proof.
  intros Hb. unfold Uri.percent, Uri.escape_byte. cbn [app].
  rewrite !hex_digit_val by lia. f_equal. f_equal. lia.
Qed.

Lemma decode_from_skip (l t : str) :
  Uri.decode_from (length l) (l ++ t) = Uri.decode_from 0 t.
Proof.
  induction l as [|c l IH]; [reflexivity|].
  cbn [length app Uri.decode_from]. exact IH.
Qed.

Lemma percent_length (b : N) : length (Uri.percent b) = 3%nat.
Proof. reflexivity. Qed.

Lemma utf8_code_point_2 (v : N) :
  0x80 <= v < 0x800 ->
  Uri.utf8_code_point (0xC0 + v / 64) [0x80 + v mod 64] = Some v.
Proof.
  intros Hv. unfold Uri.utf8_code_point, Uri.is_continuation. cbn [forallb].
  replace ((0xC0 + v / 64 - 0xC0) * 64 + (0x80 + v mod 64 - 0x80)) with v
    by lia.
  compare_all; reflexivity.
Qed.

Lemma utf8_code_point_3 (v : N) :
  0x800 <= v < 0x10000 -> ~ (0xD800 <= v <= 0xDFFF) ->
  Uri.utf8_code_point (0xE0 + v / 4096)
    [0x80 + (v / 64) mod 64; 0x80 + v mod 64] = Some v.
Proof.
  intros Hv Hs. unfold Uri.utf8_code_point, Uri.is_continuation. cbn [forallb].
  replace ((0xE0 + v / 4096 - 0xE0) * 4096 + (0x80 + (v / 64) mod 64 - 0x80) * 64
           + (0x80 + v mod 64 - 0x80)) with v by lia.
  compare_all; reflexivity.
Qed.

Lemma utf8_code_point_4 (v : N) :
  0x10000 <= v < 0x110000 ->
  Uri.utf8_code_point (0xF0 + v / 262144)
    [0x80 + (v / 4096) mod 64; 0x80 + (v / 64) mod 64; 0x80 + v mod 64]
  = Some v.
Proof.
  intros Hv. unfold Uri.utf8_code_point, Uri.is_continuation. cbn [forallb].
  replace ((0xF0 + v / 262144 - 0xF0) * 262144
           + (0x80 + (v / 4096) mod 64 - 0x80) * 4096
           + (0x80 + (v / 64) mod 64 - 0x80) * 64
           + (0x80 + v mod 64 - 0x80)) with v by lia.
  compare_all; reflexivity.
Qed.

Lemma decode_escape_escaped (v : N) (t : str) :
  scalar_value v ->
  Uri.decode_escape (escaped v ++ t)
  = Some (Uri.utf16_encode v, length (escaped v)).
Proof.
  intros [Hmax Hsur]. unfold escaped, Uri.utf8_encode.
  destruct (N.ltb_spec v 0x80) as [H1|H1];
    [|destruct (N.ltb_spec v 0x800) as [H2|H2];
      [|destruct (N.ltb_spec v 0x10000) as [H3|H3]]];
    cbn [map concat]; rewrite ?app_nil_r, <- ?app_assoc;
    unfold Uri.decode_escape.
  - rewrite escape_byte_percent by lia.
    unfold Uri.sequence_length, Uri.utf16_encode. compare_all. reflexivity.
  - rewrite escape_byte_percent by lia.
    assert (Hlen : Uri.sequence_length (0xC0 + v / 64) = Some 2%nat)
      by (unfold Uri.sequence_length; compare_all; reflexivity).
    rewrite Hlen. cbn [Uri.escape_bytes].
    rewrite escape_byte_percent by lia.
    rewrite utf8_code_point_2 by lia. reflexivity.
  - rewrite escape_byte_percent by lia.
    assert (Hlen : Uri.sequence_length (0xE0 + v / 4096) = Some 3%nat)
      by (unfold Uri.sequence_length; compare_all; reflexivity).
    rewrite Hlen. cbn [Uri.escape_bytes].
    rewrite !escape_byte_percent by lia.
    rewrite utf8_code_point_3 by (auto; lia). reflexivity.
  - rewrite escape_byte_percent by lia.
    assert (Hlen : Uri.sequence_length (0xF0 + v / 262144) = Some 4%nat)
      by (unfold Uri.sequence_length; compare_all; reflexivity).
    rewrite Hlen. cbn [Uri.escape_bytes].
    rewrite !escape_byte_percent by lia.
    rewrite utf8_code_point_4 by lia. reflexivity.
Qed.

Lemma escaped_head (v : N) : exists rest, escaped v = 37 :: rest.
Proof.
  unfold escaped, Uri.utf8_encode.
  destruct (v <? 0x80); [|destruct (v <? 0x800); [|destruct (v <? 0x10000)]];
    cbn [map concat Uri.percent app]; eauto.
Qed.

Lemma unreserved_small (v : N) :
  Uri.is_unreserved v = true -> 33 <= v < 128 /\ v <> 37.
Proof.
  unfold Uri.is_unreserved. intros H.
  apply orb_true_iff in H as [H|H];
    [apply orb_true_iff in H as [H|H];
     [apply orb_true_iff in H as [H|H]|]|].
  - apply andb_true_iff in H as [H1 H2].
    apply N.leb_le in H1, H2. lia.
  - apply andb_true_iff in H as [H1 H2].
    apply N.leb_le in H1, H2. lia.
  - apply andb_true_iff in H as [H1 H2].
    apply N.leb_le in H1, H2. lia.
  - apply existsb_exists in H as (c & Hc & E). apply N.eqb_eq in E. subst c.
    vm_compute in Hc. intuition lia.
Qed.

(** Decoding what [encodeURIComponent] writes for one code point gives
    the code units of that code point. *)
Lemma decode_from_encoded (v : N) (t : str) :
  scalar_value v ->
  Uri.decode_from 0 (Uri.encode_code_point v ++ t)
  = cbind (Uri.decode_from 0 t) (fun r => Normal (Uri.utf16_encode v ++ r)).
Proof.
  intros Hv. unfold Uri.encode_code_point.
  destruct (Uri.is_unreserved v) eqn:Eu.
  - apply unreserved_small in Eu as [[_ Hsmall] Hne].
    cbn [app Uri.decode_from].
    destruct (N.eqb_spec v 37); [contradiction|].
    unfold Uri.utf16_encode. destruct (N.ltb_spec v 0x10000); [reflexivity|lia].
  - fold (escaped v).
    pose proof (decode_escape_escaped v t Hv) as Hd.
    destruct (escaped_head v) as [rest Er]. rewrite Er in *.
    cbn [app Uri.decode_from]. cbn [app] in Hd. rewrite Hd.
    cbn [N.eqb Pos.eqb length Nat.sub]. rewrite Nat.sub_0_r.
    now rewrite decode_from_skip.
Qed.

Lemma decode_from_concat (cps : list N) :
  Forall scalar_value cps ->
  Uri.decode_from 0 (concat (map Uri.encode_code_point cps))
  = Normal (concat (map Uri.utf16_encode cps)).
Proof.
  induction 1 as [|v cps Hv _ IH]; [reflexivity|].
  cbn [map concat]. rewrite decode_from_encoded by exact Hv.
  now rewrite IH.
Qed.

(** The code points of a string of code units are scalar values, and
    their UTF-16 form is the string. *)
Lemma code_points_utf16 (n : nat) :
  forall s cps,
    (length s <= n)%nat -> Forall code_unit s ->
    Uri.code_points s = Some cps ->
    Forall scalar_value cps /\ concat (map Uri.utf16_encode cps) = s.
Proof.
  unfold code_unit, scalar_value.
  induction n as [|n IH]; intros s cps Hlen Hs.
  - destruct s; [|cbn in Hlen; lia]. intros [= <-]. split; constructor.
  - destruct s as [|c s]; [intros [= <-]; split; constructor|].
    apply Forall_cons in Hs as [Hc Hs]. cbn [Uri.code_points].
    destruct ((0xD800 <=? c) && (c <=? 0xDBFF)) eqn:Ehi.
    + apply andb_true_iff in Ehi as [H1 H2]. apply N.leb_le in H1, H2.
      destruct s as [|d s]; [discriminate|].
      apply Forall_cons in Hs as [Hd Hs].
      destruct ((0xDC00 <=? d) && (d <=? 0xDFFF)) eqn:Elo; [|discriminate].
      apply andb_true_iff in Elo as [H3 H4]. apply N.leb_le in H3, H4.
      destruct (Uri.code_points s) as [r|] eqn:Er; [|discriminate].
      intros [= <-].
      destruct (IH s r) as [Hr Hcat]; auto; [cbn in Hlen; lia|].
      split; [constructor; [lia|exact Hr]|].
      cbn [map concat]. rewrite Hcat. unfold Uri.utf16_encode.
      destruct (N.ltb_spec (0x10000 + (c - 0xD800) * 1024 + (d - 0xDC00)) 0x10000);
        [lia|].
      cbn [app]. f_equal; [lia|]. f_equal. lia.
    + apply andb_false_iff in Ehi.
      destruct ((0xDC00 <=? c) && (c <=? 0xDFFF)) eqn:Elo; [discriminate|].
      apply andb_false_iff in Elo.
      destruct (Uri.code_points s) as [r|] eqn:Er; [|discriminate].
      intros [= <-].
      destruct (IH s r) as [Hr Hcat]; auto; [cbn in Hlen; lia|].
      assert (Hns : ~ (0xD800 <= c <= 0xDFFF)).
      { intros [Ha Hb].
        destruct Ehi as [E|E], Elo as [E'|E'];
          apply N.leb_gt in E; apply N.leb_gt in E'; lia. }
      split; [constructor; [split; [lia|exact Hns]|exact Hr]|].
      cbn [map concat]. rewrite Hcat. unfold Uri.utf16_encode.
      destruct (N.ltb_spec c 0x10000); [reflexivity|lia].
Qed.

(** [decodeURIComponent] undoes [encodeURIComponent]. *)
Lemma decode_encode_component (s enc : str) :
  Forall code_unit s ->
  Uri.encodeURIComponent s = Normal enc ->
  Uri.decodeURIComponent enc = Normal s.
Proof.
  intros Hs. unfold Uri.encodeURIComponent, Uri.decodeURIComponent.
  destruct (Uri.code_points s) as [cps|] eqn:E; [|discriminate].
  intros H. apply Normal_inj in H. subst enc.
  destruct (code_points_utf16 (length s) s cps) as [Hv Hcat]; auto.
  now rewrite decode_from_concat, Hcat.
Qed.

(** ** The pattern of [decodeSvgDataUrl] *)

Lemma star_greedy_run {R : Type} (ic : bool) (a : Re.atom) (q rest : str)
    (pos : nat) (cs : Re.captures) (k : @Re.cont R) (x : R) :
  Forall (fun c => Re.atom_matches ic a c = true) q ->
  match rest with
  | c :: _ => Re.atom_matches ic a c = false
  | [] => True
  end ->
  k (pos + length q)%nat rest cs = Some x ->
  Re.star_greedy ic a pos (q ++ rest) cs k = Some x.
Proof.
  intros Hq Hrest. revert pos.
  induction Hq as [|c q Hc _ IH]; intros pos Hk.
  - rewrite Nat.add_0_r in Hk. cbn [app].
    destruct rest as [|c rest]; cbn [Re.star_greedy]; [exact Hk|].
    now rewrite Hrest.
  - cbn [app Re.star_greedy]. rewrite Hc.
    rewrite (IH (S pos)); [reflexivity|].
    cbn [length] in Hk. now rewrite Nat.add_succ_r in Hk.
Qed.

Lemma not_comma_matches (c : N) :
  c <> 44 -> Re.atom_matches true (Re.ASet true [Re.CChar 44]) c = true.
Proof.
  intros Hc. cbn [Re.atom_matches existsb Re.item_matches].
  rewrite canonicalize_lower by lia. unfold ascii_lower.
  destruct (N.leb_spec 65 c), (N.leb_spec c 90); cbn [andb];
    match goal with
    | |- context [?a =? 44] => destruct (N.eqb_spec a 44); [lia|reflexivity]
    end.
Qed.

Lemma comma_does_not_match :
  Re.atom_matches true (Re.ASet true [Re.CChar 44]) 44 = false.
Proof. reflexivity. Qed.

Lemma run_payload (pos pos0 : nat) (s0 payload : str) (cs : Re.captures) :
  Forall (fun c => is_line_terminator c = false) payload ->
  Re.run true re_payload pos (44 :: payload) cs (report pos0 s0)
  = Some {| Re.matched := take (S pos + length payload - pos0) s0;
            Re.groups := (2%nat, payload) :: cs |}.
Proof.
  intros Hp. unfold re_payload. cbn [Re.run].
  replace (Re.atom_matches true (Re.ALit 44) 44) with true by reflexivity.
  rewrite <- (app_nil_r payload) at 1.
  erewrite star_greedy_run; [reflexivity| |exact I|].
  - eapply List.Forall_impl; [|exact Hp]. intros c Hc. cbn. now rewrite Hc.
  - cbn beta. unfold report. cbn [Re.run].
    replace (S pos + length payload - S pos)%nat with (length payload) by lia.
    now rewrite firstn_all.
Qed.

(** How the pattern reads a data URL: group 1 is the parameters, group
    2 the payload. *)
Lemma data_url_groups (mime params payload : str) :
  map ascii_lower mime = svg_mime -> url_params params ->
  Forall (fun c => is_line_terminator c = false) payload ->
  exists m,
    Re.exec true re_data_url (mime ++ params ++ 44 :: payload) = Some m
    /\ group_or_empty 1 m = params /\ group_or_empty 2 m = payload.
Proof.
  intros Hmime Hparams Hpayload.
  assert (E : lits_rest true svg_mime (mime ++ params ++ 44 :: payload)
              = Some (params ++ 44 :: payload))
    by (apply (lits_rest_lower _ _ _ svg_mime_lower); eauto).
  assert (Hrun : Re.exec true re_data_url (mime ++ params ++ 44 :: payload)
    = Re.run true
        (Re.RSeq
           (Re.ROpt
              (Re.RGroup 1
                 (Re.RSeq (Re.RAtom (Re.ALit 59))
                    (Re.RStar true (Re.ASet true [Re.CChar 44])))))
           re_payload)
        (0 + length svg_mime) (params ++ 44 :: payload) []
        (report 0 (mime ++ params ++ 44 :: payload))).
  { unfold re_data_url. rewrite exec_bol. unfold Re.match_at.
    cbn [Re.run Nat.eqb]. rewrite run_lits, E. reflexivity. }
  rewrite Hrun. clear Hrun E. cbn [Re.run].
  destruct Hparams as [->|(q & -> & Hq)]; cbn [app].
  - replace (Re.atom_matches true (Re.ALit 59) 44) with false by reflexivity.
    rewrite run_payload by exact Hpayload.
    eexists. split; [reflexivity|]. split; reflexivity.
  - replace (Re.atom_matches true (Re.ALit 59) 59) with true by reflexivity.
    erewrite star_greedy_run;
      [| eapply List.Forall_impl; [|exact Hq]; intros c Hc;
         now apply not_comma_matches
       | exact comma_does_not_match
       | cbn beta; apply run_payload; exact Hpayload ].
    eexists. split; [reflexivity|].
    unfold group_or_empty. cbn [Re.groups Re.capture Nat.eqb].
    split; [|reflexivity].
    replace (S (0 + length svg_mime) + length q - (0 + length svg_mime))%nat
      with (S (length q)) by lia.
    cbn [take]. f_equal. now rewrite take_app_length.
Qed.

Lemma hex_digit_range (n : N) : n < 16 -> 48 <= Uri.hex_digit n <= 70.
Proof. intros H. unfold Uri.hex_digit. compare_all. Qed.

Lemma percent_chars (b : N) :
  b < 256 -> Forall (fun c => 33 <= c < 128) (Uri.percent b).
Proof.
  intros Hb. unfold Uri.percent.
  pose proof (hex_digit_range (b / 16)). pose proof (hex_digit_range (b mod 16)).
  repeat constructor; lia.
Qed.

Lemma encode_code_point_chars (v : N) :
  scalar_value v -> Forall (fun c => 33 <= c < 128) (Uri.encode_code_point v).
Proof.
  intros [Hmax _]. unfold Uri.encode_code_point.
  destruct (Uri.is_unreserved v) eqn:Eu.
  - apply unreserved_small in Eu as [Hr _]. now repeat constructor.
  - unfold Uri.utf8_encode.
    destruct (N.ltb_spec v 0x80);
      [|destruct (N.ltb_spec v 0x800); [|destruct (N.ltb_spec v 0x10000)]];
      cbn [map concat]; rewrite ?app_nil_r;
      repeat (apply Forall_app; split); apply percent_chars; lia.
Qed.

Lemma encoded_chars (s enc : str) :
  Forall code_unit s -> Uri.encodeURIComponent s = Normal enc ->
  Forall (fun c => 33 <= c < 128) enc.
Proof.
  intros Hs. unfold Uri.encodeURIComponent.
  destruct (Uri.code_points s) as [cps|] eqn:E; [|discriminate].
  intros H. apply Normal_inj in H. subst enc.
  destruct (code_points_utf16 (length s) s cps) as [Hv _]; auto.
  clear E Hs. induction Hv as [|v cps Hv _ IH]; [constructor|].
  cbn [map concat]. apply Forall_app. split; [|exact IH].
  now apply encode_code_point_chars.
Qed.

Lemma printable_not_line_terminator (l : str) :
  Forall (fun c => 33 <= c < 128) l ->
  Forall (fun c => is_line_terminator c = false) l.
Proof.
  apply List.Forall_impl. intros c Hc. unfold is_line_terminator.
  compare_all; reflexivity.
Qed.

(** The percent-encoded round trip of C4: for a string of code units
    without a lone surrogate, the data URL built with
    [encodeURIComponent], with any parameters that hold no comma and do
    not name base64, decodes to the string, on every host. *)
Theorem percent_round_trip (h : host) (params svg url : str) :
  Forall code_unit svg -> url_params params ->
  Re.test true re_base64 params = false ->
  percent_data_url params svg = Normal url ->
  decodeSvgDataUrl h url = Normal (Some svg).
Proof.
  intros Hsvg Hparams Hb64. unfold percent_data_url. unfold_bind.
  destruct (Uri.encodeURIComponent svg) as [enc|] eqn:Eenc; [|discriminate].
  intros H. apply Normal_inj in H. subst url.
  assert (Hmime : map ascii_lower svg_mime = svg_mime)
    by (vm_compute; reflexivity).
  assert (Hpay : Forall (fun c => is_line_terminator c = false) enc)
    by (apply printable_not_line_terminator; eapply encoded_chars; eauto).
  destruct (data_url_groups svg_mime params enc Hmime Hparams Hpay)
    as (m & Hm & H1 & H2).
  unfold decodeSvgDataUrl.
  change (svg_mime ++ params ++ lit "," ++ enc)
    with (svg_mime ++ params ++ 44 :: enc).
  rewrite Hm. cbv zeta.
  rewrite H1, H2, Hb64.
  rewrite (decode_encode_component svg enc Hsvg Eenc). reflexivity.
Qed.

(** ** Base64 round trip *)

Lemma list_induction_3 {A} (P : list A -> Prop) :
  P [] -> (forall a, P [a]) -> (forall a b, P [a; b]) ->
  (forall a b c l, P l -> P (a :: b :: c :: l)) ->
  forall l, P l.
Proof.
  intros H0 H1 H2 H3. fix IH 1.
  intros [|a [|b [|c l]]];
    [exact H0|apply H1|apply H2|apply H3; apply IH].
Qed.

Lemma encode_split (bs : list N) :
  Base64.encode bs = map Base64.alphabet (sextets_of bs) ++ padding bs.
Proof.
  induction bs as [|a|a b|a b c l IH] using list_induction_3; try reflexivity.
  cbn [Base64.encode sextets_of padding map app]. now rewrite IH.
Qed.

Lemma sextet_alphabet (v : N) :
  v < 64 -> Base64.sextet (Base64.alphabet v) = Some v.
Proof.
  intros Hv. unfold Base64.alphabet, Base64.sextet.
  compare_all; cbn [andb]; f_equal; lia.
Qed.

Lemma alphabet_range (v : N) :
  v < 64 -> 43 <= Base64.alphabet v < 128 /\ Base64.alphabet v <> 61.
Proof. intros Hv. unfold Base64.alphabet. compare_all. Qed.

Lemma sextets_alphabet (vs : list N) :
  Forall (fun v => v < 64) vs ->
  Base64.sextets (map Base64.alphabet vs) = Some vs.
Proof.
  induction 1 as [|v vs Hv _ IH]; [reflexivity|].
  cbn [map Base64.sextets]. now rewrite sextet_alphabet, IH.
Qed.

Lemma sextets_of_range (bs : list N) :
  Forall octet bs -> Forall (fun v => v < 64) (sextets_of bs).
Proof.
  unfold octet.
  induction bs as [|a|a b|a b c l IH] using list_induction_3; intros H;
    cbn [sextets_of].
  - constructor.
  - apply Forall_cons in H as [Ha _]. repeat constructor; lia.
  - apply Forall_cons in H as [Ha H]. apply Forall_cons in H as [Hb _].
    repeat constructor; lia.
  - apply Forall_cons in H as [Ha H]. apply Forall_cons in H as [Hb H].
    apply Forall_cons in H as [Hc H].
    repeat (constructor; [lia|]). now apply IH.
Qed.

Lemma octets_sextets_of (bs : list N) :
  Forall octet bs -> Base64.octets (sextets_of bs) = bs.
Proof.
  unfold octet.
  induction bs as [|a|a b|a b c l IH] using list_induction_3; intros H;
    cbn [sextets_of Base64.octets].
  - reflexivity.
  - apply Forall_cons in H as [Ha _]. f_equal. lia.
  - apply Forall_cons in H as [Ha H]. apply Forall_cons in H as [Hb _].
    f_equal; [lia|]. f_equal. lia.
  - apply Forall_cons in H as [Ha H]. apply Forall_cons in H as [Hb H].
    apply Forall_cons in H as [Hc H].
    rewrite (IH H). f_equal; [lia|]. f_equal; [lia|]. f_equal. lia.
Qed.

(** The sextets come in fours, but for a last group of two or three
    that the padding completes. *)
Lemma sextets_of_length (bs : list N) :
  (length (sextets_of bs) mod 4 <> 1)%nat
  /\ ((length (sextets_of bs) + length (padding bs)) mod 4 = 0)%nat
  /\ (length (padding bs) <= 2)%nat
  /\ (padding bs = [] \/ padding bs = [61] \/ padding bs = [61; 61])
  /\ (padding bs <> [] -> sextets_of bs <> []).
Proof.
  induction bs as [|a|a b|a b c l IH] using list_induction_3;
    cbn [sextets_of padding length].
  - split; [vm_compute; lia|]. split; [reflexivity|]. split; [cbn; lia|].
    split; [now left|]. intros H. now contradict H.
  - split; [vm_compute; lia|]. split; [reflexivity|]. split; [cbn; lia|].
    split; [now right; right|]. intros _. discriminate.
  - split; [vm_compute; lia|]. split; [reflexivity|]. split; [cbn; lia|].
    split; [now right; left|]. intros _. discriminate.
  - destruct IH as (H1 & H2 & H3 & H4 & H5).
    split.
    { replace (S (S (S (S (length (sextets_of l))))))
        with (length (sextets_of l) + 1 * 4)%nat by lia.
      now rewrite Nat.Div0.mod_add. }
    split.
    { replace (S (S (S (S (length (sextets_of l))))) + length (padding l))%nat
        with (length (sextets_of l) + length (padding l) + 1 * 4)%nat by lia.
      now rewrite Nat.Div0.mod_add. }
    split; [exact H3|]. split; [exact H4|]. intros _. discriminate.
Qed.

Lemma last_alphabet (vs : list N) :
  Forall (fun v => v < 64) vs -> vs <> [] ->
  exists c r, rev (map Base64.alphabet vs) = c :: r /\ c <> 61.
Proof.
  intros Hvs Hne.
  destruct (rev vs) as [|v r] eqn:E.
  - apply (f_equal (@rev N)) in E. rewrite rev_involutive in E. now subst.
  - exists (Base64.alphabet v), (map Base64.alphabet r).
    rewrite <- map_rev, E. split; [reflexivity|].
    apply alphabet_range.
    assert (Hin : In v (rev vs)) by (rewrite E; now left).
    apply in_rev in Hin. rewrite List.Forall_forall in Hvs. now apply Hvs.
Qed.

Lemma strip_padding_encoded (bs : list N) :
  Forall octet bs ->
  Base64.strip_padding (map Base64.alphabet (sextets_of bs) ++ padding bs)
  = map Base64.alphabet (sextets_of bs).
Proof.
  intros Hbs. pose proof (sextets_of_range bs Hbs) as Hr.
  destruct (sextets_of_length bs) as (_ & _ & _ & Hpad & Hne).
  unfold Base64.strip_padding.
  destruct Hpad as [E|[E|E]]; rewrite E.
  - rewrite app_nil_r.
    destruct (sextets_of bs) as [|v vs] eqn:Es; [reflexivity|].
    assert (Hvs : v :: vs <> []) by discriminate.
    destruct (last_alphabet (v :: vs) Hr Hvs) as (c & r & Hrev & Hc).
    rewrite Hrev. now destruct (N.eqb_spec c 61).
  - rewrite rev_app_distr. cbn [rev app]. cbn [N.eqb Pos.eqb].
    assert (Hvs : sextets_of bs <> [])
      by (apply Hne; rewrite E; discriminate).
    destruct (last_alphabet (sextets_of bs) Hr Hvs) as (c & r & Hrev & Hc).
    rewrite Hrev. destruct (N.eqb_spec c 61); [contradiction|].
    now rewrite <- Hrev, rev_involutive.
  - rewrite rev_app_distr. cbn [rev app]. cbn [N.eqb Pos.eqb].
    apply rev_involutive.
Qed.

Lemma encoded_no_whitespace (bs : list N) :
  Forall octet bs ->
  List.filter (fun c => negb (Base64.is_ascii_whitespace c)) (Base64.encode bs)
  = Base64.encode bs.
Proof.
  intros Hbs. pose proof (sextets_of_range bs Hbs) as Hr.
  rewrite encode_split.
  assert (Hall : Forall (fun c => negb (Base64.is_ascii_whitespace c) = true)
                   (map Base64.alphabet (sextets_of bs) ++ padding bs)).
  { apply Forall_app. split.
    - apply List.Forall_map. eapply List.Forall_impl; [|exact Hr].
      intros v Hv. cbn beta. pose proof (alphabet_range v Hv).
      unfold Base64.is_ascii_whitespace. compare_all; reflexivity.
    - destruct (sextets_of_length bs) as (_ & _ & _ & [E|[E|E]] & _);
        rewrite E; repeat constructor. }
  revert Hall. generalize (map Base64.alphabet (sextets_of bs) ++ padding bs).
  induction 1 as [|c l Hc _ IH]; [reflexivity|].
  cbn [List.filter]. now rewrite Hc, IH.
Qed.

(** [atob] undoes the base64 encoding of any octets. *)
Lemma atob_encode (bs : list N) :
  Forall octet bs -> Base64.atob (Base64.encode bs) = Normal bs.
Proof.
  intros Hbs. unfold Base64.atob. cbv zeta.
  rewrite encoded_no_whitespace by exact Hbs.
  rewrite encode_split.
  destruct (sextets_of_length bs) as (H1 & H2 & _).
  rewrite length_app, length_map, H2. cbn [Nat.eqb].
  rewrite strip_padding_encoded by exact Hbs.
  rewrite length_map.
  destruct (Nat.eqb_spec (length (sextets_of bs) mod 4) 1); [contradiction|].
  rewrite sextets_alphabet by (now apply sextets_of_range).
  now rewrite octets_sextets_of.
Qed.

Lemma exec_from_finds (ic : bool) (r : Re.regex) (p s : str) (pos : nat) m :
  Re.match_at ic r (pos + length p) s = Some m ->
  exists m', Re.exec_from ic r pos (p ++ s) = Some m'.
Proof.
  revert pos; induction p as [|c p IH]; intros pos Hm.
  - rewrite Nat.add_0_r in Hm. cbn [app].
    destruct s; cbn [Re.exec_from]; rewrite Hm; eauto.
  - cbn [app Re.exec_from].
    destruct (Re.match_at ic r pos (c :: p ++ s)); [eauto|].
    apply IH. cbn [length] in Hm. now rewrite Nat.add_succ_r in Hm.
Qed.

Lemma match_at_lits (ic : bool) (l s rest : str) (pos : nat) :
  lits_rest ic l s = Some rest ->
  exists m, Re.match_at ic (Re.lits l) pos s = Some m.
Proof.
  intros H. unfold Re.match_at. rewrite run_lits, H. eauto.
Qed.

(** Parameters that end in [;base64] name base64. *)
Lemma base64_named (params : str) :
  Re.test true re_base64 (params ++ lit ";base64") = true.
Proof.
  unfold Re.test, Re.exec, re_base64.
  destruct (match_at_lits true (lit ";base64") (lit ";base64") []
              (0 + length params)) as [m Hm]; [vm_compute; reflexivity|].
  destruct (exec_from_finds true _ params _ 0 m Hm) as [m' ->].
  reflexivity.
Qed.

Lemma url_params_base64 (params : str) :
  url_params params -> url_params (params ++ lit ";base64").
Proof.
  intros [->|(q & -> & Hq)]; right.
  - exists (lit "base64"). split; [reflexivity|].
    apply List.Forall_forall. intros c Hc. vm_compute in Hc.
    intuition (subst; discriminate).
  - exists (q ++ lit ";base64"). split; [reflexivity|].
    apply Forall_app. split; [exact Hq|].
    apply List.Forall_forall. intros c Hc. vm_compute in Hc.
    intuition (subst; discriminate).
Qed.

Lemma encode_no_line_terminator (bs : list N) :
  Forall octet bs ->
  Forall (fun c => is_line_terminator c = false) (Base64.encode bs).
Proof.
  intros Hbs. rewrite encode_split. apply Forall_app. split.
  - apply List.Forall_map.
    eapply List.Forall_impl; [|exact (sextets_of_range bs Hbs)].
    intros v Hv. cbn beta. pose proof (alphabet_range v Hv).
    unfold is_line_terminator. compare_all; reflexivity.
  - destruct (sextets_of_length bs) as (_ & _ & _ & [E|[E|E]] & _);
      rewrite E; repeat constructor.
Qed.

Lemma utf8_encode_octets (v : N) :
  v < 0x110000 -> Forall octet (Uri.utf8_encode v).
Proof.
  intros Hv. unfold Uri.utf8_encode, octet.
  destruct (N.ltb_spec v 0x80);
    [|destruct (N.ltb_spec v 0x800); [|destruct (N.ltb_spec v 0x10000)]];
    repeat constructor; lia.
Qed.

Lemma utf8_bytes_octets (s : str) (bs : list N) :
  Forall code_unit s -> Uri.utf8_bytes s = Some bs -> Forall octet bs.
Proof.
  intros Hs. unfold Uri.utf8_bytes.
  destruct (Uri.code_points s) as [cps|] eqn:E; [|discriminate].
  intros [= <-].
  destruct (code_points_utf16 (length s) s cps) as [Hv _]; auto.
  clear E Hs. induction Hv as [|v cps [Hv _] _ IH]; [constructor|].
  cbn [map concat]. apply Forall_app. split; [|exact IH].
  now apply utf8_encode_octets.
Qed.

(** On the [atob] branch, a base64 data URL of a text decodes to the
    octets of its UTF-8 form, one code unit per octet. *)
Theorem base64_gives_octets (h : host) (params svg url : str) (bs : list N) :
  has_atob h = true -> (forall s, atob h s = Base64.atob s) ->
  Forall code_unit svg -> url_params params ->
  Uri.utf8_bytes svg = Some bs ->
  base64_data_url params svg = Some url ->
  decodeSvgDataUrl h url = Normal (Some bs).
Proof.
  intros Hatob Hstd Hsvg Hparams Hbs. unfold base64_data_url. rewrite Hbs.
  intros H.
  assert (E : svg_mime ++ params ++ lit ";base64," ++ Base64.encode bs = url)
    by congruence.
  subst url. clear H.
  pose proof (utf8_bytes_octets svg bs Hsvg Hbs) as Hoct.
  assert (Hmime : map ascii_lower svg_mime = svg_mime)
    by (vm_compute; reflexivity).
  destruct (data_url_groups svg_mime (params ++ lit ";base64")
              (Base64.encode bs) Hmime (url_params_base64 _ Hparams)
              (encode_no_line_terminator bs Hoct))
    as (m & Hm & H1 & H2).
  unfold decodeSvgDataUrl.
  replace (svg_mime ++ params ++ lit ";base64," ++ Base64.encode bs)
    with (svg_mime ++ (params ++ lit ";base64") ++ 44 :: Base64.encode bs)
    by (now rewrite <- app_assoc).
  rewrite Hm. cbv zeta. rewrite H1, H2, base64_named, Hatob, Hstd.
  now rewrite atob_encode.
Qed.

Lemma code_points_ascii (s : str) :
  Forall (fun c => c < 128) s -> Uri.code_points s = Some s.
Proof.
  induction 1 as [|c s Hc _ IH]; [reflexivity|].
  cbn [Uri.code_points]. rewrite IH.
  destruct (N.leb_spec 0xD800 c); [lia|]. cbn [andb].
  destruct (N.leb_spec 0xDC00 c); [lia|]. reflexivity.
Qed.

Lemma utf8_bytes_ascii (s : str) :
  Forall (fun c => c < 128) s -> Uri.utf8_bytes s = Some s.
Proof.
  intros Hs. unfold Uri.utf8_bytes. rewrite code_points_ascii by exact Hs.
  f_equal. induction Hs as [|c s Hc _ IH]; [reflexivity|].
  cbn [map concat]. rewrite IH. unfold Uri.utf8_encode.
  destruct (N.ltb_spec c 0x80); [reflexivity|lia].
Qed.

(** The base64 round trip of C4 holds for ASCII text. *)
Theorem base64_round_trip_ascii (h : host) (params svg url : str) :
  has_atob h = true -> (forall s, atob h s = Base64.atob s) ->
  Forall (fun c => c < 128) svg -> url_params params ->
  base64_data_url params svg = Some url ->
  decodeSvgDataUrl h url = Normal (Some svg).
Proof.
  intros Hatob Hstd Hsvg Hparams Hurl.
  apply (base64_gives_octets h params svg url svg); auto.
  - eapply List.Forall_impl; [|exact Hsvg]. unfold code_unit. intros; lia.
  - now apply utf8_bytes_ascii.
Qed.

Lemma utf8_encode_length (v : N) :
  (1 <= length (Uri.utf8_encode v))%nat
  /\ (128 <= v -> (2 <= length (Uri.utf8_encode v))%nat)
  /\ (0x10000 <= v -> length (Uri.utf8_encode v) = 4%nat).
Proof.
  unfold Uri.utf8_encode.
  destruct (N.ltb_spec v 0x80);
    [|destruct (N.ltb_spec v 0x800); [|destruct (N.ltb_spec v 0x10000)]];
    cbn [length]; repeat split; intros; lia.
Qed.

(** The UTF-8 form is never shorter than the text, and is longer when
    the text has a code unit outside ASCII. *)
Lemma utf8_longer (n : nat) :
  forall s cps,
    (length s <= n)%nat -> Uri.code_points s = Some cps ->
    (length s <= length (concat (map Uri.utf8_encode cps)))%nat
    /\ (Exists (fun c => 128 <= c) s ->
        (length s < length (concat (map Uri.utf8_encode cps)))%nat).
Proof.
  induction n as [|n IH]; intros s cps Hlen.
  - destruct s; [|cbn in Hlen; lia]. intros [= <-].
    split; [reflexivity|]. intros H. inversion H.
  - destruct s as [|c s].
    { intros [= <-]. split; [reflexivity|]. intros H. inversion H. }
    cbn [Uri.code_points].
    destruct ((0xD800 <=? c) && (c <=? 0xDBFF)) eqn:Ehi.
    + destruct s as [|d s]; [discriminate|].
      destruct ((0xDC00 <=? d) && (d <=? 0xDFFF)); [|discriminate].
      destruct (Uri.code_points s) as [r|] eqn:Er; [|discriminate].
      intros [= <-]. destruct (IH s r) as [Hle _]; auto; [cbn in Hlen; lia|].
      cbn [map concat]. rewrite length_app.
      destruct (utf8_encode_length (0x10000 + (c - 0xD800) * 1024 + (d - 0xDC00)))
        as (_ & _ & H4).
      rewrite H4 by lia. cbn [length]. split; [lia|]. intros _. lia.
    + destruct ((0xDC00 <=? c) && (c <=? 0xDFFF)); [discriminate|].
      destruct (Uri.code_points s) as [r|] eqn:Er; [|discriminate].
      intros [= <-]. destruct (IH s r) as [Hle Hlt]; auto; [cbn in Hlen; lia|].
      cbn [map concat]. rewrite length_app.
      destruct (utf8_encode_length c) as (H1 & H2 & _).
      cbn [length]. split; [lia|].
      intros H. apply Exists_cons in H as [H|H].
      * specialize (H2 H). lia.
      * specialize (Hlt H). lia.
Qed.

(** Where [atob] is defined, the base64 round trip fails for every text
    with a code unit outside ASCII. *)
Theorem base64_round_trip_fails (h : host) (params svg url : str) :
  has_atob h = true -> (forall s, atob h s = Base64.atob s) ->
  Forall code_unit svg -> url_params params ->
  Exists (fun c => 128 <= c) svg ->
  base64_data_url params svg = Some url ->
  decodeSvgDataUrl h url <> Normal (Some svg).
Proof.
  intros Hatob Hstd Hsvg Hparams Hhigh Hurl.
  destruct (Uri.utf8_bytes svg) as [bs|] eqn:Ebs;
    [|unfold base64_data_url in Hurl; rewrite Ebs in Hurl; discriminate].
  rewrite (base64_gives_octets h params svg url bs); auto.
  intros H. apply Normal_inj in H. injection H as ->.
  unfold Uri.utf8_bytes in Ebs.
  destruct (Uri.code_points svg) as [cps|] eqn:Ecp; [|discriminate].
  injection Ebs as Ebs.
  destruct (utf8_longer (length svg) svg cps) as [_ Hlt]; auto.
  specialize (Hlt Hhigh). rewrite Ebs in Hlt. lia.
Qed.

(** The two round trips at the inputs of the tests: extra parameters
    before the payload, with either encoding. *)
Example round_trips_with_parameters :
  (exists url, percent_data_url extra_params path_svg = Normal url
     /\ decodeSvgDataUrl Fixture.chromium url = Normal (Some path_svg))
  /\ (exists url, base64_data_url extra_params path_svg = Some url
        /\ decodeSvgDataUrl Fixture.chromium url = Normal (Some path_svg)).
Proof.
  assert (Hascii : Forall (fun c => c < 128) path_svg).
  { apply List.Forall_forall. intros c Hc.
    assert (H : forallb (fun c => c <? 128) path_svg = true)
      by (vm_compute; reflexivity).
    rewrite forallb_forall in H. apply N.ltb_lt. now apply H. }
  assert (Hparams : url_params extra_params).
  { right. exists (lit "charset=utf-8;param=x"). split; [reflexivity|].
    apply List.Forall_forall. intros c Hc.
    assert (H : forallb (fun c => negb (c =? 44)) (lit "charset=utf-8;param=x") = true)
      by (vm_compute; reflexivity).
    rewrite forallb_forall in H. specialize (H c Hc).
    intros ->. discriminate. }
  split.
  - destruct (percent_data_url extra_params path_svg) as [url|] eqn:E;
      [|vm_compute in E; discriminate].
    exists url. split; [reflexivity|].
    assert (Hunits : Forall code_unit path_svg)
      by (eapply List.Forall_impl; [|exact Hascii];
          unfold code_unit; intros; lia).
    assert (Hplain : Re.test true re_base64 extra_params = false)
      by (vm_compute; reflexivity).
    exact (percent_round_trip Fixture.chromium extra_params path_svg url
             Hunits Hparams Hplain E).
  - destruct (base64_data_url extra_params path_svg) as [url|] eqn:E;
      [|vm_compute in E; discriminate].
    exists url. split; [reflexivity|].
    exact (base64_round_trip_ascii Fixture.chromium extra_params path_svg url
             eq_refl (fun _ => eq_refl) Hascii Hparams E).
Qed.

(** * Further properties of the source *)

(** ** What a match of the data-URL pattern looks like *)

Lemma star_greedy_split {R : Type} (ic : bool) (a : Re.atom) (s : str)
    (pos : nat) (cs : Re.captures) (k : @Re.cont R) (x : R) :
  Re.star_greedy ic a pos s cs k = Some x ->
  exists q rest,
    s = q ++ rest
    /\ Forall (fun c => Re.atom_matches ic a c = true) q
    /\ k (pos + length q)%nat rest cs = Some x.
Proof.
  revert pos; induction s as [|c s IH]; intros pos; cbn [Re.star_greedy].
  - intros H. exists [], []. rewrite Nat.add_0_r. repeat split; auto.
  - destruct (Re.atom_matches ic a c) eqn:Ec.
    + destruct (Re.star_greedy ic a (S pos) s cs k) eqn:E.
      * intros [= ->]. apply IH in E as (q & rest & -> & Hq & Hk).
        exists (c :: q), rest. cbn [length app].
        rewrite Nat.add_succ_r. repeat split; auto.
      * intros H. exists [], (c :: s). rewrite Nat.add_0_r.
        repeat split; auto.
    + intros H. exists [], (c :: s). rewrite Nat.add_0_r. repeat split; auto.
Qed.

Lemma lit_matches_only_itself (x c : N) :
  x < 65 \/ 122 < x \/ 90 < x < 97 ->
  Re.atom_matches true (Re.ALit x) c = true -> c = x.
Proof.
  intros Hx. cbn [Re.atom_matches].
  rewrite canonicalize_lower by lia. unfold ascii_lower.
  destruct (N.leb_spec 65 c), (N.leb_spec c 90); cbn [andb];
    intros Hm; apply N.eqb_eq in Hm; lia.
Qed.

Lemma not_comma_only (c : N) :
  Re.atom_matches true (Re.ASet true [Re.CChar 44]) c = true -> c <> 44.
Proof. intros H ->. discriminate. Qed.

Lemma run_payload_inv (pos pos0 : nat) (s0 s : str) (cs : Re.captures) m :
  Re.run true re_payload pos s cs (report pos0 s0) = Some m ->
  exists payload,
    s = 44 :: payload
    /\ Forall (fun c => is_line_terminator c = false) payload
    /\ Re.groups m = (2%nat, payload) :: cs.
Proof.
  unfold re_payload. cbn [Re.run].
  destruct s as [|c s]; [discriminate|].
  destruct (Re.atom_matches true (Re.ALit 44) c) eqn:Ec; [|discriminate].
  apply lit_matches_only_itself in Ec; [|lia]. subst c.
  intros H. apply star_greedy_split in H as (q & rest & -> & Hq & Hk).
  destruct rest; [|discriminate]. unfold report in Hk.
  injection Hk as <-. exists q. rewrite app_nil_r.
  split; [reflexivity|]. split.
  - eapply List.Forall_impl; [|exact Hq]. intros c Hc. cbn in Hc.
    now destruct (is_line_terminator c).
  - cbn [Re.groups]. do 2 f_equal. apply take_ge. lia.
Qed.

(** Every match of the pattern splits the text into MIME type,
    parameters, comma and payload, and captures the last two. *)
Lemma data_url_shape (s : str) (m : Re.match_result) :
  Re.exec true re_data_url s = Some m ->
  exists mime params payload,
    data_url_parts s mime params payload
    /\ group_or_empty 1 m = params /\ group_or_empty 2 m = payload.
Proof.
  unfold re_data_url. rewrite exec_bol. unfold Re.match_at.
  cbn [Re.run Nat.eqb]. rewrite run_lits.
  destruct (lits_rest true svg_mime s) as [rest|] eqn:E; [|discriminate].
  apply (lits_rest_lower _ _ _ svg_mime_lower) in E as (mime & -> & Hmime).
  fold re_payload.
  change (fun (pos' : nat) (_ : str) (cs0 : Re.captures) =>
            Some {| Re.matched := take (pos' - 0) (mime ++ rest);
                    Re.groups := cs0 |})
    with (report 0 (mime ++ rest)).
  match goal with
  | |- match ?g with Some _ => _ | None => _ end = _ -> _ =>
      destruct g as [x|] eqn:Eg
  end.
  - intros [= ->].
    destruct rest as [|c t]; [discriminate|].
    destruct (Re.atom_matches true (Re.ALit 59) c) eqn:Ec; [|discriminate].
    apply lit_matches_only_itself in Ec; [|lia]. subst c.
    apply star_greedy_split in Eg as (q & rest & -> & Hq & Hk).
    cbn beta in Hk.
    apply run_payload_inv in Hk as (payload & -> & Hp & Hg).
    exists mime, (59 :: q), payload. unfold data_url_parts.
    split; [split; [|split; [exact Hmime|split; [|exact Hp]]]|].
    + reflexivity.
    + right. exists q. split; [reflexivity|].
      eapply List.Forall_impl; [|exact Hq]. intros c. apply not_comma_only.
    + unfold group_or_empty. rewrite Hg. cbn [Re.capture Nat.eqb].
      split; [|reflexivity].
      replace (S (0 + length svg_mime) + length q - (0 + length svg_mime))%nat
        with (S (length q)) by lia.
      cbn [take app]. f_equal. now rewrite take_app_length.
  - intros H. apply run_payload_inv in H as (payload & -> & Hp & Hg).
    exists mime, [], payload. unfold data_url_parts.
    split; [split; [reflexivity|split; [exact Hmime|split; [now left|exact Hp]]]|].
    unfold group_or_empty. rewrite Hg. split; reflexivity.
Qed.

(** On a text of that shape, [decodeSvgDataUrl] is the decoder on the
    payload, a throw turned into [null]. *)
Lemma decodeSvgDataUrl_parts (h : host) (s mime params payload : str) :
  data_url_parts s mime params payload ->
  decodeSvgDataUrl h s =
  match payload_decoder h params payload with
  | Normal r => Normal (Some r)
  | Throw => Normal None
  end.
Proof.
  intros (-> & Hmime & Hparams & Hpayload).
  destruct (data_url_groups mime params payload Hmime Hparams Hpayload)
    as (m & Hm & H1 & H2).
  unfold decodeSvgDataUrl, payload_decoder. rewrite Hm. cbv zeta.
  rewrite H1, H2. unfold_bind.
  destruct (Re.test true re_base64 params).
  - destruct (has_atob h);
      [destruct (atob h payload)|destruct (buffer_base64_utf8 h payload)];
      reflexivity.
  - destruct (Uri.decodeURIComponent payload); reflexivity.
Qed.

(** ** The data-URL codec, both ways *)

(** X1. [decodeSvgDataUrl] returns a string only for a text that
    [isSvgDataUrl] accepts and that consists of the MIME type,
    parameters without a comma, a comma and a payload without line
    terminators; the string is then what the decoder named by the
    parameters makes of the payload. *)
Theorem decoded_only_from_data_urls (h : host) (s r : str) :
  decodeSvgDataUrl h s = Normal (Some r) ->
  isSvgDataUrl s = true
  /\ exists mime params payload,
       data_url_parts s mime params payload
       /\ payload_decoder h params payload = Normal r.
Proof.
  intros H.
  assert (Hparts : exists mime params payload,
            data_url_parts s mime params payload).
  { unfold decodeSvgDataUrl in H.
    destruct (Re.exec true re_data_url s) as [m|] eqn:Em; [|discriminate].
    destruct (data_url_shape s m Em) as (mime & params & payload & Hp & _).
    eauto. }
  destruct Hparts as (mime & params & payload & Hparts).
  split.
  - destruct Hparts as (-> & Hmime & Hparams & _).
    rewrite isSvgDataUrl_unfold.
    assert (E : lits_rest true svg_mime (mime ++ params ++ 44 :: payload)
                = Some (params ++ 44 :: payload))
      by (apply (lits_rest_lower _ _ _ svg_mime_lower); eauto).
    rewrite E. destruct Hparams as [->|(q & -> & _)]; reflexivity.
  - exists mime, params, payload. split; [exact Hparts|].
    rewrite (decodeSvgDataUrl_parts h s mime params payload Hparts) in H.
    destruct (payload_decoder h params payload); [|discriminate].
    apply Normal_inj in H. congruence.
Qed.

Lemma decoded_only_from_data_urls_witness :
  decodeSvgDataUrl Fixture.chromium (lit "data:image/svg+xml,%3Csvg%3E")
  = Normal (Some (lit "<svg>"))
  /\ isSvgDataUrl (lit "data:image/svg+xml,%3Csvg%3E") = true.
Proof.
  assert (H : decodeSvgDataUrl Fixture.chromium (lit "data:image/svg+xml,%3Csvg%3E")
              = Normal (Some (lit "<svg>"))) by (vm_compute; reflexivity).
  split; [exact H|].
  exact (proj1 (decoded_only_from_data_urls _ _ _ H)).
Defined.

(** X2. A percent-encoded data URL decodes to the text it was built
    from, on every host: for every string of code units without a lone
    surrogate, with the MIME type in any ASCII case and any parameters
    that hold no comma and do not name base64. *)
Theorem percent_url_round_trip (h : host) (mime params svg enc : str) :
  map ascii_lower mime = svg_mime -> url_params params ->
  Re.test true re_base64 params = false ->
  Forall code_unit svg -> Uri.encodeURIComponent svg = Normal enc ->
  decodeSvgDataUrl h (mime ++ params ++ 44 :: enc) = Normal (Some svg).
Proof.
  intros Hmime Hparams Hplain Hsvg Henc.
  rewrite (decodeSvgDataUrl_parts h _ mime params enc).
  - unfold payload_decoder. rewrite Hplain.
    now rewrite (decode_encode_component svg enc Hsvg Henc).
  - repeat split; auto.
    apply printable_not_line_terminator. eapply encoded_chars; eauto.
Qed.

Lemma percent_url_round_trip_witness :
  exists enc,
    Uri.encodeURIComponent path_svg = Normal enc
    /\ decodeSvgDataUrl Fixture.chromium
         (lit "DATA:IMAGE/SVG+XML" ++ lit ";UTF8" ++ 44 :: enc)
       = Normal (Some path_svg).
Proof.
  destruct (Uri.encodeURIComponent path_svg) as [enc|] eqn:E;
    [|vm_compute in E; discriminate].
  exists enc. split; [reflexivity|].
  apply (percent_url_round_trip Fixture.chromium (lit "DATA:IMAGE/SVG+XML")
           (lit ";UTF8") path_svg enc).
  - vm_compute. reflexivity.
  - right. exists (lit "UTF8"). split; [reflexivity|].
    repeat constructor; discriminate.
  - vm_compute. reflexivity.
  - apply List.Forall_forall. intros c Hc.
    assert (H : forallb (fun c => c <? 65536) path_svg = true)
      by (vm_compute; reflexivity).
    rewrite forallb_forall in H. apply N.ltb_lt. now apply H.
  - exact E.
Defined.

Lemma base64_lower : Forall (fun x => x < 65 \/ 90 < x) (lit ";base64").
Proof. repeat constructor; vm_compute; intuition discriminate. Qed.

(** The base64 marker is found anywhere in the parameters, in any
    ASCII case. *)
Lemma base64_marker (p b q : str) :
  map ascii_lower b = lit ";base64" ->
  Re.test true re_base64 (p ++ b ++ q) = true.
Proof.
  intros Hb. unfold Re.test, Re.exec, re_base64.
  destruct (match_at_lits true (lit ";base64") (b ++ q) q (0 + length p))
    as [m Hm].
  { apply (lits_rest_lower _ _ _ base64_lower). eauto. }
  destruct (exec_from_finds true _ p _ 0 m Hm) as [m' ->]. reflexivity.
Qed.

(** X3. Where [atob] is the standard one, a base64 data URL decodes to
    the encoded octets, one code unit each: with the MIME type in any
    ASCII case, and with [;base64] in any ASCII case anywhere among the
    parameters (also as the beginning of a longer parameter). *)
Theorem base64_url_decodes_octets (h : host) (mime p b q : str) (bs : list N) :
  has_atob h = true -> (forall s, atob h s = Base64.atob s) ->
  map ascii_lower mime = svg_mime ->
  map ascii_lower b = lit ";base64" -> url_params (p ++ b ++ q) ->
  Forall octet bs ->
  decodeSvgDataUrl h (mime ++ (p ++ b ++ q) ++ 44 :: Base64.encode bs)
  = Normal (Some bs).
Proof.
  intros Hatob Hstd Hmime Hb Hparams Hbs.
  rewrite (decodeSvgDataUrl_parts h _ mime (p ++ b ++ q) (Base64.encode bs)).
  - unfold payload_decoder.
    now rewrite (base64_marker p b q Hb), Hatob, Hstd, atob_encode.
  - repeat split; auto. now apply encode_no_line_terminator.
Qed.

Lemma base64_url_decodes_octets_witness :
  decodeSvgDataUrl Fixture.chromium
    (lit "DATA:image/svg+xml"
     ++ (lit ";charset=utf-8" ++ lit ";BASE64" ++ lit "url=1")
     ++ 44 :: Base64.encode (lit "<svg>"))
  = Normal (Some (lit "<svg>")).
Proof.
  apply (base64_url_decodes_octets Fixture.chromium (lit "DATA:image/svg+xml")
           (lit ";charset=utf-8") (lit ";BASE64") (lit "url=1") (lit "<svg>")).
  - reflexivity.
  - intros s. reflexivity.
  - vm_compute. reflexivity.
  - vm_compute. reflexivity.
  - right. exists (lit "charset=utf-8;BASE64url=1"). split; [reflexivity|].
    apply List.Forall_forall. intros c Hc.
    assert (H : forallb (fun c => negb (c =? 44))
                  (lit "charset=utf-8;BASE64url=1") = true)
      by (vm_compute; reflexivity).
    rewrite forallb_forall in H. specialize (H c Hc). intros ->. discriminate.
  - apply List.Forall_forall. intros c Hc. unfold octet.
    assert (H : forallb (fun c => c <? 256) (lit "<svg>") = true)
      by (vm_compute; reflexivity).
    rewrite forallb_forall in H. apply N.ltb_lt. now apply H.
Defined.

Lemma decode_broken_escape (b : str) :
  broken_escape b -> Uri.decode_from 0 (37 :: b) = Throw.
Proof.
  intros Hb. cbn [Uri.decode_from N.eqb Pos.eqb].
  unfold Uri.decode_escape, Uri.escape_byte.
  destruct b as [|x [|y b]]; try reflexivity.
  cbn in Hb. destruct Hb as [-> | Hy]; [reflexivity|].
  rewrite Hy. now destruct (Uri.hex_val x).
Qed.

Lemma escape_byte_run (s : str) (b : N) (s1 : str) :
  Uri.escape_byte s = Some (b, s1) ->
  exists x y, s = 37 :: x :: y :: s1
              /\ Uri.hex_val x <> None /\ Uri.hex_val y <> None.
Proof.
  destruct s as [|c [|x [|y s']]].
  - discriminate.
  - destruct (N.eqb_spec c 37) as [->|Hc]; [discriminate|].
    intros H. exfalso. revert H. unfold Uri.escape_byte.
    destruct c as [|p]; [discriminate|].
    do 6 (destruct p as [p|p|]; try discriminate).
  - destruct (N.eqb_spec c 37) as [->|Hc]; [discriminate|].
    intros H. exfalso. revert H. unfold Uri.escape_byte.
    destruct c as [|p]; [discriminate|].
    do 6 (destruct p as [p|p|]; try discriminate).
  - destruct (N.eqb_spec c 37) as [->|Hc].
    + cbn [Uri.escape_byte].
      destruct (Uri.hex_val x) eqn:Ex; [|discriminate].
      destruct (Uri.hex_val y) eqn:Ey; [|discriminate].
      intros H. injection H as _ <-. exists x, y.
      repeat split; congruence.
    + intros H. exfalso. revert H. unfold Uri.escape_byte.
      destruct c as [|p]; [discriminate|].
      do 6 (destruct p as [p|p|]; try discriminate).
      now contradict Hc.
Qed.

Lemma escape_bytes_run (m : nat) :
  forall (s : str) (conts : list N) (s2 : str),
    Uri.escape_bytes m s = Some (conts, s2) ->
    exists e, s = e ++ s2 /\ length e = (3 * m)%nat /\ escape_run e.
Proof.
  induction m as [|m IH]; intros s conts s2; cbn [Uri.escape_bytes].
  - intros H. injection H as _ <-. now exists [].
  - destruct (Uri.escape_byte s) as [[b s1]|] eqn:Eb; [|discriminate].
    destruct (Uri.escape_bytes m s1) as [[bs s3]|] eqn:Em; [|discriminate].
    intros H. injection H as _ <-.
    apply escape_byte_run in Eb as (x & y & -> & Hx & Hy).
    apply IH in Em as (e & -> & Hlen & He).
    exists (37 :: x :: y :: e). split; [reflexivity|].
    split; [cbn [length]; lia|]. cbn [escape_run]. auto.
Qed.

(** What [decode_escape] consumes is a run of escapes. *)
Lemma decode_escape_run (s chars : str) (n : nat) :
  Uri.decode_escape s = Some (chars, n) ->
  exists e rest, s = 37 :: e ++ rest /\ S (length e) = n
                 /\ escape_run (37 :: e).
Proof.
  unfold Uri.decode_escape.
  destruct (Uri.escape_byte s) as [[b s1]|] eqn:Eb; [|discriminate].
  apply escape_byte_run in Eb as (x & y & -> & Hx & Hy).
  destruct (Uri.sequence_length b) as [[|m]|]; [| |discriminate].
  - intros H. injection H as _ <-. exists [x; y], s1.
    repeat split; auto.
  - destruct (Uri.escape_bytes m s1) as [[conts s2]|] eqn:Em; [|discriminate].
    apply escape_bytes_run in Em as (e & -> & Hlen & He).
    destruct (Uri.utf8_code_point b conts); [|discriminate].
    intros H. injection H as _ <-. exists (x :: y :: e), s2.
    split; [reflexivity|]. split; [cbn [length]; lia|].
    cbn [escape_run]. auto.
Qed.

(** A [%] inside a run of escapes is followed by two hexadecimal
    digits. *)
Lemma escape_run_percent (a e2 : str) :
  escape_run (a ++ 37 :: e2) ->
  exists x y e3, e2 = x :: y :: e3
                 /\ Uri.hex_val x <> None /\ Uri.hex_val y <> None.
Proof.
  revert a. apply (list_induction_3
    (fun a => escape_run (a ++ 37 :: e2) ->
              exists x y e3, e2 = x :: y :: e3
                /\ Uri.hex_val x <> None /\ Uri.hex_val y <> None)).
  - cbn [app]. destruct e2 as [|x [|y e3]]; cbn [escape_run];
      try contradiction.
    intros (_ & Hx & Hy & _). exists x, y, e3. auto.
  - intros c. cbn [app]. destruct e2 as [|y e3]; cbn [escape_run];
      [contradiction|].
    intros (_ & Hx & _). now contradict Hx.
  - intros c x. cbn [app escape_run].
    intros (_ & _ & Hy & _). now contradict Hy.
  - intros c x y a IH. cbn [app escape_run]. intros (_ & _ & _ & H).
    now apply IH.
Qed.

(** [decodeURIComponent] throws on a text that holds, anywhere, a [%]
    that is not followed by two hexadecimal digits. *)
Lemma decode_broken_anywhere (n : nat) :
  forall a b : str,
    (length a <= n)%nat -> broken_escape b ->
    Uri.decode_from 0 (a ++ 37 :: b) = Throw.
Proof.
  induction n as [|n IH]; intros a b Hlen Hb.
  - destruct a; [|cbn in Hlen; lia]. now apply decode_broken_escape.
  - destruct a as [|c a]; [now apply decode_broken_escape|].
    cbn [length] in Hlen. cbn [app Uri.decode_from].
    destruct (N.eqb_spec c 37) as [->|Hc].
    + destruct (Uri.decode_escape (37 :: a ++ 37 :: b))
        as [[chars k]|] eqn:E; [|reflexivity].
      apply decode_escape_run in E as (e & rest & Hs & <- & He).
      injection Hs as Hs. cbn [Nat.sub]. rewrite Nat.sub_0_r.
      apply app_eq_app in Hs as [m [[-> ->]|[-> Hm]]].
      * rewrite <- app_assoc, decode_from_skip.
        rewrite IH; [reflexivity| |exact Hb].
        rewrite length_app in Hlen. lia.
      * destruct m as [|c m].
        -- cbn [app] in Hm. subst rest. rewrite app_nil_r, decode_from_skip.
           now rewrite (decode_broken_escape b Hb).
        -- exfalso. cbn [app] in Hm. injection Hm as <- ->.
           change (37 :: a ++ 37 :: m) with ((37 :: a) ++ 37 :: m) in He.
           apply escape_run_percent in He as (x & y & e3 & -> & Hx & Hy).
           cbn in Hb. tauto.
    + rewrite IH; [reflexivity|lia|exact Hb].
Qed.

(** X4. A percent-encoded payload that holds, anywhere, a [%] that is
    not followed by two hexadecimal digits makes [decodeSvgDataUrl]
    return [null], whatever comes before it, well-formed escapes
    included. *)
Theorem broken_escape_gives_null (h : host) (s mime params a b : str) :
  data_url_parts s mime params (a ++ 37 :: b) ->
  Re.test true re_base64 params = false ->
  broken_escape b ->
  decodeSvgDataUrl h s = Normal None.
Proof.
  intros Hparts Hplain Hb.
  rewrite (decodeSvgDataUrl_parts h s mime params _ Hparts).
  unfold payload_decoder, Uri.decodeURIComponent. rewrite Hplain.
  now rewrite (decode_broken_anywhere (length a) a b (Nat.le_refl _) Hb).
Qed.

Lemma broken_escape_gives_null_witness :
  decodeSvgDataUrl Fixture.chromium (lit "data:image/svg+xml,%3Csvg%3E%3")
  = Normal None.
Proof.
  apply (broken_escape_gives_null Fixture.chromium _ svg_mime []
           (lit "%3Csvg%3E") (lit "3")).
  - repeat split; [now left|].
    apply List.Forall_forall. intros c Hc.
    assert (H : forallb (fun c => negb (is_line_terminator c))
                  (lit "%3Csvg%3E" ++ 37 :: lit "3") = true)
      by (vm_compute; reflexivity).
    rewrite forallb_forall in H. apply H in Hc.
    now destruct (is_line_terminator c).
  - reflexivity.
  - exact I.
Defined.

Lemma strip_padding_keeps (s : str) (c : N) :
  In c s -> c <> 61 -> In c (Base64.strip_padding s).
Proof.
  intros Hin Hc. unfold Base64.strip_padding.
  destruct (rev s) as [|c1 r1] eqn:E; [exact Hin|].
  destruct (N.eqb_spec c1 61) as [->|_]; [|exact Hin].
  assert (Hs : s = rev r1 ++ [61])
    by (rewrite <- (rev_involutive s), E; reflexivity).
  rewrite Hs in Hin. apply in_app_iff in Hin as [Hin|[Hin|[]]]; [|congruence].
  destruct r1 as [|c2 r2]; [exact Hin|].
  destruct (N.eqb_spec c2 61) as [->|_]; [|exact Hin].
  cbn [rev] in Hin. apply in_app_iff in Hin as [Hin|[Hin|[]]];
    [exact Hin|congruence].
Qed.

Lemma sextets_invalid (l : str) (c : N) :
  In c l -> Base64.sextet c = None -> Base64.sextets l = None.
Proof.
  intros Hin Hc. induction l as [|x l IH]; [destruct Hin|].
  cbn [Base64.sextets]. destruct Hin as [->|Hin].
  - now rewrite Hc.
  - rewrite (IH Hin). now destruct (Base64.sextet x).
Qed.

(** The standard [atob] throws on a character that is neither a base64
    digit, nor padding, nor white space. *)
Lemma atob_invalid (d : str) (c : N) :
  In c d -> Base64.sextet c = None -> c <> 61 ->
  Base64.is_ascii_whitespace c = false ->
  Base64.atob d = Throw.
Proof.
  intros Hin Hs Hpad Hws. unfold Base64.atob. cbv zeta.
  set (d1 := List.filter (fun c => negb (Base64.is_ascii_whitespace c)) d).
  assert (H1 : In c d1)
    by (apply List.filter_In; split; [exact Hin|now rewrite Hws]).
  set (d2 := if (length d1 mod 4 =? 0)%nat then Base64.strip_padding d1 else d1).
  assert (H2 : In c d2)
    by (unfold d2; destruct (length d1 mod 4 =? 0)%nat;
        [now apply strip_padding_keeps|exact H1]).
  destruct (length d2 mod 4 =? 1)%nat; [reflexivity|].
  now rewrite (sextets_invalid d2 c H2 Hs).
Qed.

(** X5. Where [atob] is the standard one, a base64 payload that holds a
    character outside the base64 alphabet (other than padding and white
    space) makes [decodeSvgDataUrl] return [null]. *)
Theorem invalid_base64_gives_null (h : host) (s mime params payload : str)
    (c : N) :
  has_atob h = true -> (forall s, atob h s = Base64.atob s) ->
  data_url_parts s mime params payload ->
  Re.test true re_base64 params = true ->
  In c payload -> Base64.sextet c = None -> c <> 61 ->
  Base64.is_ascii_whitespace c = false ->
  decodeSvgDataUrl h s = Normal None.
Proof.
  intros Hatob Hstd Hparts Hb64 Hin Hs Hpad Hws.
  rewrite (decodeSvgDataUrl_parts h s mime params payload Hparts).
  unfold payload_decoder. rewrite Hb64, Hatob, Hstd.
  now rewrite (atob_invalid payload c Hin Hs Hpad Hws).
Qed.

Lemma invalid_base64_gives_null_witness :
  decodeSvgDataUrl Fixture.chromium (lit "data:image/svg+xml;base64,PHN2*Zz4=")
  = Normal None.
Proof.
  apply (invalid_base64_gives_null Fixture.chromium _ svg_mime (lit ";base64")
           (lit "PHN2*Zz4=") 42).
  - reflexivity.
  - intros s. reflexivity.
  - repeat split.
    + right. exists (lit "base64"). split; [reflexivity|].
      repeat constructor; discriminate.
    + repeat constructor.
  - vm_compute. reflexivity.
  - vm_compute. tauto.
  - reflexivity.
  - discriminate.
  - reflexivity.
Defined.

(** ** Inline fragments in plain text *)

Lemma star_lazy_split {R : Type} (ic : bool) (a : Re.atom) (s : str)
    (pos : nat) (cs : Re.captures) (k : @Re.cont R) (x : R) :
  Re.star_lazy ic a pos s cs k = Some x ->
  exists q rest,
    s = q ++ rest
    /\ k (pos + length q)%nat rest cs = Some x
    /\ forall q1 q2, q = q1 ++ q2 -> q2 <> [] ->
         k (pos + length q1)%nat (q2 ++ rest) cs = None.
Proof.
  revert pos; induction s as [|c s IH]; intros pos; cbn [Re.star_lazy].
  - destruct (k pos [] cs) eqn:E; [|discriminate].
    intros [= ->]. exists [], []. rewrite Nat.add_0_r.
    repeat split; auto.
    intros q1 q2 Hq Hne. destruct q1, q2; try discriminate. contradiction.
  - destruct (k pos (c :: s) cs) eqn:E.
    + intros [= ->]. exists [], (c :: s). rewrite Nat.add_0_r.
      repeat split; auto.
      intros q1 q2 Hq Hne. destruct q1, q2; try discriminate. contradiction.
    + destruct (Re.atom_matches ic a c); [|discriminate].
      intros H. apply IH in H as (q & rest & -> & Hk & Hfirst).
      exists (c :: q), rest. cbn [length app]. rewrite Nat.add_succ_r.
      repeat split; auto.
      intros q1 q2 Hq Hne. destruct q1 as [|c' q1].
      * cbn [app] in Hq. subst q2. rewrite Nat.add_0_r. exact E.
      * cbn [app] in Hq. injection Hq as -> ->. cbn [length].
        rewrite Nat.add_succ_r. now apply Hfirst.
Qed.

Lemma star_lazy_finds {R : Type} (ic : bool) (a : Re.atom) (q rest : str)
    (pos : nat) (cs : Re.captures) (k : @Re.cont R) (x : R) :
  Forall (fun c => Re.atom_matches ic a c = true) q ->
  k (pos + length q)%nat rest cs = Some x ->
  exists x', Re.star_lazy ic a pos (q ++ rest) cs k = Some x'.
Proof.
  intros Hq. revert pos. induction Hq as [|c q Hc _ IH]; intros pos Hk.
  - rewrite Nat.add_0_r in Hk. cbn [app].
    destruct rest; cbn [Re.star_lazy]; rewrite Hk; eauto.
  - cbn [app Re.star_lazy].
    destruct (k pos (c :: q ++ rest) cs); [eauto|].
    rewrite Hc. apply IH. cbn [length] in Hk.
    now rewrite Nat.add_succ_r in Hk.
Qed.

Lemma open_lower : Forall (fun x => x < 65 \/ 90 < x) (lit "<svg").
Proof. repeat constructor; vm_compute; intuition discriminate. Qed.

Lemma close_lower : Forall (fun x => x < 65 \/ 90 < x) (lit "</svg>").
Proof. repeat constructor; vm_compute; intuition discriminate. Qed.

Lemma any_code_unit (c : N) :
  Re.atom_matches true (Re.ASet false [Re.CSpace; Re.CNonSpace]) c = true.
Proof. cbn. now destruct (is_space c). Qed.

Lemma closes_here_iff (t : str) :
  closes_here t <-> exists rest, lits_rest true (lit "</svg>") t = Some rest.
Proof.
  unfold closes_here, closing_tag. split.
  - intros (c & rest & -> & Hc). exists rest.
    apply (lits_rest_lower _ _ _ close_lower). eauto.
  - intros (rest & H).
    apply (lits_rest_lower _ _ _ close_lower) in H as (c & -> & Hc). eauto.
Qed.

(** What a match at the head of [s] looks like: from an opening tag to
    the first closing tag after it. *)
Lemma inline_match_shape (pos : nat) (s : str) (m : Re.match_result) :
  Re.match_at true re_inline_svg pos s = Some m ->
  exists a body c post,
    s = a ++ body ++ c ++ post /\ opening_tag a /\ closing_tag c
    /\ Re.matched m = a ++ body ++ c
    /\ forall b1 b2, body = b1 ++ b2 -> b2 <> [] ->
         ~ closes_here (b2 ++ c ++ post).
Proof.
  unfold Re.match_at, re_inline_svg. cbn [Re.run]. rewrite run_lits.
  destruct (lits_rest true (lit "<svg") s) as [s1|] eqn:Ea; [|discriminate].
  apply (lits_rest_lower _ _ _ open_lower) in Ea as (a & -> & Ha).
  intros H. apply star_lazy_split in H as (body & rest & -> & Hk & Hfirst).
  cbn beta in Hk. rewrite run_lits in Hk.
  destruct (lits_rest true (lit "</svg>") rest) as [post|] eqn:Ec;
    [|discriminate].
  apply (lits_rest_lower _ _ _ close_lower) in Ec as (c & -> & Hc).
  injection Hk as <-.
  exists a, body, c, post. repeat split; auto.
  - cbn [Re.matched].
    assert (Hla : length a = length (lit "<svg"))
      by (rewrite <- Ha; now rewrite length_map).
    assert (Hlc : length c = length (lit "</svg>"))
      by (rewrite <- Hc; now rewrite length_map).
    replace (a ++ body ++ c ++ post) with ((a ++ body ++ c) ++ post)
      by (now rewrite <- !app_assoc).
    apply take_app_length'. rewrite !length_app, Hla, Hlc.
    change (length (lit "<svg")) with 4%nat.
    change (length (lit "</svg>")) with 6%nat. lia.
  - intros b1 b2 Hb Hne Hclose.
    specialize (Hfirst b1 b2 Hb Hne). cbn beta in Hfirst.
    rewrite run_lits in Hfirst.
    apply closes_here_iff in Hclose as [rest' Hrest].
    now rewrite Hrest in Hfirst.
Qed.

Lemma inline_match_finds (pos : nat) (t : str) :
  fragment_here t -> exists m, Re.match_at true re_inline_svg pos t = Some m.
Proof.
  intros (a & body & c & post & -> & Ha & Hc).
  unfold Re.match_at, re_inline_svg. cbn [Re.run]. rewrite run_lits.
  assert (Ea : lits_rest true (lit "<svg") (a ++ body ++ c ++ post)
               = Some (body ++ c ++ post))
    by (apply (lits_rest_lower _ _ _ open_lower); eauto).
  rewrite Ea.
  eapply (star_lazy_finds true _ body (c ++ post)).
  - apply List.Forall_forall. intros x _. apply any_code_unit.
  - cbn beta. rewrite run_lits.
    assert (Ec : lits_rest true (lit "</svg>") (c ++ post) = Some post)
      by (apply (lits_rest_lower _ _ _ close_lower); eauto).
    rewrite Ec. reflexivity.
Qed.

(** The search returns the match at the first index that has one. *)
Lemma exec_from_split (ic : bool) (r : Re.regex) (s : str) (pos : nat) m :
  Re.exec_from ic r pos s = Some m ->
  exists pre t,
    s = pre ++ t /\ Re.match_at ic r (pos + length pre) t = Some m
    /\ forall p1 p2, pre = p1 ++ p2 -> p2 <> [] ->
         Re.match_at ic r (pos + length p1) (p2 ++ t) = None.
Proof.
  revert pos; induction s as [|c s IH]; intros pos; cbn [Re.exec_from].
  - destruct (Re.match_at ic r pos []) eqn:E; [|discriminate].
    intros [= ->]. exists [], []. rewrite Nat.add_0_r. repeat split; auto.
    intros p1 p2 Hp Hne. destruct p1, p2; try discriminate. contradiction.
  - destruct (Re.match_at ic r pos (c :: s)) eqn:E.
    + intros [= ->]. exists [], (c :: s). rewrite Nat.add_0_r.
      repeat split; auto.
      intros p1 p2 Hp Hne. destruct p1, p2; try discriminate. contradiction.
    + intros H. apply IH in H as (pre & t & -> & Hm & Hfirst).
      exists (c :: pre), t. cbn [length app]. rewrite Nat.add_succ_r.
      repeat split; auto.
      intros p1 p2 Hp Hne. destruct p1 as [|c' p1].
      * cbn [app] in Hp. subst p2. rewrite Nat.add_0_r. exact E.
      * cbn [app] in Hp. injection Hp as -> ->. cbn [length].
        rewrite Nat.add_succ_r. now apply Hfirst.
Qed.

(** X6. What [matchInlineSvg] returns is a piece of the text that runs
    from an opening [<svg] to the first [</svg>] after it (tags in any
    ASCII case), and no such piece starts earlier in the text. *)
Theorem matchInlineSvg_first_fragment (s m : str) :
  matchInlineSvg s = Some m ->
  exists pre a body c post,
    s = pre ++ m ++ post /\ m = a ++ body ++ c
    /\ opening_tag a /\ closing_tag c
    /\ (forall b1 b2, body = b1 ++ b2 -> b2 <> [] ->
          ~ closes_here (b2 ++ c ++ post))
    /\ (forall p1 p2, pre = p1 ++ p2 -> p2 <> [] ->
          ~ fragment_here (p2 ++ m ++ post)).
Proof.
  unfold matchInlineSvg, Re.exec.
  destruct (Re.exec_from true re_inline_svg 0 s) as [r|] eqn:E; [|discriminate].
  intros [= <-].
  apply exec_from_split in E as (pre & t & -> & Hm & Hleft).
  apply inline_match_shape in Hm as (a & body & c & post & -> & Ha & Hc & Hr & Hb).
  exists pre, a, body, c, post. rewrite Hr.
  split; [now rewrite <- !app_assoc|]. split; [reflexivity|].
  split; [exact Ha|]. split; [exact Hc|]. split; [exact Hb|].
  intros p1 p2 Hp Hne Hfrag.
  specialize (Hleft p1 p2 Hp Hne).
  replace (p2 ++ (a ++ body ++ c) ++ post)
    with (p2 ++ a ++ body ++ c ++ post) in Hfrag
    by (now rewrite <- !app_assoc).
  destruct (inline_match_finds (0 + length p1) _ Hfrag) as [m' Hm'].
  congruence.
Qed.

Lemma matchInlineSvg_first_fragment_witness :
  matchInlineSvg (lit "a <SVG><svg></svg></svg> b") = Some (lit "<SVG><svg></svg>")
  /\ exists pre a body c post,
       lit "a <SVG><svg></svg></svg> b" = pre ++ lit "<SVG><svg></svg>" ++ post
       /\ lit "<SVG><svg></svg>" = a ++ body ++ c
       /\ opening_tag a /\ closing_tag c
       /\ (forall b1 b2, body = b1 ++ b2 -> b2 <> [] ->
             ~ closes_here (b2 ++ c ++ post))
       /\ (forall p1 p2, pre = p1 ++ p2 -> p2 <> [] ->
             ~ fragment_here (p2 ++ lit "<SVG><svg></svg>" ++ post)).
Proof.
  assert (H : matchInlineSvg (lit "a <SVG><svg></svg></svg> b")
              = Some (lit "<SVG><svg></svg>")) by (vm_compute; reflexivity).
  split; [exact H|].
  exact (matchInlineSvg_first_fragment _ _ H).
Defined.

(** X7. [matchInlineSvg] finds a fragment whenever the text holds one:
    an opening [<svg] with a [</svg>] anywhere after it. *)
Theorem matchInlineSvg_complete (pre t : str) :
  fragment_here t -> exists m, matchInlineSvg (pre ++ t) = Some m.
Proof.
  intros Hfrag. unfold matchInlineSvg, Re.exec.
  destruct (inline_match_finds (0 + length pre) t Hfrag) as [m Hm].
  destruct (exec_from_finds true _ pre t 0 m Hm) as [m' ->]. eauto.
Qed.

Lemma matchInlineSvg_complete_witness :
  exists m, matchInlineSvg (lit "header " ++ lit "<svg><line/></SVG> footer")
            = Some m.
Proof.
  apply (matchInlineSvg_complete (lit "header ") (lit "<svg><line/></SVG> footer")).
  exists (lit "<svg"), (lit "><line/>"), (lit "</SVG>"), (lit " footer").
  repeat split; vm_compute; reflexivity.
Defined.

(** ** Pictures in the attributes of an HTML text *)

Lemma decoded_attribute_kept (h : host) (el : Dom.node) (a u d : str) :
  Dom.element_attribute el a = Some u ->
  decodeSvgDataUrl h u = Normal (Some d) -> d <> [] ->
  decoded_attribute h el a = Normal (Some d).
Proof.
  intros Hu Hd Hne. unfold decoded_attribute. rewrite Hu, Hd. unfold_bind.
  destruct d; [contradiction|reflexivity].
Qed.

Lemma decoded_attribute_dropped (h : host) (el : Dom.node) (a : str) :
  (forall u, Dom.element_attribute el a = Some u ->
     decodeSvgDataUrl h u = Normal None
     \/ decodeSvgDataUrl h u = Normal (Some [])) ->
  decoded_attribute h el a = Normal None.
Proof.
  intros Hu. unfold decoded_attribute.
  destruct (Dom.element_attribute el a) as [u|]; [|reflexivity].
  destruct (Hu u eq_refl) as [-> | ->]; reflexivity.
Qed.

(** X8. Where the document has no [<svg>] element, the first [<img>]
    whose [src] begins with [data:image/svg+xml] decides: if its data
    URL decodes to a non-empty string, that string is returned,
    whatever other images and objects the document holds. *)
Theorem img_data_url_returned (h : host) (html : str) (doc : Dom.document)
    (img : Dom.node) (more : list Dom.node) (u d : str) :
  parseFromString h html = Normal doc ->
  List.filter (Dom.matches sel_svg) (Dom.document_order doc) = [] ->
  List.filter (Dom.matches sel_img) (Dom.document_order doc) = img :: more ->
  Dom.element_attribute img (lit "src") = Some u ->
  decodeSvgDataUrl h u = Normal (Some d) -> d <> [] ->
  extractFirstSvgFromHtml h html = Normal (Some d).
Proof.
  intros Hdoc Hsvg Himg Hu Hd Hne. unfold extractFirstSvgFromHtml.
  rewrite Hdoc. unfold_bind.
  rewrite !querySelector_first, Hsvg, Himg. cbn [head].
  now rewrite (decoded_attribute_kept h img _ u d Hu Hd Hne).
Qed.

Lemma img_data_url_returned_witness :
  extractFirstSvgFromHtml attribute_browser img_page_text
  = Normal (Some (lit "<svg>")).
Proof.
  apply (img_data_url_returned attribute_browser img_page_text
           (Fixture.page [img_node]) img_node []
           (lit "data:image/svg+xml,%3Csvg%3E") (lit "<svg>"));
    try (vm_compute; reflexivity).
  discriminate.
Defined.

(** X9. Only the first such image is tried: where the document has no
    [<svg>] element and its first data-URL image does not decode to a
    non-empty string (or it has no such image), the first [<object>] of
    type [image/svg+xml] with a data-URL [data] decides, and its decoded
    string is returned if non-empty, whatever later images hold. *)
Theorem object_data_url_returned (h : host) (html : str) (doc : Dom.document)
    (obj : Dom.node) (more : list Dom.node) (u d : str) :
  parseFromString h html = Normal doc ->
  List.filter (Dom.matches sel_svg) (Dom.document_order doc) = [] ->
  (forall img v,
     head (List.filter (Dom.matches sel_img) (Dom.document_order doc)) = Some img ->
     Dom.element_attribute img (lit "src") = Some v ->
     decodeSvgDataUrl h v = Normal None
     \/ decodeSvgDataUrl h v = Normal (Some [])) ->
  List.filter (Dom.matches sel_object) (Dom.document_order doc) = obj :: more ->
  Dom.element_attribute obj (lit "data") = Some u ->
  decodeSvgDataUrl h u = Normal (Some d) -> d <> [] ->
  extractFirstSvgFromHtml h html = Normal (Some d).
Proof.
  intros Hdoc Hsvg Himg Hobj Hu Hd Hne. unfold extractFirstSvgFromHtml.
  rewrite Hdoc. unfold_bind.
  rewrite !querySelector_first, Hsvg, Hobj. cbn [head].
  destruct (head (List.filter (Dom.matches sel_img) (Dom.document_order doc)))
    as [img|] eqn:Ei.
  - rewrite (decoded_attribute_dropped h img (lit "src"))
      by (intros v Hv; now apply (Himg img v)).
    now rewrite (decoded_attribute_kept h obj _ u d Hu Hd Hne).
  - now rewrite (decoded_attribute_kept h obj _ u d Hu Hd Hne).
Qed.

Lemma object_data_url_returned_witness :
  extractFirstSvgFromHtml attribute_browser object_page_text
  = Normal (Some (lit "<svg>")).
Proof.
  apply (object_data_url_returned attribute_browser object_page_text
           (Fixture.page [broken_img_node; img_node; object_node])
           object_node []
           (lit "data:image/svg+xml;base64,PHN2Zz4=") (lit "<svg>"));
    try (vm_compute; reflexivity); try discriminate.
  intros img v Himg Hv. vm_compute in Himg. injection Himg as <-.
  vm_compute in Hv. injection Hv as <-. left. vm_compute. reflexivity.
Defined.

(** ** The items path, further *)

Lemma push_from_plain_cases (h : host) st (plain : str) st' :
  push_from_plain h st plain = Normal st' ->
  st' = st \/ exists svg, svg <> [] /\ st' = push_svg h st svg.
Proof.
  intros H. destruct (push_from_plain_appends h st plain st' H) as [->|[svg ->]];
    [now left|right].
  exists svg. split; [|reflexivity]. eapply push_from_plain_nonempty; eauto.
Qed.

Lemma synthesized_file (time : N) (svg : str) :
  svg <> [] -> synthesized (fileFromSvgText time svg None).
Proof. intros H. split; [reflexivity|exact H]. Qed.

(** The statements after the [await] keep the files they are given, in
    order, and add at most two synthesized ones after them. *)
Lemma select_and_extract_files (h : host) files0 texts r :
  select_and_extract h files0 texts = Normal r ->
  exists extra,
    files r = files0 ++ extra /\ (length extra <= 2)%nat
    /\ Forall synthesized extra.
Proof.
  unfold select_and_extract. unfold_bind.
  set (html0 := or_null (option_map entry_str (find_entry (lit "text/html") texts))).
  set (text0 := or_null (option_map entry_str (find_entry (lit "text/plain") texts))).
  assert (H1 : exists st1 extra,
    match html0 with
    | Some html' =>
        match extractFirstSvgFromHtml h html' with
        | Normal svg =>
            Normal (if truthy_opt svg
                    then push_svg h (files0, 0%nat) (value_of svg)
                    else (files0, 0%nat))
        | Throw => Throw
        end
    | None => Normal (files0, 0%nat)
    end = Normal st1 /\ st1.1 = files0 ++ extra
    /\ (length extra <= 1)%nat /\ Forall synthesized extra).
  { destruct html0 as [html'|].
    - destruct (extractFirstSvgFromHtml_total h html') as [svg ->].
      destruct svg as [[|c svg]|]; cbn [truthy_opt truthy value_of].
      + exists (files0, 0%nat), []. rewrite app_nil_r. repeat split; auto.
      + eexists _, [_]. split; [reflexivity|]. split; [reflexivity|].
        split; [cbn; lia|]. constructor; [|constructor].
        apply synthesized_file. discriminate.
      + exists (files0, 0%nat), []. rewrite app_nil_r. repeat split; auto.
    - exists (files0, 0%nat), []. rewrite app_nil_r. repeat split; auto. }
  destruct H1 as (st1 & extra1 & -> & Hst1 & Hlen1 & Hsyn1).
  assert (H2 : forall st2, st2 = st1 \/ (exists svg, svg <> [] /\ st2 = push_svg h st1 svg) ->
    exists extra, st2.1 = files0 ++ extra /\ (length extra <= 2)%nat
                  /\ Forall synthesized extra).
  { intros st2 [->|(svg & Hne & ->)].
    - exists extra1. repeat split; auto.
    - exists (extra1 ++ [fileFromSvgText (now h st1.2) svg None]).
      unfold push_svg. cbn [fst]. rewrite Hst1, <- app_assoc.
      split; [reflexivity|]. split; [rewrite length_app; cbn; lia|].
      apply Forall_app. split; [exact Hsyn1|].
      constructor; [|constructor]. now apply synthesized_file. }
  destruct text0 as [text'|].
  - destruct (push_from_plain h st1 text') as [st2|] eqn:E; [|discriminate].
    intros H. apply Normal_inj in H. subst r. cbn [files].
    apply H2. now apply (push_from_plain_cases h st1 text').
  - intros H. apply Normal_inj in H. subst r. cbn [files].
    apply H2. now left.
Qed.

(** X10. Real image files are always kept: on the items path, when every
    retrieval completes, the files of the result are the image files
    that the entries gave, in entry order, followed by at most two
    synthesized files, each of type [image/svg+xml] and with a non-empty
    text. *)
Theorem real_files_kept (h : host) (evt : Event) (dt : DataTransfer)
    (its : list Item) (sched : list nat) :
  source_of evt = Some dt -> items dt = Some its ->
  retrievals_complete its -> covers (length (text_entries its)) sched ->
  passed_files its <> [] ->
  exists r extra,
    getPastedData h evt sched = Fulfilled r
    /\ files r = passed_files its ++ extra
    /\ (length extra <= 2)%nat /\ Forall synthesized extra.
Proof.
  intros Hsrc Hits Hcomplete Hcov Hfiles.
  destruct (getPastedData_items h evt dt its sched Hsrc Hits Hcomplete Hcov)
    as (r & Hr & Hrun).
  destruct (select_and_extract_files h _ _ r Hr) as (extra & Hf & Hlen & Hsyn).
  exists r, extra. split; [|auto].
  rewrite Hrun.
  replace (negb (Nat.eqb (length its) 0) && usable r) with true; [reflexivity|].
  symmetry. apply andb_true_iff. split.
  - destruct its; [now contradict Hfiles|reflexivity].
  - unfold usable. rewrite Hf.
    destruct (passed_files its); [contradiction|reflexivity].
Qed.

Lemma real_files_kept_witness :
  exists r extra,
    getPastedData Fixture.chromium
      (Fixture.paste_event (Some file_and_html) [] []) [0%nat] = Fulfilled r
    /\ files r = passed_files file_and_html ++ extra
    /\ (length extra <= 2)%nat /\ Forall synthesized extra.
Proof.
  apply (real_files_kept Fixture.chromium
           (Fixture.paste_event (Some file_and_html) [] [])
           (Fixture.data_transfer (Some file_and_html) [] [])
           file_and_html [0%nat]).
  - reflexivity.
  - reflexivity.
  - repeat constructor; try (intros _; eexists; reflexivity).
    vm_compute. discriminate.
  - intros i Hi. vm_compute in Hi.
    assert (i = 0%nat) as -> by lia. now left.
  - vm_compute. discriminate.
Defined.

Lemma text_promise_never (its : list Item) (it : Item) :
  In it its -> is_text_item it = true ->
  (forall s, getAsString it <> Some (Some s)) ->
  exists i, text_promises its !! i = Some None.
Proof.
  intros Hin Htext Hnever.
  assert (Hp : In None (text_promises its)).
  { unfold text_promises. apply in_map_iff. exists it. split.
    - unfold string_promise.
      destruct (getAsString it) as [[s|]|] eqn:E; auto.
      now destruct (Hnever s).
    - apply List.filter_In. now split. }
  apply list_elem_of_In, list_elem_of_lookup in Hp. exact Hp.
Qed.

(** X11. One retrieval that never completes stalls the whole call: if a
    [text/html] or [text/plain] entry has no [getAsString], or its
    [getAsString] never calls back, the promise of [getPastedData] stays
    pending, whatever the other entries and [getData] hold. *)
Theorem unanswered_retrieval_stalls (h : host) (evt : Event)
    (dt : DataTransfer) (its : list Item) (it : Item) (sched : list nat) :
  source_of evt = Some dt -> items dt = Some its ->
  In it its -> is_text_item it = true ->
  (forall s, getAsString it <> Some (Some s)) ->
  getPastedData h evt sched = Pending.
Proof.
  intros Hsrc Hits Hin Htext Hnever.
  unfold getPastedData. rewrite Hsrc, Hits, canUseItems_nonempty.
  destruct its as [|it0 its]; [destruct Hin|]. cbn [length Nat.eqb negb].
  unfold extractFromItems. rewrite scan_items. cbn [fst snd app].
  destruct (text_promise_never (it0 :: its) it Hin Htext Hnever) as [i Hi].
  now rewrite (promise_all_pending _ sched i Hi).
Qed.

Lemma unanswered_retrieval_stalls_witness :
  getPastedData Fixture.chromium
    (Fixture.paste_event
       (Some [Fixture.text_item (lit "text/plain") (lit "kept");
              Fixture.file_item (lit "text/html") png_file])
       [] (lit "hello")) [0; 1]%nat
  = Pending.
Proof.
  apply (unanswered_retrieval_stalls Fixture.chromium _
           (Fixture.data_transfer
              (Some [Fixture.text_item (lit "text/plain") (lit "kept");
                     Fixture.file_item (lit "text/html") png_file])
              [] (lit "hello"))
           [Fixture.text_item (lit "text/plain") (lit "kept");
            Fixture.file_item (lit "text/html") png_file]
           (Fixture.file_item (lit "text/html") png_file)).
  - reflexivity.
  - reflexivity.
  - right. now left.
  - vm_compute. reflexivity.
  - intros s. discriminate.
Defined.

Lemma select_and_extract_first_strings (h : host) files0 (its : list Item) r :
  select_and_extract h files0 (text_entries its) = Normal r ->
  html r = first_string (lit "text/html") its
  /\ text r = first_string (lit "text/plain") its.
Proof.
  intros H. destruct (select_and_extract_fields h _ _ r H) as (Hh & Ht & _).
  rewrite Hh, Ht.
  rewrite (find_entry_first_string _ its html_item_is_text).
  rewrite (find_entry_first_string _ its plain_item_is_text).
  now split.
Qed.

Lemma select_and_extract_nothing (h : host) files0 (its : list Item) :
  first_string (lit "text/html") its = None ->
  first_string (lit "text/plain") its = None ->
  select_and_extract h files0 (text_entries its)
  = Normal {| files := files0; text := None; html := None |}.
Proof.
  intros Hh Ht. unfold select_and_extract.
  rewrite (find_entry_first_string _ its html_item_is_text), Hh.
  rewrite (find_entry_first_string _ its plain_item_is_text), Ht.
  reflexivity.
Qed.

(** X12. Entries that give nothing usable leave the answer to [getData]:
    when the entries hold no image file and no non-empty [text/html] or
    [text/plain] string, the promise settles as the statements after the
    items path decide, from [getData] alone. *)
Theorem nothing_usable_falls_back (h : host) (evt : Event)
    (dt : DataTransfer) (its : list Item) (sched : list nat) :
  source_of evt = Some dt -> items dt = Some its ->
  retrievals_complete its -> covers (length (text_entries its)) sched ->
  passed_files its = [] ->
  first_string (lit "text/html") its = None ->
  first_string (lit "text/plain") its = None ->
  getPastedData h evt sched = sync (getDataPath h dt).
Proof.
  intros Hsrc Hits Hcomplete Hcov Hfiles Hh Ht.
  destruct (getPastedData_items h evt dt its sched Hsrc Hits Hcomplete Hcov)
    as (r & Hr & ->).
  rewrite (select_and_extract_nothing h _ its Hh Ht), Hfiles in Hr.
  apply Normal_inj in Hr. subst r. cbn. now rewrite andb_false_r.
Qed.

Lemma nothing_usable_falls_back_witness :
  getPastedData Fixture.chromium
    (Fixture.paste_event
       (Some [Fixture.text_item (lit "text/plain") []]) [] (lit "hello"))
    [0%nat]
  = sync (getDataPath Fixture.chromium
            (Fixture.data_transfer
               (Some [Fixture.text_item (lit "text/plain") []]) []
               (lit "hello"))).
Proof.
  apply (nothing_usable_falls_back Fixture.chromium _
           (Fixture.data_transfer
              (Some [Fixture.text_item (lit "text/plain") []]) []
              (lit "hello"))
           [Fixture.text_item (lit "text/plain") []]).
  - reflexivity.
  - reflexivity.
  - repeat constructor. intros _. eexists. reflexivity.
  - intros i Hi. vm_compute in Hi.
    assert (i = 0%nat) as -> by lia. now left.
  - reflexivity.
  - reflexivity.
  - reflexivity.
Defined.

(** X13. The text fields come from the first non-empty strings: when the
    entries give something usable, the [html] field of the result is the
    string of the first [text/html] entry, in entry order, whose string
    is not empty, the [text] field that of the first such [text/plain]
    entry, and a field without such an entry is [null]; entries with an
    empty string are passed over, and [getData] is not consulted. *)
Theorem fields_from_first_nonempty_strings (h : host) (evt : Event)
    (dt : DataTransfer) (its : list Item) (sched : list nat) :
  source_of evt = Some dt -> items dt = Some its ->
  retrievals_complete its -> covers (length (text_entries its)) sched ->
  passed_files its <> [] \/ first_string (lit "text/html") its <> None
    \/ first_string (lit "text/plain") its <> None ->
  exists r,
    getPastedData h evt sched = Fulfilled r
    /\ html r = first_string (lit "text/html") its
    /\ text r = first_string (lit "text/plain") its.
Proof.
  intros Hsrc Hits Hcomplete Hcov Hsome.
  destruct (getPastedData_items h evt dt its sched Hsrc Hits Hcomplete Hcov)
    as (r & Hr & ->).
  destruct (select_and_extract_first_strings h _ its r Hr) as [Hh Ht].
  destruct (select_and_extract_fields h _ _ r Hr) as (_ & _ & extra & Hf).
  exists r. split; [|now split].
  replace (negb (Nat.eqb (length its) 0) && usable r) with true; [reflexivity|].
  symmetry. apply andb_true_iff. split.
  - destruct its as [|it its]; [|reflexivity].
    destruct Hsome as [H|[H|H]]; now contradict H.
  - unfold usable. rewrite Hf, Hh, Ht.
    destruct Hsome as [H|[H|H]].
    + destruct (passed_files its); [contradiction|reflexivity].
    + destruct (first_string (lit "text/html") its) as [s|] eqn:E;
        [|contradiction].
      cbn [truthy_opt]. rewrite (first_string_truthy _ _ _ E).
      now rewrite !orb_true_r.
    + destruct (first_string (lit "text/plain") its) as [s|] eqn:E;
        [|contradiction].
      cbn [truthy_opt]. rewrite (first_string_truthy _ _ _ E).
      now rewrite orb_true_r.
Qed.

Lemma fields_from_first_nonempty_strings_witness :
  exists r,
    getPastedData Fixture.chromium
      (Fixture.paste_event
         (Some [Fixture.text_item (lit "text/plain") [];
                Fixture.text_item (lit "text/html") [];
                Fixture.text_item (lit "text/plain") (lit "second")])
         (lit "<b>from getData</b>") (lit "from getData"))
      [2; 0; 1]%nat
    = Fulfilled r
    /\ html r = None
    /\ text r = Some (lit "second").
Proof.
  apply (fields_from_first_nonempty_strings Fixture.chromium _
           (Fixture.data_transfer
              (Some [Fixture.text_item (lit "text/plain") [];
                     Fixture.text_item (lit "text/html") [];
                     Fixture.text_item (lit "text/plain") (lit "second")])
              (lit "<b>from getData</b>") (lit "from getData"))
           [Fixture.text_item (lit "text/plain") [];
            Fixture.text_item (lit "text/html") [];
            Fixture.text_item (lit "text/plain") (lit "second")]).
  - reflexivity.
  - reflexivity.
  - repeat constructor; intros _; eexists; reflexivity.
  - intros i Hi. vm_compute in Hi.
    assert (i = 0 \/ i = 1 \/ i = 2)%nat as [ -> | [ -> | -> ] ] by lia;
      repeat first [now left | right].
  - right. right. vm_compute. discriminate.
Defined.

(** ** The [getData] path *)

Lemma getPastedData_without_items (h : host) (evt : Event)
    (dt : DataTransfer) (sched : list nat) :
  source_of evt = Some dt -> items_of dt = [] ->
  getPastedData h evt sched = sync (getDataPath h dt).
Proof.
  intros Hsrc Hits. unfold getPastedData. rewrite Hsrc.
  change (match items dt with Some l => l | None => [] end) with (items_of dt).
  rewrite Hits, canUseItems_nonempty. reflexivity.
Qed.

Lemma getDataSafe_value (dt : DataTransfer) f (ty v : str) :
  getData dt = Some f -> f ty = Normal v -> getDataSafe dt ty = Normal v.
Proof.
  intros Hf Hv. unfold getDataSafe. rewrite Hf, Hv. unfold_bind.
  now destruct v.
Qed.

Lemma getDataSafe_nothing (dt : DataTransfer) f (ty : str) :
  getData dt = Some f -> f ty = Normal [] \/ f ty = Throw ->
  getDataSafe dt ty = Normal [].
Proof.
  intros Hf [Hv|Hv]; unfold getDataSafe; rewrite Hf, Hv; reflexivity.
Qed.

(** X14. On the [getData] path a picture in the HTML wins: when the
    clipboard has no entries and the [text/html] string holds a picture,
    the result has exactly one file, made of that picture and named by
    the first clock reading, whatever the plain text holds, and its
    [html] field is the [text/html] string. *)
Theorem html_picture_wins_over_plain (h : host) (evt : Event)
    (dt : DataTransfer) (f : str -> completion str) (sched : list nat)
    (page svg : str) :
  source_of evt = Some dt -> items_of dt = [] -> getData dt = Some f ->
  f (lit "text/html") = Normal page -> page <> [] ->
  extractFirstSvgFromHtml h page = Normal (Some svg) -> svg <> [] ->
  exists r,
    getPastedData h evt sched = Fulfilled r
    /\ files r = [fileFromSvgText (now h 0%nat) svg None]
    /\ html r = Some page.
Proof.
  intros Hsrc Hits Hf Hpage Hne Hsvg Hsvgne.
  rewrite (getPastedData_without_items h evt dt sched Hsrc Hits).
  unfold getDataPath.
  rewrite (getDataSafe_value dt f _ page Hf Hpage). unfold_bind.
  destruct (getDataSafe_total dt (lit "text/plain")) as [p ->].
  assert (Hplain : exists plain,
    (if truthy p then Normal p else getDataSafe dt (lit "text")) = Normal plain).
  { destruct (truthy p); [eauto|apply getDataSafe_total]. }
  destruct Hplain as [plain ->].
  destruct page as [|c page]; [contradiction|]. cbn [truthy].
  rewrite Hsvg. destruct svg as [|x svg]; [contradiction|].
  cbn [truthy_opt truthy negb value_of]. rewrite andb_false_r.
  eexists. split; [reflexivity|]. split; reflexivity.
Qed.

Lemma html_picture_wins_over_plain_witness :
  exists r,
    getPastedData Fixture.chromium
      (Fixture.paste_event None Fixture.rect_svg_text Fixture.circle_svg_text)
      []
    = Fulfilled r
    /\ files r = [fileFromSvgText (now Fixture.chromium 0%nat)
                    (Fixture.serialize Fixture.rect_svg) None]
    /\ html r = Some Fixture.rect_svg_text.
Proof.
  apply (html_picture_wins_over_plain Fixture.chromium _
           (Fixture.data_transfer None Fixture.rect_svg_text
              Fixture.circle_svg_text)
           (fun ty =>
              if str_eqb ty (lit "text/html") then Normal Fixture.rect_svg_text
              else if str_eqb ty (lit "text/plain") || str_eqb ty (lit "text")
              then Normal Fixture.circle_svg_text
              else Normal [])).
  - reflexivity.
  - reflexivity.
  - reflexivity.
  - reflexivity.
  - vm_compute. discriminate.
  - vm_compute. reflexivity.
  - vm_compute. discriminate.
Defined.

(** X15. The legacy key is asked only when [text/plain] gives nothing:
    when the clipboard has no entries and the lookup of [text/plain]
    throws or gives the empty string, the [text] field is the non-empty
    string found under the key [text]. *)
Theorem legacy_text_key_used (h : host) (evt : Event)
    (dt : DataTransfer) (f : str -> completion str) (sched : list nat)
    (t : str) :
  source_of evt = Some dt -> items_of dt = [] -> getData dt = Some f ->
  f (lit "text/plain") = Normal [] \/ f (lit "text/plain") = Throw ->
  f (lit "text") = Normal t -> t <> [] ->
  exists r, getPastedData h evt sched = Fulfilled r /\ text r = Some t.
Proof.
  intros Hsrc Hits Hf Hplain Ht Hne.
  rewrite (getPastedData_without_items h evt dt sched Hsrc Hits).
  unfold getDataPath.
  destruct (getDataSafe_total dt (lit "text/html")) as [page ->].
  rewrite (getDataSafe_nothing dt f _ Hf Hplain). unfold_bind.
  cbn [truthy]. rewrite (getDataSafe_value dt f _ t Hf Ht).
  destruct (if truthy page then extractFirstSvgFromHtml h page else Normal None)
    as [svg|] eqn:Esvg.
  - destruct (truthy t && negb (truthy_opt svg)).
    + destruct (push_from_plain_total h
                  (if truthy_opt svg
                   then push_svg h ([], 0%nat) (value_of svg)
                   else ([], 0%nat)) t) as [st ->].
      eexists. split; [reflexivity|]. cbn [text or_null].
      destruct t; [contradiction|reflexivity].
    + eexists. split; [reflexivity|]. cbn [text or_null].
      destruct t; [contradiction|reflexivity].
  - destruct (truthy page); [|discriminate].
    destruct (extractFirstSvgFromHtml_total h page) as [x Hx]. congruence.
Qed.

Lemma legacy_text_key_used_witness :
  exists r,
    getPastedData Fixture.chromium
      {| clipboardData := None;
         originalEvent := Some (Some
           {| items := None;
              getData := Some (fun ty =>
                if str_eqb ty (lit "text") then Normal (lit "hello")
                else Throw) |}) |} []
    = Fulfilled r
    /\ text r = Some (lit "hello").
Proof.
  apply (legacy_text_key_used Fixture.chromium _
           {| items := None;
              getData := Some (fun ty =>
                if str_eqb ty (lit "text") then Normal (lit "hello")
                else Throw) |}
           (fun ty =>
              if str_eqb ty (lit "text") then Normal (lit "hello") else Throw)).
  - reflexivity.
  - reflexivity.
  - reflexivity.
  - right. reflexivity.
  - reflexivity.
  - vm_compute. discriminate.
Defined.

(** ** A data URL in the plain text *)

Lemma printable_not_space (c : N) : 33 <= c < 128 -> is_space c = false.
Proof.
  intros H. unfold is_space, is_white_space, is_line_terminator.
  destruct (N.leb_spec 0x2000 c); [lia|].
  repeat match goal with
         | |- context [?a =? ?b] => destruct (N.eqb_spec a b); [lia|]
         end.
  reflexivity.
Qed.

Lemma trim_start_spaces (pad u : str) :
  Forall (fun c => is_space c = true) pad ->
  trim_start (pad ++ u) = trim_start u.
Proof.
  induction 1 as [|c pad Hc _ IH]; [reflexivity|].
  cbn [app trim_start]. now rewrite Hc.
Qed.

(** [trim] removes the white space around a text that neither begins nor
    ends with white space. *)
Lemma trim_padded (pad1 pad2 u : str) (x y : N) :
  Forall (fun c => is_space c = true) pad1 ->
  Forall (fun c => is_space c = true) pad2 ->
  head u = Some x -> is_space x = false ->
  last u = Some y -> is_space y = false ->
  trim (pad1 ++ u ++ pad2) = u.
Proof.
  intros H1 H2 Hx Hsx Hy Hsy. unfold trim, trim_end.
  rewrite (trim_start_spaces pad1 _ H1).
  destruct u as [|x' w]; [discriminate|]. injection Hx as ->.
  cbn [app trim_start]. rewrite Hsx.
  change (x :: w ++ pad2) with ((x :: w) ++ pad2).
  rewrite rev_app_distr, (trim_start_spaces (rev pad2) _ (@Forall_rev _ _ _ H2)).
  apply last_Some in Hy as [w' Hw]. rewrite Hw, rev_app_distr.
  cbn [rev app trim_start]. rewrite Hsy.
  change (y :: rev w') with ([y] ++ rev w').
  now rewrite rev_app_distr, rev_involutive.
Qed.

Lemma last_of_all (P : N -> Prop) (c : N) (l : str) :
  Forall P (c :: l) -> exists y, last (c :: l) = Some y /\ P y.
Proof.
  revert c; induction l as [|d l IH]; intros c H.
  - exists c. split; [reflexivity|]. now inversion H.
  - inversion H as [|? ? _ Hl]; subst.
    destruct (IH d Hl) as (y & Hy & HP). exists y. split; [|exact HP].
    rewrite last_cons, Hy. reflexivity.
Qed.

Lemma mime_head (mime : str) :
  map ascii_lower mime = svg_mime ->
  exists x, head mime = Some x /\ is_space x = false.
Proof.
  destruct mime as [|x mime]; [discriminate|].
  intros H. exists x. split; [reflexivity|].
  assert (Hx : ascii_lower x = 100) by (now injection H).
  unfold ascii_lower in Hx.
  destruct (N.leb_spec 65 x); destruct (N.leb_spec x 90);
    cbn [andb] in Hx; apply printable_not_space; lia.
Qed.

(** The white space around a data URL is trimmed away. *)
Lemma trim_data_url (pad1 pad2 mime params payload : str) :
  Forall (fun c => is_space c = true) pad1 ->
  Forall (fun c => is_space c = true) pad2 ->
  map ascii_lower mime = svg_mime ->
  Forall (fun c => 33 <= c < 128) payload ->
  trim (pad1 ++ (mime ++ params ++ 44 :: payload) ++ pad2)
  = mime ++ params ++ 44 :: payload.
Proof.
  intros H1 H2 Hmime Hpayload.
  destruct (mime_head mime Hmime) as (x & Hx & Hsx).
  destruct (last_of_all (fun c => 33 <= c < 128) 44 payload) as (y & Hy & Hry).
  { constructor; [lia|exact Hpayload]. }
  apply (trim_padded pad1 pad2 _ x y); auto.
  - destruct mime; [discriminate|exact Hx].
  - now rewrite !last_app, Hy.
  - now apply printable_not_space.
Qed.

Lemma hex_digit_not_lt (n : N) : n < 16 -> Uri.hex_digit n <> 60.
Proof. intros H. unfold Uri.hex_digit. destruct (N.ltb_spec n 10); lia. Qed.

Lemma encode_code_point_no_lt (v : N) :
  scalar_value v -> Forall (fun c => c <> 60) (Uri.encode_code_point v).
Proof.
  intros [Hmax _]. unfold Uri.encode_code_point.
  destruct (Uri.is_unreserved v) eqn:Eu.
  - repeat constructor. intros ->. vm_compute in Eu. discriminate.
  - assert (Hp : forall b, b < 256 -> Forall (fun c => c <> 60) (Uri.percent b)).
    { intros b Hb. unfold Uri.percent.
      pose proof (hex_digit_not_lt (b / 16)).
      pose proof (hex_digit_not_lt (b mod 16)).
      repeat constructor; [lia|apply H; lia|apply H0; lia]. }
    unfold Uri.utf8_encode.
    destruct (N.ltb_spec v 0x80);
      [|destruct (N.ltb_spec v 0x800); [|destruct (N.ltb_spec v 0x10000)]];
      cbn [map concat]; rewrite ?app_nil_r;
      repeat (apply Forall_app; split); apply Hp; lia.
Qed.

(** [encodeURIComponent] escapes every [<]. *)
Lemma encoded_no_lt (s enc : str) :
  Forall code_unit s -> Uri.encodeURIComponent s = Normal enc ->
  Forall (fun c => c <> 60) enc.
Proof.
  intros Hs. unfold Uri.encodeURIComponent.
  destruct (Uri.code_points s) as [cps|] eqn:E; [|discriminate].
  intros H. apply Normal_inj in H. subst enc.
  destruct (code_points_utf16 (length s) s cps) as [Hv _]; auto.
  clear E Hs. induction Hv as [|v cps Hv _ IH]; [constructor|].
  cbn [map concat]. apply Forall_app. split; [|exact IH].
  now apply encode_code_point_no_lt.
Qed.

(** A text without [<] holds no inline fragment. *)
Lemma matchInlineSvg_needs_lt (s : str) :
  Forall (fun c => c <> 60) s -> matchInlineSvg s = None.
Proof.
  intros Hs. unfold matchInlineSvg, Re.exec.
  destruct (Re.exec_from true re_inline_svg 0 s) as [m|] eqn:E; [|reflexivity].
  exfalso.
  apply exec_from_split in E as (pre & t & -> & Hm & _).
  apply inline_match_shape in Hm as (a & body & c & post & -> & Ha & _).
  apply Forall_app in Hs as [_ Hs]. apply Forall_app in Hs as [Hs _].
  destruct a as [|x a]; [discriminate|].
  inversion Hs as [|? ? Hx _]; subst.
  assert (Hl : ascii_lower x = 60) by (now injection Ha).
  unfold ascii_lower in Hl.
  destruct (N.leb_spec 65 x); destruct (N.leb_spec x 90);
    cbn [andb] in Hl; lia.
Qed.

Lemma mime_no_lt (mime : str) :
  map ascii_lower mime = svg_mime -> Forall (fun c => c <> 60) mime.
Proof.
  intros H. apply List.Forall_forall. intros c Hc ->.
  apply (in_map ascii_lower) in Hc. rewrite H in Hc.
  vm_compute in Hc. repeat destruct Hc as [Hc|Hc]; try discriminate Hc.
  exact Hc.
Qed.

Lemma spaces_no_lt (pad : str) :
  Forall (fun c => is_space c = true) pad -> Forall (fun c => c <> 60) pad.
Proof.
  apply List.Forall_impl. intros c Hc ->. vm_compute in Hc. discriminate.
Qed.

(** The statements on a plain-text payload, on a percent-encoded data
    URL with white space around it. *)
Lemma push_from_plain_data_url (h : host) st
    (pad1 pad2 mime params svg enc : str) :
  Forall (fun c => is_space c = true) pad1 ->
  Forall (fun c => is_space c = true) pad2 ->
  map ascii_lower mime = svg_mime ->
  url_params params -> Forall (fun c => c <> 60) params ->
  Re.test true re_base64 params = false ->
  Forall code_unit svg -> svg <> [] ->
  Uri.encodeURIComponent svg = Normal enc ->
  push_from_plain h st (pad1 ++ (mime ++ params ++ 44 :: enc) ++ pad2)
  = Normal (push_svg h st svg).
Proof.
  intros H1 H2 Hmime Hparams Hlt Hplain Hsvg Hne Henc.
  pose proof (encoded_chars svg enc Hsvg Henc) as Hchars.
  unfold push_from_plain. cbv zeta.
  rewrite matchInlineSvg_needs_lt.
  2:{ repeat (apply Forall_app; split); auto using spaces_no_lt, mime_no_lt.
      constructor; [lia|]. eapply encoded_no_lt; eauto. }
  cbn [truthy_opt].
  rewrite (trim_data_url pad1 pad2 mime params enc H1 H2 Hmime Hchars).
  assert (Hparts : data_url_parts (mime ++ params ++ 44 :: enc) mime params enc).
  { repeat split; auto. now apply printable_not_line_terminator. }
  assert (His : isSvgDataUrl (mime ++ params ++ 44 :: enc) = true).
  { rewrite isSvgDataUrl_unfold.
    assert (E : lits_rest true svg_mime (mime ++ params ++ 44 :: enc)
                = Some (params ++ 44 :: enc))
      by (apply (lits_rest_lower _ _ _ svg_mime_lower); eauto).
    rewrite E. destruct Hparams as [->|(q & -> & _)]; reflexivity. }
  rewrite His, (decodeSvgDataUrl_parts h _ mime params enc Hparts).
  unfold payload_decoder. rewrite Hplain.
  rewrite (decode_encode_component svg enc Hsvg Henc). unfold_bind.
  destruct svg; [contradiction|reflexivity].
Qed.

(** X16. A data URL pasted as plain text becomes a file, on the
    [getData] path: when the clipboard has no entries, the [text/html]
    lookup gives nothing, and the plain text is a percent-encoded SVG
    data URL with white space around it (MIME type in any ASCII case,
    parameters without comma, [<] or a base64 marker), the result has
    one file holding the decoded text, the [text] field is the plain
    text as pasted, white space included, and [html] is [null]. *)
Theorem plain_data_url_becomes_file (h : host) (evt : Event)
    (dt : DataTransfer) (f : str -> completion str) (sched : list nat)
    (pad1 pad2 mime params svg enc : str) :
  source_of evt = Some dt -> items_of dt = [] -> getData dt = Some f ->
  f (lit "text/html") = Normal [] \/ f (lit "text/html") = Throw ->
  f (lit "text/plain")
    = Normal (pad1 ++ (mime ++ params ++ 44 :: enc) ++ pad2) ->
  Forall (fun c => is_space c = true) pad1 ->
  Forall (fun c => is_space c = true) pad2 ->
  map ascii_lower mime = svg_mime ->
  url_params params -> Forall (fun c => c <> 60) params ->
  Re.test true re_base64 params = false ->
  Forall code_unit svg -> svg <> [] ->
  Uri.encodeURIComponent svg = Normal enc ->
  getPastedData h evt sched
  = Fulfilled
      {| files := [fileFromSvgText (now h 0%nat) svg None];
         text := Some (pad1 ++ (mime ++ params ++ 44 :: enc) ++ pad2);
         html := None |}.
Proof.
  intros Hsrc Hits Hf Hhtml Hplain H1 H2 Hmime Hparams Hlt Hb64 Hsvg Hne Henc.
  rewrite (getPastedData_without_items h evt dt sched Hsrc Hits).
  unfold getDataPath.
  rewrite (getDataSafe_nothing dt f _ Hf Hhtml).
  rewrite (getDataSafe_value dt f _ _ Hf Hplain). unfold_bind.
  pose proof (push_from_plain_data_url h ([], 0%nat) pad1 pad2 mime params
                svg enc H1 H2 Hmime Hparams Hlt Hb64 Hsvg Hne Henc) as Hpush.
  assert (Ht : truthy (pad1 ++ (mime ++ params ++ 44 :: enc) ++ pad2) = true).
  { destruct pad1; [|reflexivity].
    destruct mime; [discriminate|reflexivity]. }
  remember (pad1 ++ (mime ++ params ++ 44 :: enc) ++ pad2) as plain.
  rewrite Ht. cbn [truthy truthy_opt negb andb]. rewrite Hpush.
  cbn [sync push_svg fst snd app or_null]. rewrite Ht. reflexivity.
Qed.

Lemma plain_data_url_becomes_file_witness :
  exists enc,
    Uri.encodeURIComponent path_svg = Normal enc
    /\ getPastedData Fixture.chromium
         (Fixture.paste_event None []
            (lit "  " ++ (lit "data:image/svg+xml" ++ lit ";utf8" ++ 44 :: enc)
               ++ [10]))
         []
       = Fulfilled
           {| files := [fileFromSvgText (now Fixture.chromium 0%nat)
                          path_svg None];
              text := Some (lit "  "
                              ++ (lit "data:image/svg+xml" ++ lit ";utf8"
                                    ++ 44 :: enc)
                              ++ [10]);
              html := None |}.
Proof.
  destruct (Uri.encodeURIComponent path_svg) as [enc|] eqn:E;
    [|vm_compute in E; discriminate].
  exists enc. split; [reflexivity|].
  apply (plain_data_url_becomes_file Fixture.chromium _
           (Fixture.data_transfer None []
              (lit "  " ++ (lit "data:image/svg+xml" ++ lit ";utf8" ++ 44 :: enc)
                 ++ [10]))
           (fun ty =>
              if str_eqb ty (lit "text/html") then Normal []
              else if str_eqb ty (lit "text/plain") || str_eqb ty (lit "text")
              then Normal (lit "  "
                             ++ (lit "data:image/svg+xml" ++ lit ";utf8"
                                   ++ 44 :: enc)
                             ++ [10])
              else Normal [])).
  - reflexivity.
  - reflexivity.
  - reflexivity.
  - left. reflexivity.
  - reflexivity.
  - repeat constructor.
  - repeat constructor.
  - vm_compute. reflexivity.
  - right. exists (lit "utf8"). split; [reflexivity|].
    repeat constructor; discriminate.
  - repeat constructor; discriminate.
  - vm_compute. reflexivity.
  - apply List.Forall_forall. intros c Hc.
    assert (H : forallb (fun c => c <? 65536) path_svg = true)
      by (vm_compute; reflexivity).
    rewrite forallb_forall in H. apply N.ltb_lt. now apply H.
  - vm_compute. discriminate.
  - exact E.
Defined.

(** ** Default file names *)

Lemma lit_injective (a b : string) : lit a = lit b -> a = b.
Proof.
  unfold lit. intros H.
  rewrite <- (string_of_list_ascii_of_string a),
          <- (string_of_list_ascii_of_string b).
  f_equal. revert H.
  generalize (list_ascii_of_string a) (list_ascii_of_string b).
  induction l as [|x l IH]; intros [|y l']; try discriminate; [reflexivity|].
  cbn [map]. intros H. injection H as Hxy Hl.
  rewrite <- (ascii_N_embedding x), <- (ascii_N_embedding y), Hxy.
  f_equal. now apply IH.
Qed.

Lemma to_uint_nonnil (n : N) : N.to_uint n <> Decimal.Nil.
Proof.
  destruct n as [|p]; [discriminate|].
  apply DecimalPos.Unsigned.to_uint_nonnil.
Qed.

(** The decimal form tells the number. *)
Lemma decimal_injective (m n : N) : decimal m = decimal n -> m = n.
Proof.
  unfold decimal. intros H. apply lit_injective in H.
  apply DecimalN.Unsigned.to_uint_inj.
  pose proof (NilZero.usu _ (to_uint_nonnil m)) as Hm.
  pose proof (NilZero.usu _ (to_uint_nonnil n)) as Hn.
  rewrite H in Hm. congruence.
Qed.

(** X17. The default name tells the clock reading: two files made
    without an explicit name have the same name exactly when
    [Date.now()] gave the same reading for both, whatever their texts;
    so the files that one call synthesizes share a name unless the
    clock moved in between. *)
Theorem default_name_tells_clock (t1 t2 : N) (text1 text2 : str) :
  file_name (fileFromSvgText t1 text1 None)
  = file_name (fileFromSvgText t2 text2 None)
  <-> t1 = t2.
Proof.
  cbn [fileFromSvgText file_name]. split; [|now intros ->].
  intros H. apply app_inv_head, app_inv_tail in H.
  now apply decimal_injective.
Qed.
